(** * Dispatch and tracking engine of the delivery service

    A shallow embedding of the two service variants of the repository:

    - [App]: [app/services/delivery_service.py] (class [DeliveryService])
      and [app/services/message_handler.py] (class [MessageHandler]),
      both working against a document store;
    - [Api]: [src/main.py], the HTTP variant with the driver matcher
      ([find_nearest_driver]), the ETA computation ([calculate_eta]) and
      the live-tracking [ConnectionManager].

    Conventions of the embedding.

    - A collection of the document store is the list of its documents in
      natural (insertion) order; [find_one] and [update_one] act on the
      first document that matches.
    - Every call into the store may raise.  The world carries a schedule
      [faults]: one boolean per store call still to come, [true] meaning
      that the call raises; an exhausted schedule means no more failures.
    - Instants are integers counting milliseconds (the resolution at which
      the store keeps a date); each operation receives the reading [now]
      of the clock taken while it runs.
    - [ObjectId()] draws a new identifier; the operation that calls it
      receives the identifier drawn as [new_id].
    - Instants are unbounded: the range of [datetime] (years 1 to 9999)
      is not modelled.
    - Numbers.  [App] and [Api] compute percentages, minutes and
      distances over the rationals and the reals.  Python and the store
      compute them in binary64: [Double] holds the operations of a
      Python [float] on primitive floats, and [ApiDouble] and [AppDouble]
      the matcher, the ETA and the statistics as they run on them.  The
      [pow] of the C library, which [**] calls, and the [$avg] of the
      store are parameters there. *)

From Stdlib Require Import ZArith List Ascii String Bool Lia QArith Qround Qabs
  Reals Lra.
From Stdlib Require Lqa.
From Stdlib Require Floats Uint63.
From stdpp Require Import base decidable option list strings gmap.

Local Open Scope Z_scope.
Local Open Scope string_scope.

(** ** Identifiers *)

(** The value of a [bson.ObjectId]. *)
Definition oid : Type := N.

(** A Python [str] used where an identifier is expected: either the
    hexadecimal text of an identifier, or a text [ObjectId] refuses. *)
Inductive id_text : Type :=
| Hex (o : oid)
| Malformed (s : string).

#[global] Instance id_text_eq_dec : EqDecision id_text.
Proof. solve_decision. Defined.

#[global] Instance id_text_countable : Countable id_text.
Proof.
  refine (inj_countable'
            (fun t => match t with Hex o => inl o | Malformed s => inr s end)
            (fun x => match x with inl o => Hex o | inr s => Malformed s end)
            _).
  intros []; reflexivity.
Defined.

(** Truth value of a text: only the empty string is false. *)
Definition nonempty (t : id_text) : bool :=
  match t with
  | Hex _ => true
  | Malformed s => negb (String.eqb s "")
  end.

(** [str(oid)] *)
Definition str (o : oid) : id_text := Hex o.

(** [ObjectId.is_valid(text)] *)
Definition is_valid (t : id_text) : bool :=
  match t with Hex _ => true | Malformed _ => false end.

(** ** Exceptions, outcomes and programs *)

Inductive exn : Type :=
| InvalidId            (* bson.errors.InvalidId *)
| StoreFailure         (* any error raised by the store client *)
| DuplicateKeyError    (* insert of an _id already present *)
| TypeError            (* Python TypeError *)
| KeyError             (* Python KeyError *)
| ConnectionClosed     (* a send on a connection whose peer is gone *)
| HTTPException (status_code : Z)
| ValueError           (* Python ValueError *)
| OverflowError        (* Python OverflowError *)
| ZeroDivisionError.   (* Python ZeroDivisionError *)

Inductive outcome (A : Type) : Type :=
| Ok (a : A)
| Raise (e : exn).
Arguments Ok {A} a.
Arguments Raise {A} e.

(** Sequencing of computations that touch no world: an exception ends
    them. *)
Definition and_then {A B} (o : outcome A) (k : A -> outcome B) : outcome B :=
  match o with
  | Ok a => k a
  | Raise e => Raise e
  end.

(** A program over a world [W]: it returns or raises, and leaves a world. *)
Definition prog (W A : Type) : Type := W -> outcome A * W.

Definition ret {W A} (a : A) : prog W A := fun w => (Ok a, w).

Definition raise {W A} (e : exn) : prog W A := fun w => (Raise e, w).

Definition bind {W A B} (m : prog W A) (k : A -> prog W B) : prog W B :=
  fun w => match m w with
           | (Ok a, w') => k a w'
           | (Raise e, w') => (Raise e, w')
           end.

(** [try: m except: h] with a bare [except] (or [except Exception]). *)
Definition try_except {W A} (m : prog W A) (h : exn -> prog W A) : prog W A :=
  fun w => match m w with
           | (Ok a, w') => (Ok a, w')
           | (Raise e, w') => h e w'
           end.

Declare Scope prog_scope.
Delimit Scope prog_scope with prog.
Notation "'let!' x ':=' m 'in' k" := (bind m (fun x => k))
  (at level 10, x pattern, m at level 100, k at level 200) : prog_scope.
Notation "'let?' x ':=' o 'in' k" := (and_then o (fun x => k))
  (at level 10, x pattern, o at level 100, k at level 200) : prog_scope.
Notation "m1 '>>' m2" := (bind m1 (fun _ => m2))
  (at level 100, m2 at level 200, right associativity) : prog_scope.
Local Open Scope prog_scope.

(** [ObjectId(text)], which raises [InvalidId] on a text that is not the
    hexadecimal form of an identifier. *)
Definition ObjectId {W} (t : id_text) : prog W oid :=
  match t with
  | Hex o => ret o
  | Malformed _ => raise InvalidId
  end.

(** [timedelta(minutes=m)], in milliseconds. *)
Definition minutes (m : Z) : Z := m * 60000.

(** ** Collections *)

Section Collection.
Context {A : Type} `{EqDecision A}.

(** [find_one(filter)] *)
Fixpoint find_first (p : A -> bool) (l : list A) : option A :=
  match l with
  | [] => None
  | x :: r => if p x then Some x else find_first p r
  end.

(** The collection after [update_one(filter, update)]. *)
Fixpoint update_first (p : A -> bool) (f : A -> A) (l : list A) : list A :=
  match l with
  | [] => []
  | x :: r => if p x then f x :: r else x :: update_first p f r
  end.

(** [count_documents(filter)] *)
Definition count_matching (p : A -> bool) (l : list A) : nat :=
  length (List.filter p l).

(** [UpdateResult.matched_count] *)
Definition matched_count (p : A -> bool) (l : list A) : nat :=
  match find_first p l with Some _ => 1%nat | None => 0%nat end.

(** [UpdateResult.modified_count]: a matched document the update leaves
    as it was is not counted. *)
Definition modified_count (p : A -> bool) (f : A -> A) (l : list A) : nat :=
  match find_first p l with
  | Some x => if decide (f x = x) then 0%nat else 1%nat
  | None => 0%nat
  end.
End Collection.

Record UpdateResult : Type := mkUpdateResult {
  res_matched : nat;
  res_modified : nat }.

(** ** The service of [app/services] *)

Module App.

(** A sub-document the service stores and returns as it received it
    (an address, a location). *)
Definition subdoc : Type := list (string * string).

(** An entry of [tracking_history]. *)
Record tracking_event : Type := TrackingEvent {
  event : string;
  description : string;
  timestamp : Z }.

#[global] Instance tracking_event_eq_dec : EqDecision tracking_event.
Proof. solve_decision. Defined.

(** A document of the [deliveries] collection, with the keys
    [create_delivery] writes and those of [models.DeliveryUpdate]. *)
Module Delivery.
Record t : Type := Build {
  _id : oid;
  order_id : option string;
  customer_id : option string;
  restaurant_id : option string;
  pickup_address : subdoc;
  delivery_address : subdoc;
  customer_phone : option string;
  delivery_instructions : option string;
  status : string;
  driver_id : option oid;
  estimated_delivery_time : option Z;
  actual_delivery_time : option Z;
  current_location : option subdoc;
  tracking_history : list tracking_event;
  created_at : Z;
  updated_at : Z;
  delivery_proof : option string;
  customer_notes : option string;
  driver_notes : option string }.

#[global] Instance eq_dec : EqDecision t.
Proof. solve_decision. Defined.

(** [{"$push": {"tracking_history": ev}}] *)
Definition push_tracking (ev : tracking_event) (d : t) : t :=
  Build (_id d) (order_id d) (customer_id d) (restaurant_id d)
    (pickup_address d) (delivery_address d) (customer_phone d)
    (delivery_instructions d) (status d) (driver_id d)
    (estimated_delivery_time d) (actual_delivery_time d)
    (current_location d) (tracking_history d ++ [ev]) (created_at d)
    (updated_at d) (delivery_proof d) (customer_notes d) (driver_notes d).

(** [driver_id], [status] and [estimated_delivery_time] as
    [create_delivery] sets them once a driver is found. *)
Definition assign (driver : oid) (eta : Z) (d : t) : t :=
  Build (_id d) (order_id d) (customer_id d) (restaurant_id d)
    (pickup_address d) (delivery_address d) (customer_phone d)
    (delivery_instructions d) "assigned" (Some driver)
    (Some eta) (actual_delivery_time d)
    (current_location d) (tracking_history d) (created_at d)
    (updated_at d) (delivery_proof d) (customer_notes d) (driver_notes d).

(** [{"$set": {"actual_delivery_time": now}}] *)
Definition set_actual_delivery_time (now : Z) (d : t) : t :=
  Build (_id d) (order_id d) (customer_id d) (restaurant_id d)
    (pickup_address d) (delivery_address d) (customer_phone d)
    (delivery_instructions d) (status d) (driver_id d)
    (estimated_delivery_time d) (Some now)
    (current_location d) (tracking_history d) (created_at d)
    (updated_at d) (delivery_proof d) (customer_notes d) (driver_notes d).
End Delivery.

(** The dictionary [update_data] of [update_delivery]: the keys of
    [models.DeliveryUpdate], each present ([Some]) or absent; the status
    is a string, as [handle_status_change] declares it. *)
Module DeliveryUpdate.
Record t : Type := Build {
  status : option string;
  current_location : option subdoc;
  delivery_proof : option string;
  customer_notes : option string;
  driver_notes : option string }.

Definition only_status (s : string) : t :=
  Build (Some s) None None None None.

Definition empty : t := Build None None None None None.
End DeliveryUpdate.

(** [{"$set": update_data}] once [update_data["updated_at"]] holds [now]:
    a key that is present overwrites the stored value. *)
Definition set_fields (u : DeliveryUpdate.t) (now : Z) (d : Delivery.t)
  : Delivery.t :=
  Delivery.Build (Delivery._id d) (Delivery.order_id d)
    (Delivery.customer_id d) (Delivery.restaurant_id d)
    (Delivery.pickup_address d) (Delivery.delivery_address d)
    (Delivery.customer_phone d) (Delivery.delivery_instructions d)
    (default (Delivery.status d) (DeliveryUpdate.status u))
    (Delivery.driver_id d)
    (Delivery.estimated_delivery_time d) (Delivery.actual_delivery_time d)
    (match DeliveryUpdate.current_location u with
     | Some l => Some l | None => Delivery.current_location d end)
    (Delivery.tracking_history d) (Delivery.created_at d)
    now
    (match DeliveryUpdate.delivery_proof u with
     | Some x => Some x | None => Delivery.delivery_proof d end)
    (match DeliveryUpdate.customer_notes u with
     | Some x => Some x | None => Delivery.customer_notes d end)
    (match DeliveryUpdate.driver_notes u with
     | Some x => Some x | None => Delivery.driver_notes d end).

(** A document of the [drivers] collection, with the keys the service
    reads or writes.  [is_online] is [false] also when the key is absent
    (the query asks for [True]); [current_delivery_id] is [None] when the
    key is absent. *)
Module Driver.
Record t : Type := Build {
  _id : oid;
  name : string;
  phone : string;
  vehicle_info : option subdoc;
  status : string;
  is_online : bool;
  current_location : option subdoc;
  current_delivery_id : option oid }.

#[global] Instance eq_dec : EqDecision t.
Proof. solve_decision. Defined.

(** [{"$set": {"status": "busy", "current_delivery_id": delivery_id}}] *)
Definition reserve (delivery_id : oid) (d : t) : t :=
  Build (_id d) (name d) (phone d) (vehicle_info d) "busy" (is_online d)
    (current_location d) (Some delivery_id).

(** [{"$set": {"status": "available"},
      "$unset": {"current_delivery_id": ""}}] *)
Definition release (d : t) : t :=
  Build (_id d) (name d) (phone d) (vehicle_info d) "available"
    (is_online d) (current_location d) None.

(** The filter [{"status": "available", "is_online": True}]. *)
Definition available (d : t) : bool :=
  bool_decide (status d = "available") && is_online d.
End Driver.

(** The database and the failures the store still has in stock. *)
Record world : Type := World {
  deliveries : list Delivery.t;
  drivers : list Driver.t;
  faults : list bool }.

Definition program : Type -> Type := prog world.

(** One call into the store: it raises when the schedule says so. *)
Definition store_call {A} (op : world -> A * world) : program A :=
  fun w =>
    match faults w with
    | true :: fs => (Raise StoreFailure, World (deliveries w) (drivers w) fs)
    | false :: fs =>
        let '(a, w') := op (World (deliveries w) (drivers w) fs) in (Ok a, w')
    | [] => let '(a, w') := op w in (Ok a, w')
    end.

Definition delivery_by_id (o : oid) (d : Delivery.t) : bool :=
  bool_decide (Delivery._id d = o).

Definition driver_by_id (o : oid) (d : Driver.t) : bool :=
  bool_decide (Driver._id d = o).

(** [deliveries_collection.find_one(filter)] *)
Definition deliveries_find_one (p : Delivery.t -> bool)
  : program (option Delivery.t) :=
  store_call (fun w => (find_first p (deliveries w), w)).

(** [deliveries_collection.update_one(filter, update)] *)
Definition deliveries_update_one (p : Delivery.t -> bool)
    (f : Delivery.t -> Delivery.t) : program UpdateResult :=
  store_call (fun w =>
    (mkUpdateResult (matched_count p (deliveries w))
                    (modified_count p f (deliveries w)),
     World (update_first p f (deliveries w)) (drivers w) (faults w))).

(** [deliveries_collection.insert_one(document)]; the store refuses a
    second document with an [_id] it already holds. *)
Definition deliveries_insert_one (d : Delivery.t) : program unit :=
  bind (store_call (fun w => (find_first (delivery_by_id (Delivery._id d))
                                         (deliveries w), w)))
       (fun present =>
          match present with
          | Some _ => raise DuplicateKeyError
          | None => fun w => (Ok tt, World (deliveries w ++ [d]) (drivers w)
                                           (faults w))
          end).

(** [deliveries_collection.count_documents(filter)] *)
Definition deliveries_count_documents (p : Delivery.t -> bool)
  : program nat :=
  store_call (fun w => (count_matching p (deliveries w), w)).

(** [drivers_collection.find_one(filter)] *)
Definition drivers_find_one (p : Driver.t -> bool)
  : program (option Driver.t) :=
  store_call (fun w => (find_first p (drivers w), w)).

(** [drivers_collection.update_one(filter, update)] *)
Definition drivers_update_one (p : Driver.t -> bool)
    (f : Driver.t -> Driver.t) : program UpdateResult :=
  store_call (fun w =>
    (mkUpdateResult (matched_count p (drivers w))
                    (modified_count p f (drivers w)),
     World (deliveries w) (update_first p f (drivers w)) (faults w))).

(** [drivers_collection.count_documents(filter)] *)
Definition drivers_count_documents (p : Driver.t -> bool) : program nat :=
  store_call (fun w => (count_matching p (drivers w), w)).

(** *** [DeliveryService] *)

(** The argument [delivery_data] of [create_delivery]. *)
Module DeliveryData.
Record t : Type := Build {
  order_id : option string;
  customer_id : option string;
  restaurant_id : option string;
  pickup_address : subdoc;
  delivery_address : subdoc;
  customer_phone : option string;
  delivery_instructions : option string }.
End DeliveryData.

(** [add_tracking_event]: the push is attempted and every exception is
    swallowed. *)
Definition add_tracking_event (delivery_id : id_text) (ev descr : string)
    (now : Z) : program unit :=
  try_except
    (let! o := ObjectId delivery_id in
     let! _ := deliveries_update_one (delivery_by_id o)
                 (Delivery.push_tracking (TrackingEvent ev descr now)) in
     ret tt)
    (fun _ => ret tt).

(** [get_delivery]: the document found, its identifiers turned to text,
    or [None] when there is none or anything raised. *)
Definition get_delivery (delivery_id : id_text)
  : program (option Delivery.t) :=
  try_except
    (let! o := ObjectId delivery_id in
     deliveries_find_one (delivery_by_id o))
    (fun _ => ret None).

(** [get_delivery_by_order] *)
Definition get_delivery_by_order (order_id : option string)
  : program (option Delivery.t) :=
  deliveries_find_one
    (fun d => bool_decide (Delivery.order_id d = order_id)).

(** [find_available_driver]: any available driver, the pickup address is
    not looked at. *)
Definition find_available_driver (pickup_address : subdoc)
  : program (option Driver.t) :=
  drivers_find_one Driver.available.

(** The dictionary [create_delivery] starts from. *)
Definition pending_delivery (delivery_data : DeliveryData.t) (new_id : oid)
    (now : Z) : Delivery.t :=
  Delivery.Build new_id
    (DeliveryData.order_id delivery_data)
    (DeliveryData.customer_id delivery_data)
    (DeliveryData.restaurant_id delivery_data)
    (DeliveryData.pickup_address delivery_data)
    (DeliveryData.delivery_address delivery_data)
    (DeliveryData.customer_phone delivery_data)
    (DeliveryData.delivery_instructions delivery_data)
    "pending" None None None None [] now now None None None.

(** [create_delivery] *)
Definition create_delivery (delivery_data : DeliveryData.t) (new_id : oid)
    (now : Z) : program Delivery.t :=
  let delivery := pending_delivery delivery_data new_id now in
  let! available_driver :=
    find_available_driver (DeliveryData.pickup_address delivery_data) in
  let! delivery :=
    match available_driver with
    | Some driver =>
        let delivery :=
          Delivery.assign (Driver._id driver) (now + minutes 30) delivery in
        let! _ := drivers_update_one (driver_by_id (Driver._id driver))
                    (Driver.reserve (Delivery._id delivery)) in
        ret delivery
    | None => ret delivery
    end in
  let! _ := deliveries_insert_one delivery in
  let! _ := add_tracking_event (str (Delivery._id delivery)) "created"
              "Delivery created" now in
  ret delivery.

(** The table [status_messages] of [handle_status_change]. *)
Definition status_messages : list (string * string) :=
  [ ("assigned", "Driver assigned to delivery");
    ("picked_up", "Order picked up from restaurant");
    ("in_transit", "On the way to delivery address");
    ("delivered", "Order delivered successfully");
    ("cancelled", "Delivery cancelled") ].

(** [dict.get(key, default)] *)
Fixpoint dict_get (key : string) (d : list (string * string))
    (dflt : string) : string :=
  match d with
  | [] => dflt
  | (k, v) :: r => if String.eqb k key then v else dict_get key r dflt
  end.

(** [new_status in ["delivered", "cancelled"]] *)
Definition completes (new_status : string) : bool :=
  String.eqb new_status "delivered" || String.eqb new_status "cancelled".

(** [handle_status_change] *)
Definition handle_status_change (delivery_id : id_text) (new_status : string)
    (now : Z) : program unit :=
  let message :=
    dict_get new_status status_messages
      ("Status updated to " ++ new_status) in
  let! _ := add_tracking_event delivery_id new_status message now in
  let! _ :=
    if completes new_status then
      let! delivery := get_delivery delivery_id in
      match delivery with
      | Some d =>
          match Delivery.driver_id d with
          | Some k =>
              let! o := ObjectId (str k) in
              let! _ := drivers_update_one (driver_by_id o) Driver.release in
              ret tt
          | None => ret tt
          end
      | None => ret tt
      end
    else ret tt in
  if String.eqb new_status "delivered" then
    let! o := ObjectId delivery_id in
    let! _ := deliveries_update_one (delivery_by_id o)
                (Delivery.set_actual_delivery_time now) in
    ret tt
  else ret tt.

(** [update_delivery] *)
Definition update_delivery (delivery_id : id_text)
    (update_data : DeliveryUpdate.t) (now : Z)
  : program (option Delivery.t) :=
  try_except
    (let! _ :=
       match DeliveryUpdate.status update_data with
       | Some new_status => handle_status_change delivery_id new_status now
       | None => ret tt
       end in
     let! o := ObjectId delivery_id in
     let! result := deliveries_update_one (delivery_by_id o)
                      (set_fields update_data now) in
     if (0 <? res_modified result)%nat then get_delivery delivery_id
     else ret None)
    (fun _ => ret None).

(** *** [MessageHandler]

    Publishing goes to the transport and touches neither collection;
    [publish_event] swallows its own exceptions.  It is left out. *)

(** [handle_payment_successful] *)
Definition handle_payment_successful (order_id : option string) (now : Z)
  : program unit :=
  let! delivery := get_delivery_by_order order_id in
  match delivery with
  | Some d =>
      let! _ := update_delivery (str (Delivery._id d))
                  (DeliveryUpdate.only_status "confirmed") now in
      ret tt
  | None => ret tt
  end.

(** [handle_order_cancelled] *)
Definition handle_order_cancelled (order_id : option string) (now : Z)
  : program unit :=
  let! delivery := get_delivery_by_order order_id in
  match delivery with
  | Some d =>
      let! _ := update_delivery (str (Delivery._id d))
                  (DeliveryUpdate.only_status "cancelled") now in
      ret tt
  | None => ret tt
  end.

(** *** Statistics *)

(** [round(x, 2)]: to the nearest hundredth, a tie going to the even
    neighbour. *)
Definition round_half_even (x : Q) : Z :=
  let n := Qfloor x in
  match Qcompare (x - inject_Z n) (1 # 2) with
  | Lt => n
  | Gt => n + 1
  | Eq => if Z.even n then n else n + 1
  end.

Definition round2 (x : Q) : Q :=
  (inject_Z (round_half_even (x * 100)) / 100)%Q.

(** The filter [{"status": "delivered"}]. *)
Definition is_delivered (d : Delivery.t) : bool :=
  String.eqb (Delivery.status d) "delivered".

(** The filter [{"status": {"$nin": ["delivered", "cancelled"]}}]. *)
Definition is_open (d : Delivery.t) : bool :=
  negb (String.eqb (Delivery.status d) "delivered"
        || String.eqb (Delivery.status d) "cancelled").

(** The [$project] stage: [(actual_delivery_time - created_at) / 60000],
    null when [actual_delivery_time] is null. *)
Definition delivery_time_minutes (d : Delivery.t) : option Q :=
  match Delivery.actual_delivery_time d with
  | Some t => Some (inject_Z (t - Delivery.created_at d) / 60000)%Q
  | None => None
  end.

Definition Qsum (l : list Q) : Q := fold_right Qplus 0%Q l.

(** [$avg]: the mean of the numbers, null when there is none. *)
Definition avg (l : list Q) : option Q :=
  match l with
  | [] => None
  | _ => Some (Qsum l / inject_Z (Z.of_nat (length l)))%Q
  end.

(** The pipeline: [$match] on delivered documents that have the key
    [actual_delivery_time] (every document has it, null or not),
    [$project], and one [$group] over what is left; no group when nothing
    matched. *)
Definition pipeline (docs : list Delivery.t) : list (option Q) :=
  match List.filter is_delivered docs with
  | [] => []
  | matched => [avg (omap delivery_time_minutes matched)]
  end.

(** [deliveries_collection.aggregate(pipeline).to_list(1)] *)
Definition deliveries_aggregate : program (list (option Q)) :=
  store_call (fun w => (firstn 1 (pipeline (deliveries w)), w)).

Record statistics : Type := Statistics {
  total_deliveries : nat;
  completed_deliveries : nat;
  pending_deliveries : nat;
  active_drivers : nat;
  available_drivers : nat;
  average_delivery_time_minutes : Q;
  completion_rate : Q }.

(** What [get_delivery_statistics] returns: the figures, or the
    dictionary [{"error": ...}]. *)
Inductive statistics_reply : Type :=
| Figures (s : statistics)
| Error (e : exn).

(** [get_delivery_statistics] *)
Definition get_delivery_statistics : program statistics_reply :=
  try_except
    (let! total := deliveries_count_documents (fun _ => true) in
     let! completed := deliveries_count_documents is_delivered in
     let! pending := deliveries_count_documents is_open in
     let! active :=
       drivers_count_documents
         (fun d => String.eqb (Driver.status d) "busy") in
     let! available := drivers_count_documents Driver.available in
     let! avg_result := deliveries_aggregate in
     let! avg_delivery_time :=
       match avg_result with
       | [] => ret 0%Q
       | Some a :: _ => ret a
       | None :: _ => raise TypeError      (* round(None, 2) *)
       end in
     ret (Figures
            (Statistics total completed pending active available
               (round2 avg_delivery_time)
               (if (0 <? total)%nat
                then round2 (inject_Z (Z.of_nat completed)
                             / inject_Z (Z.of_nat total) * 100)%Q
                else 0%Q))))
    (fun e => ret (Error e)).

(** *** The ledger as a state machine *)

(** The values of [models.DeliveryStatus]. *)
Definition DeliveryStatus : list string :=
  [ "pending"; "assigned"; "picked_up"; "on_the_way"; "delivered";
    "cancelled"; "failed" ].

(** The terminal ones. *)
Definition terminal : list string := [ "delivered"; "cancelled"; "failed" ].

(** A call of one of the two operations that write deliveries. *)
Inductive request : Type :=
| Create (delivery_data : DeliveryData.t) (new_id : oid) (now : Z)
| Update (delivery_id : id_text) (update_data : DeliveryUpdate.t) (now : Z).

(** The world a request leaves. *)
Definition serve (w : world) (r : request) : world :=
  match r with
  | Create delivery_data new_id now =>
      snd (create_delivery delivery_data new_id now w)
  | Update delivery_id update_data now =>
      snd (update_delivery delivery_id update_data now w)
  end.

Definition serve_all (w : world) (rs : list request) : world :=
  fold_left serve rs w.

(** The status a request asks for, if any. *)
Definition requested_status (r : request) : option string :=
  match r with
  | Create _ _ _ => None
  | Update _ update_data _ => DeliveryUpdate.status update_data
  end.

(** The stored delivery with a given identifier. *)
Definition stored (o : oid) (w : world) : option Delivery.t :=
  find_first (delivery_by_id o) (deliveries w).

(** The stored driver with a given identifier. *)
Definition stored_driver (o : oid) (w : world) : option Driver.t :=
  find_first (driver_by_id o) (drivers w).

End App.

(** ** The HTTP variant of [src/main.py]

    Python floats are idealised as real numbers: rounding is not
    modelled, and [float('inf')] is the absent bound [None].  The store
    of this variant is taken not to fail. *)

Module Api.

Record Location : Type := mkLocation {
  latitude : R;
  longitude : R }.

Record DeliveryAddress : Type := mkDeliveryAddress {
  street : string;
  city : string;
  postal_code : string;
  coordinates : Location }.

(** A document of [db.drivers]. *)
Module Driver.
Record t : Type := Build {
  _id : oid;
  name : string;
  phone : string;
  vehicle_type : string;
  current_location : Location;
  is_available : bool;
  rating : R }.

(** [{"$set": {"is_available": b}}] *)
Definition set_is_available (b : bool) (d : t) : t :=
  Build (_id d) (name d) (phone d) (vehicle_type d) (current_location d)
    b (rating d).
End Driver.

(** A delivery dictionary.  The key [_id] is there ([Some]) in a stored
    document and gone once [serialize_delivery] has run on the
    dictionary; the key [id] the other way round. *)
Module Delivery.
Record t : Type := Build {
  _id : option oid;
  id : option id_text;
  order_id : string;
  driver_id : option id_text;
  pickup_address : DeliveryAddress;
  delivery_address : DeliveryAddress;
  status : string;
  estimated_delivery_time : option Z;
  actual_pickup_time : option Z;
  actual_delivery_time : option Z;
  tracking_number : string;
  created_at : Z;
  updated_at : Z }.
End Delivery.

(** The request model [DeliveryUpdate]. *)
Module DeliveryUpdate.
Record t : Type := Build {
  delivery_id : string;
  status : string;
  location : option Location;
  estimated_time : option Z }.
End DeliveryUpdate.

(** A live connection. *)
Definition WebSocket : Type := nat.

(** A message dictionary, told apart by what [json.dumps] makes of it:
    a text, or [TypeError] for a dictionary holding a value the encoder
    refuses (a [datetime], as every delivery document does). *)
Inductive message : Type :=
| Plain (text : string)
| NotSerializable (type : string).

(** The database, the connection manager and the network. *)
Record world : Type := World {
  drivers : list Driver.t;
  deliveries : list Delivery.t;
  active_connections : list WebSocket;
  delivery_subscribers : gmap id_text (list WebSocket);
  closed : list WebSocket;              (* connections whose peer is gone *)
  wire : list (WebSocket * string) }.   (* texts delivered, oldest first *)

Definition program : Type -> Type := prog world.

Definition get : program world := fun w => (Ok w, w).
Definition put (w : world) : program unit := fun _ => (Ok tt, w).

Definition set_drivers (l : list Driver.t) : program unit :=
  let! w := get in
  put (World l (deliveries w) (active_connections w)
         (delivery_subscribers w) (closed w) (wire w)).

Definition set_deliveries (l : list Delivery.t) : program unit :=
  let! w := get in
  put (World (drivers w) l (active_connections w)
         (delivery_subscribers w) (closed w) (wire w)).

Definition set_manager (conns : list WebSocket)
    (subs : gmap id_text (list WebSocket)) : program unit :=
  let! w := get in
  put (World (drivers w) (deliveries w) conns subs (closed w) (wire w)).

(** *** [ConnectionManager] *)

(** [list.remove(x)]: the first occurrence goes. *)
Fixpoint list_remove (x : WebSocket) (l : list WebSocket) : list WebSocket :=
  match l with
  | [] => []
  | y :: r => if Nat.eqb x y then r else y :: list_remove x r
  end.

(** [x in list] *)
Definition list_in (x : WebSocket) (l : list WebSocket) : bool :=
  existsb (Nat.eqb x) l.

(** [connect], once the connection is accepted; [delivery_id] is [None]
    when the argument is omitted. *)
Definition connect (websocket : WebSocket) (delivery_id : option id_text)
  : program unit :=
  let! w := get in
  let conns := (active_connections w ++ [websocket])%list in
  match delivery_id with
  | Some k =>
      if nonempty k then
        let subs :=
          match delivery_subscribers w !! k with
          | Some _ => delivery_subscribers w
          | None => <[k := []]> (delivery_subscribers w)
          end in
        set_manager conns
          (<[k := (default [] (subs !! k) ++ [websocket])%list]> subs)
      else set_manager conns (delivery_subscribers w)
  | None => set_manager conns (delivery_subscribers w)
  end.

(** [disconnect], an ordinary (not [async]) method. *)
Definition disconnect (websocket : WebSocket) (delivery_id : option id_text)
  : program unit :=
  let! w := get in
  let conns :=
    if list_in websocket (active_connections w)
    then list_remove websocket (active_connections w)
    else active_connections w in
  match delivery_id with
  | Some k =>
      match (if nonempty k then delivery_subscribers w !! k else None) with
      | Some l =>
          if list_in websocket l
          then set_manager conns
                 (<[k := list_remove websocket l]> (delivery_subscribers w))
          else set_manager conns (delivery_subscribers w)
      | None => set_manager conns (delivery_subscribers w)
      end
  | None => set_manager conns (delivery_subscribers w)
  end.

(** [json.dumps(message)] *)
Definition json_dumps (m : message) : program string :=
  match m with
  | Plain text => ret text
  | NotSerializable _ => raise TypeError
  end.

(** [connection.send_text(text)] *)
Definition send_text (connection : WebSocket) (text : string)
  : program unit :=
  let! w := get in
  if list_in connection (closed w) then raise ConnectionClosed
  else put (World (drivers w) (deliveries w) (active_connections w)
              (delivery_subscribers w) (closed w)
              (wire w ++ [(connection, text)])%list).

(** [await x] where [x] is [None], the value [disconnect] returns:
    [TypeError], object NoneType can't be used in 'await' expression. *)
Definition await_None : program unit := raise TypeError.

(** The loop of [send_delivery_update] over the subscribers still to be
    visited.  The handler of the [try] calls [disconnect] and then awaits
    its result, which raises: no iteration follows a failed send, so the
    list the loop walks is never one the loop has changed. *)
Fixpoint send_to_each (connections : list WebSocket) (delivery_id : id_text)
    (m : message) : program unit :=
  match connections with
  | [] => ret tt
  | connection :: rest =>
      let! _ :=
        try_except
          (let! text := json_dumps m in send_text connection text)
          (fun _ =>
             let! _ := disconnect connection (Some delivery_id) in
             await_None) in
      send_to_each rest delivery_id m
  end.

(** [send_delivery_update] *)
Definition send_delivery_update (delivery_id : id_text) (m : message)
  : program unit :=
  let! w := get in
  match delivery_subscribers w !! delivery_id with
  | Some connections => send_to_each connections delivery_id m
  | None => ret tt
  end.

(** *** Matching and ETA *)

(** The straight-line distance both helpers compute:
    [((a.latitude - b.latitude) ** 2 + (a.longitude - b.longitude) ** 2)
     ** 0.5]. *)
Definition distance (a b : Location) : R :=
  sqrt ((latitude a - latitude b) ^ 2 + (longitude a - longitude b) ^ 2)%R.

(** [distance < min_distance], where [None] stands for [float('inf')]. *)
Definition below (distance : R) (min_distance : option R) : bool :=
  match min_distance with
  | None => true
  | Some m => if Rlt_dec distance m then true else false
  end.

(** The loop of [find_nearest_driver], with its two variables. *)
Fixpoint nearest_loop (pickup_location : Location) (drivers : list Driver.t)
    (min_distance : option R) (nearest_driver : option Driver.t)
  : option Driver.t :=
  match drivers with
  | [] => nearest_driver
  | driver :: rest =>
      let d := distance pickup_location (Driver.current_location driver) in
      if below d min_distance
      then nearest_loop pickup_location rest (Some d) (Some driver)
      else nearest_loop pickup_location rest min_distance nearest_driver
  end.

(** The matcher on the candidates it has fetched. *)
Definition nearest_of (pickup_location : Location) (drivers : list Driver.t)
  : option Driver.t :=
  match drivers with
  | [] => None
  | _ => nearest_loop pickup_location drivers None None
  end.

(** The candidates: [db.drivers.find({"is_available": True})
    .to_list(length=100)]. *)
Definition candidates (w : world) : list Driver.t :=
  firstn 100 (List.filter Driver.is_available (drivers w)).

(** [find_nearest_driver] *)
Definition find_nearest_driver (pickup_location : Location)
  : program (option id_text) :=
  let! w := get in
  ret (option_map (fun d => str (Driver._id d))
         (nearest_of pickup_location (candidates w))).

(** [int(x)]: truncation towards zero. *)
Definition int (x : R) : Z :=
  if Rle_dec 0 x then Int_part x else (- Int_part (- x))%Z.

(** Minutes [calculate_eta] adds to the clock. *)
Definition total_minutes (pickup_location delivery_location : Location) : Z :=
  let base_time := 20 in
  let distance := distance delivery_location pickup_location in
  let additional_time := int (distance * 100)%R in
  base_time + additional_time.

(** [calculate_eta] *)
Definition calculate_eta (pickup_location delivery_location : Location)
    (now : Z) : Z :=
  now + minutes (total_minutes pickup_location delivery_location).

(** *** Endpoints *)

Definition driver_by_id (o : oid) (d : Driver.t) : bool :=
  bool_decide (Driver._id d = o).

Definition delivery_by_id (o : oid) (d : Delivery.t) : bool :=
  bool_decide (Delivery._id d = Some o).

(** [serialize_delivery], which changes the dictionary it is given:
    [id] is set from [_id] and [_id] is deleted. *)
Definition serialize_delivery (delivery_doc : option Delivery.t)
  : program (option Delivery.t) :=
  match delivery_doc with
  | Some d =>
      match Delivery._id d with
      | Some o =>
          ret (Some (Delivery.Build None (Some (str o)) (Delivery.order_id d)
                       (Delivery.driver_id d) (Delivery.pickup_address d)
                       (Delivery.delivery_address d) (Delivery.status d)
                       (Delivery.estimated_delivery_time d)
                       (Delivery.actual_pickup_time d)
                       (Delivery.actual_delivery_time d)
                       (Delivery.tracking_number d) (Delivery.created_at d)
                       (Delivery.updated_at d)))
      | None => raise KeyError
      end
  | None => ret None
  end.

(** The message an endpoint broadcasts about a delivery dictionary: the
    dictionary carries [created_at] and [updated_at] as datetimes. *)
Definition update_message (type : string) (delivery : option Delivery.t)
  : message :=
  match delivery with
  | Some _ => NotSerializable type
  | None => Plain type
  end.

(** [create_delivery]: the request body is [delivery]; the store gives
    the new document the identifier [new_id]. *)
Definition create_delivery (delivery : Delivery.t) (new_id : oid) (now : Z)
  : program (string * option Delivery.t) :=
  try_except
    (let! driver_id :=
       find_nearest_driver
         (coordinates (Delivery.pickup_address delivery)) in
     let! assigned :=
       match driver_id with
       | Some k =>
           let! o := ObjectId k in
           let! w := get in
           let! _ := set_drivers
                       (update_first (driver_by_id o)
                          (Driver.set_is_available false) (drivers w)) in
           let eta :=
             calculate_eta
               (coordinates (Delivery.pickup_address delivery))
               (coordinates (Delivery.delivery_address delivery)) now in
           ret (Some k, "assigned", Some eta)
       | None =>
           ret (Delivery.driver_id delivery, Delivery.status delivery,
                Delivery.estimated_delivery_time delivery)
       end in
     let '(driver, status, eta) := assigned in
     let delivery_dict :=
       Delivery.Build (Some new_id) None (Delivery.order_id delivery)
         driver (Delivery.pickup_address delivery)
         (Delivery.delivery_address delivery) status eta
         (Delivery.actual_pickup_time delivery)
         (Delivery.actual_delivery_time delivery)
         (Delivery.tracking_number delivery) (Delivery.created_at delivery)
         (Delivery.updated_at delivery) in
     let! w := get in
     let! _ := set_deliveries (deliveries w ++ [delivery_dict])%list in
     (* both calls of serialize_delivery receive the same dictionary *)
     let! sent := serialize_delivery (Some delivery_dict) in
     let! _ := send_delivery_update (str new_id)
                 (update_message "delivery_created" sent) in
     let! returned := serialize_delivery sent in
     ret ("Delivery created", returned))
    (fun _ => raise (HTTPException 500)).

(** [{"$set": update_data}] of [update_delivery_status]. *)
Definition set_status (status : string) (now : Z) (d : Delivery.t)
  : Delivery.t :=
  Delivery.Build (Delivery._id d) (Delivery.id d) (Delivery.order_id d)
    (Delivery.driver_id d) (Delivery.pickup_address d)
    (Delivery.delivery_address d) status
    (Delivery.estimated_delivery_time d)
    (if String.eqb status "picked_up" then Some now
     else Delivery.actual_pickup_time d)
    (if String.eqb status "picked_up" then Delivery.actual_delivery_time d
     else if String.eqb status "delivered" then Some now
     else Delivery.actual_delivery_time d)
    (Delivery.tracking_number d) (Delivery.created_at d) now.

(** [update_delivery_status] *)
Definition update_delivery_status (delivery_id : id_text)
    (update : DeliveryUpdate.t) (now : Z)
  : program (string * option Delivery.t) :=
  try_except
    (if negb (is_valid delivery_id) then raise (HTTPException 400)
     else
       let status := DeliveryUpdate.status update in
       let! _ :=
         if String.eqb status "picked_up" then ret tt
         else if String.eqb status "delivered" then
           let! o := ObjectId delivery_id in
           let! w := get in
           match find_first (delivery_by_id o) (deliveries w) with
           | Some delivery =>
               match Delivery.driver_id delivery with
               | Some k =>
                   if nonempty k then
                     let! ko := ObjectId k in
                     set_drivers
                       (update_first (driver_by_id ko)
                          (Driver.set_is_available true) (drivers w))
                   else ret tt
               | None => ret tt
               end
           | None => ret tt
           end
         else ret tt in
       let! o := ObjectId delivery_id in
       let! w := get in
       let! _ := set_deliveries
                   (update_first (delivery_by_id o) (set_status status now)
                      (deliveries w)) in
       if (matched_count (delivery_by_id o) (deliveries w) =? 0)%nat
       then raise (HTTPException 404)
       else
         let! w := get in
         let updated_delivery :=
           find_first (delivery_by_id o) (deliveries w) in
         (* both calls of serialize_delivery receive the same dictionary *)
         let! sent := serialize_delivery updated_delivery in
         let! _ := send_delivery_update delivery_id
                     (update_message "status_update" sent) in
         let! returned := serialize_delivery sent in
         ret ("Delivery updated", returned))
    (fun e =>
       match e with
       | HTTPException c => raise (HTTPException c)
       | _ => raise (HTTPException 500)
       end).

End Api.

(** ** The read operations of [DeliveryService] *)

Module AppQueries.
Import App.

(** [cursor.skip(skip).limit(limit)] for natural numbers [skip] and
    [limit]: a limit of 0 is no limit. *)
Definition page {A} (skip limit : nat) (l : list A) : list A :=
  let rest := skipn skip l in
  match limit with
  | O => rest
  | _ => firstn limit rest
  end.

(** The dictionary [filters] of [get_deliveries]: each key present or
    absent. *)
Record filters : Type := Filters {
  by_status : option string;
  by_driver_id : option id_text }.

(** The query [get_deliveries] builds: a key of [filters] counts when its
    value is true, that is, a text that is not empty. *)
Definition status_query (f : filters) (d : Delivery.t) : bool :=
  match by_status f with
  | Some s =>
      if String.eqb s "" then true else String.eqb (Delivery.status d) s
  | None => true
  end.

Definition driver_query (o : option oid) (d : Delivery.t) : bool :=
  match o with
  | Some k => bool_decide (Delivery.driver_id d = Some k)
  | None => true
  end.

(** [get_deliveries]; the cursor is read in one call to the store. *)
Definition get_deliveries (f : filters) (skip limit : nat)
  : program (list Delivery.t) :=
  let! driver :=
    match by_driver_id f with
    | Some t =>
        if nonempty t then (let! o := ObjectId t in ret (Some o))
        else ret None
    | None => ret None
    end in
  store_call (fun w =>
    (page skip limit
       (List.filter (fun d => status_query f d && driver_query driver d)
          (deliveries w)), w)).

(** An entry of the list [get_available_drivers] returns. *)
Record driver_summary : Type := DriverSummary {
  id : id_text;
  name : string;
  phone : string;
  current_location : option subdoc;
  vehicle_info : option subdoc }.

Definition summary (d : Driver.t) : driver_summary :=
  DriverSummary (str (Driver._id d)) (Driver.name d) (Driver.phone d)
    (Driver.current_location d) (Driver.vehicle_info d).

(** [get_available_drivers] *)
Definition get_available_drivers : program (list driver_summary) :=
  store_call (fun w =>
    (map summary (List.filter Driver.available (drivers w)), w)).

(** The dictionary [driver_info] of [get_delivery_tracking]. *)
Record driver_info : Type := DriverInfo {
  info_id : id_text;
  info_name : string;
  info_phone : string;
  info_vehicle : option subdoc }.

(** The dictionary [get_delivery_tracking] returns. *)
Record tracking : Type := Tracking {
  delivery_id : id_text;
  status : string;
  current_location_of : option subdoc;
  estimated_delivery_time : option Z;
  driver : option driver_info;
  tracking_history : list tracking_event }.

(** [get_delivery_tracking] *)
Definition get_delivery_tracking (delivery_id : id_text)
  : program (option tracking) :=
  let! delivery := get_delivery delivery_id in
  match delivery with
  | None => ret None
  | Some d =>
      let! driver_info :=
        match Delivery.driver_id d with
        | Some k =>
            let! o := ObjectId (str k) in
            let! driver := drivers_find_one (driver_by_id o) in
            ret (option_map
                   (fun drv =>
                      DriverInfo (str (Driver._id drv)) (Driver.name drv)
                        (Driver.phone drv) (Driver.vehicle_info drv))
                   driver)
        | None => ret None
        end in
      ret (Some (Tracking delivery_id (Delivery.status d)
                   (Delivery.current_location d)
                   (Delivery.estimated_delivery_time d) driver_info
                   (Delivery.tracking_history d)))
  end.

End AppQueries.

(** ** [MessageHandler] with its transport *)

Module Bus.
Import App.

(** The body of an outbound event, without its [timestamp]. *)
Inductive outbound : Type :=
| delivery_created (delivery_id : id_text) (order_id : option string)
    (status : string) (estimated_delivery_time : option Z)
| delivery_cancelled (delivery_id : id_text) (order_id : option string)
    (reason : string).

(** [event_type] of an outbound event. *)
Definition event_type (e : outbound) : string :=
  match e with
  | delivery_created _ _ _ _ => "delivery_created"
  | delivery_cancelled _ _ _ => "delivery_cancelled"
  end.

(** The handler's side of the transport: whether [self.channel] is set,
    the failures the transport still has in stock (one boolean per call
    into it, as for the store) and what the broker has accepted, with
    routing key and instant, oldest first. *)
Record handler : Type := Handler {
  channel : bool;
  transport_faults : list bool;
  published : list (string * Z * outbound) }.

(** The database together with the handler. *)
Definition system : Type := world * handler.

Definition process : Type -> Type := prog system.

(** A program of [DeliveryService] run by the handler. *)
Definition service {A} (m : program A) : process A :=
  fun s => let '(r, w') := m (fst s) in (r, (w', snd s)).

(** One call into the transport.  What the transport raises is caught by
    the [except Exception] of [connect] or of [publish_event], whatever
    its class; it is written [StoreFailure]. *)
Definition transport_call {A} (op : handler -> A * handler) : process A :=
  fun s =>
    let h := snd s in
    match transport_faults h with
    | true :: fs =>
        (Raise StoreFailure, (fst s, Handler (channel h) fs (published h)))
    | false :: fs =>
        let '(a, h') := op (Handler (channel h) fs (published h)) in
        (Ok a, (fst s, h'))
    | [] => let '(a, h') := op h in (Ok a, (fst s, h'))
    end.

(** [connect]: the connection, the channel (from here on [self.channel]
    is set), the exchange, the queue and its binding. *)
Definition connect : process bool :=
  try_except
    (let! _ := transport_call (fun h => (tt, h)) in
     let! _ := transport_call
                 (fun h => (tt, Handler true (transport_faults h)
                                  (published h))) in
     let! _ := transport_call (fun h => (tt, h)) in
     let! _ := transport_call (fun h => (tt, h)) in
     let! _ := transport_call (fun h => (tt, h)) in
     ret true)
    (fun _ => ret false).

(** [self.channel.basic_publish(...)]; without a channel the attribute
    access raises (an [AttributeError], written [TypeError]: the
    [except Exception] of [publish_event] catches it whatever its
    class). *)
Definition basic_publish (routing_key : string) (now : Z) (e : outbound)
  : process unit :=
  fun s =>
    if channel (snd s) then
      transport_call
        (fun h => (tt, Handler (channel h) (transport_faults h)
                         (published h ++ [(routing_key, now, e)])%list)) s
    else (Raise TypeError, s).

(** [publish_event] *)
Definition publish_event (e : outbound) (now : Z) : process unit :=
  try_except
    (let! _ := fun s : system =>
                 if channel (snd s) then (Ok tt, s)
                 else (let! _ := connect in ret tt) s in
     basic_publish ("delivery." ++ event_type e) now e)
    (fun _ => ret tt).

(** An inbound message, told apart by its [event_type]. *)
Inductive message : Type :=
| order_confirmed (order : DeliveryData.t)
| payment_successful (order_id : option string)
| order_cancelled (order_id : option string)
| unrecognized (event_type : option string).

(** [handle_order_confirmed] *)
Definition handle_order_confirmed (order : DeliveryData.t) (new_id : oid)
    (now : Z) : process unit :=
  let! delivery := service (create_delivery order new_id now) in
  publish_event
    (delivery_created (str (Delivery._id delivery))
       (Delivery.order_id delivery) (Delivery.status delivery)
       (Delivery.estimated_delivery_time delivery)) now.

(** [handle_payment_successful] *)
Definition handle_payment_successful (order_id : option string) (now : Z)
  : process unit :=
  service (App.handle_payment_successful order_id now).

(** [handle_order_cancelled] *)
Definition handle_order_cancelled (order_id : option string) (now : Z)
  : process unit :=
  let! delivery := service (get_delivery_by_order order_id) in
  match delivery with
  | Some d =>
      let! _ := service
                  (update_delivery (str (Delivery._id d))
                     (DeliveryUpdate.only_status "cancelled") now) in
      publish_event
        (delivery_cancelled (str (Delivery._id d)) order_id
           "Order cancelled") now
  | None => ret tt
  end.

(** [handle_message]; [new_id] is the identifier [create_delivery] would
    draw. *)
Definition handle_message (m : message) (new_id : oid) (now : Z)
  : process unit :=
  try_except
    (match m with
     | order_confirmed order => handle_order_confirmed order new_id now
     | payment_successful order_id => handle_payment_successful order_id now
     | order_cancelled order_id => handle_order_cancelled order_id now
     | unrecognized _ => ret tt
     end)
    (fun _ => ret tt).

End Bus.

(** ** The read endpoints of [src/main.py] *)

Module ApiQueries.
Import Api.

(** [except HTTPException: raise], [except Exception: raise
    HTTPException(500)]. *)
Definition http_errors {A} (e : exn) : program A :=
  match e with
  | HTTPException c => raise (HTTPException c)
  | _ => raise (HTTPException 500)
  end.

(** A driver dictionary as an endpoint returns it: [id] in place of
    [_id]. *)
Record driver_out : Type := DriverOut {
  id : id_text;
  name : string;
  phone : string;
  vehicle_type : string;
  current_location : Location;
  is_available : bool;
  rating : R }.

Definition driver_reply (d : Driver.t) : driver_out :=
  DriverOut (str (Driver._id d)) (Driver.name d) (Driver.phone d)
    (Driver.vehicle_type d) (Driver.current_location d)
    (Driver.is_available d) (Driver.rating d).

(** [create_driver]: the request body is [driver], whose [id] is dropped;
    the store gives the new document the identifier [new_id]. *)
Definition create_driver (driver : Driver.t) (new_id : oid)
  : program (string * driver_out) :=
  try_except
    (let driver_dict :=
       Driver.Build new_id (Driver.name driver) (Driver.phone driver)
         (Driver.vehicle_type driver) (Driver.current_location driver)
         (Driver.is_available driver) (Driver.rating driver) in
     let! w := get in
     let! _ := set_drivers (drivers w ++ [driver_dict])%list in
     ret ("Driver created", driver_reply driver_dict))
    (fun _ => raise (HTTPException 500)).

(** [get_drivers] *)
Definition get_drivers (available_only : bool) : program (list driver_out) :=
  try_except
    (let! w := get in
     let found :=
       if available_only then List.filter Driver.is_available (drivers w)
       else drivers w in
     ret (map driver_reply (firstn 100 found)))
    (fun _ => raise (HTTPException 500)).

(** [get_delivery] *)
Definition get_delivery (delivery_id : id_text)
  : program (option Delivery.t) :=
  try_except
    (if negb (is_valid delivery_id) then raise (HTTPException 400)
     else
       let! o := ObjectId delivery_id in
       let! w := get in
       match find_first (delivery_by_id o) (deliveries w) with
       | None => raise (HTTPException 404)
       | Some delivery => serialize_delivery (Some delivery)
       end)
    http_errors.

(** [get_delivery_by_order] *)
Definition get_delivery_by_order (order_id : string)
  : program (option Delivery.t) :=
  try_except
    (let! w := get in
     match find_first
             (fun d => String.eqb (Delivery.order_id d) order_id)
             (deliveries w) with
     | None => raise (HTTPException 404)
     | Some delivery => serialize_delivery (Some delivery)
     end)
    http_errors.

(** The dictionary [driver_info] of [track_delivery]. *)
Record driver_info : Type := DriverInfo {
  info_name : string;
  info_phone : string;
  info_vehicle_type : string;
  info_current_location : Location }.

(** [track_delivery]: the serialised delivery and its key [driver]. *)
Definition track_delivery (tracking_number : string)
  : program (option Delivery.t * option driver_info) :=
  try_except
    (let! w := get in
     match find_first
             (fun d => String.eqb (Delivery.tracking_number d)
                         tracking_number)
             (deliveries w) with
     | None => raise (HTTPException 404)
     | Some delivery =>
         let! info :=
           match Delivery.driver_id delivery with
           | Some k =>
               if nonempty k then
                 let! o := ObjectId k in
                 ret (option_map
                        (fun drv =>
                           DriverInfo (Driver.name drv) (Driver.phone drv)
                             (Driver.vehicle_type drv)
                             (Driver.current_location drv))
                        (find_first (driver_by_id o) (drivers w)))
               else ret None
           | None => ret None
           end in
         let! result := serialize_delivery (Some delivery) in
         ret (result, info)
     end)
    http_errors.

(** The bounds the model [Location] declares: [ge=-90, le=90] and
    [ge=-180, le=180]. *)
Definition valid_location (l : Location) : Prop :=
  (-90 <= latitude l <= 90)%R /\ (-180 <= longitude l <= 180)%R.

End ApiQueries.

(** ** The database name of [app/database.py] *)

Module Config.

(** [s.split(sep)] for a separator of one character: the pieces between
    the occurrences of [sep], in order; never an empty list. *)
Fixpoint split (sep : ascii) (s : string) : list string :=
  match s with
  | EmptyString => [EmptyString]
  | String c rest =>
      if Ascii.eqb c sep then EmptyString :: split sep rest
      else
        match split sep rest with
        | piece :: pieces => String c piece :: pieces
        | [] => [String c EmptyString]
        end
  end.

(** [l[-1]] *)
Definition last_piece (l : list string) : string := List.last l EmptyString.

(** [l[0]] *)
Definition first_piece (l : list string) : string := List.hd EmptyString l.

(** The name [Database.connect] takes from the URL:
    [mongodb_url.split('/')[-1].split('?')[0] or "delivery_service"]. *)
Definition db_name (mongodb_url : string) : string :=
  let name :=
    first_piece (split "?"%char (last_piece (split "/"%char mongodb_url))) in
  if String.eqb name "" then "delivery_service" else name.

End Config.

(** ** Double precision *)

(** A Python [float] is a binary64 number; its sum, difference, product,
    quotient and comparisons are those of IEEE 754, which the primitive
    floats have. *)
Module Double.
Import PrimFloat FloatOps SpecFloat.
Local Open Scope float_scope.

(** The rational a finite double stands for; 0 for the others. *)
Definition exact (x : float) : Q :=
  match Prim2SF x with
  | S754_finite s m e =>
      let n := if s then Zneg m else Zpos m in
      match e with
      | Zneg k => n # (2 ^ k)
      | _ => inject_Z (n * 2 ^ e)
      end
  | _ => 0%Q
  end.

(** The double of an integer below [2 ^ 63] in magnitude: of a Python
    [int] (exact below [2 ^ 53]) or of a 64-bit integer of the store. *)
Definition of_int (z : Z) : float :=
  if (z <? 0)%Z then - of_uint63 (Uint63.of_Z (- z))
  else of_uint63 (Uint63.of_Z z).

(** [int(x)]: truncation towards zero; [ValueError] on a NaN and
    [OverflowError] on an infinity. *)
Definition int (x : float) : outcome Z :=
  match Prim2SF x with
  | S754_nan => Raise ValueError
  | S754_infinity _ => Raise OverflowError
  | _ => Ok (Z.quot (Qnum (exact x)) (Zpos (Qden (exact x))))
  end.

(** [round(x, 2)].  A NaN or an infinity rounds to itself.  Otherwise
    the result is the double nearest to the decimal with two places
    nearest to the number [x] stands for, a tie between two decimals
    going to the even one, and it keeps the sign of [x].  From [2 ^ 46]
    on the doubles are more than a hundredth apart and that double is
    [x]; below, the decimal is [k / 100] with [k] under [2 ^ 53], and the
    division of the two doubles gives the double nearest to it. *)
Definition round2 (x : float) : float :=
  if negb (is_finite x) then x
  else if 0x1p46 <=? abs x then x
  else
    let k := App.round_half_even (exact (abs x) * 100) in
    let r := of_int k / 100 in
    if get_sign x then - r else r.

(** [x == floor(x)] *)
Definition is_integer (x : float) : bool :=
  is_finite x && (Zpos (Qden (Qred (exact x))) =? 1)%Z.

(** [DOUBLE_IS_ODD_INTEGER(x)] *)
Definition is_odd_integer (x : float) : bool :=
  is_integer x && Z.odd (Qnum (Qred (exact x))).

(** What [pow] of the C library leaves in [errno]. *)
Inductive errno : Type := no_error | ERANGE | EDOM.

Section Libm.

(** [pow] of the C library: its result and the [errno] it leaves. *)
Variable pow : float -> float -> float * errno.

(** [iv ** iw] on floats ([float_pow] of the interpreter).  The special
    cases are decided before the library is called; the library gets a
    finite base that is positive and not 1 and a finite exponent that is
    not 0.  An infinite result, and any [errno] other than an underflow
    to zero, raise.  A negative base with a fractional exponent gives a
    complex number, on which the comparison and the [int()] that follow
    in the service raise [TypeError]: it is written as that exception
    here. *)
Definition float_pow (iv iw : float) : outcome float :=
  if iw =? 0 then Ok 1
  else if is_nan iv then Ok iv
  else if is_nan iw then Ok (if iv =? 1 then 1 else iw)
  else if is_infinity iw then
    let iv := abs iv in
    if iv =? 1 then Ok 1
    else if Bool.eqb (0 <? iw) (1 <? iv) then Ok (abs iw)
    else Ok 0
  else if is_infinity iv then
    let iw_is_odd := is_odd_integer iw in
    if 0 <? iw then Ok (if iw_is_odd then iv else abs iv)
    else Ok (if iw_is_odd then (if get_sign iv then -0 else 0) else 0)
  else if iv =? 0 then
    if iw <? 0 then Raise ZeroDivisionError
    else Ok (if is_odd_integer iw then iv else 0)
  else if (iv <? 0) && negb (is_integer iw) then Raise TypeError
  else
    let negate_result := (iv <? 0) && is_odd_integer iw in
    let iv := if iv <? 0 then - iv else iv in
    if iv =? 1 then Ok (if negate_result then -1 else 1)
    else
      let (ix, e) := pow iv iw in
      let e :=
        match e with
        | no_error => if is_infinity ix then ERANGE else no_error
        | ERANGE => if ix =? 0 then no_error else ERANGE
        | EDOM => EDOM
        end in
      let ix := if negate_result then - ix else ix in
      match e with
      | no_error => Ok ix
      | ERANGE => Raise OverflowError
      | EDOM => Raise ValueError
      end.

End Libm.

(** A [pow] that is correctly rounded at the exponents 2 and 0.5 and
    sets no [errno].  It stands for the library in the runs on given
    data below; in each of them the exact power is a double at every
    call, and there a library that errs by less than one unit in the
    last place returns it. *)
Definition rounded_pow (x y : float) : float * errno :=
  (if y =? 2 then x * x else if y =? 0.5 then sqrt x else nan, no_error).

End Double.

(** *** The matcher and the ETA of [src/main.py] *)

Module ApiDouble.
Import PrimFloat Double.
Local Open Scope float_scope.

Record Location : Type := mkLocation {
  latitude : float;
  longitude : float }.

(** A document of [db.drivers]. *)
Module Driver.
Record t : Type := Build {
  _id : oid;
  name : string;
  phone : string;
  vehicle_type : string;
  current_location : Location;
  is_available : bool;
  rating : float }.
End Driver.

(** The collection [db.drivers], all of the database the matcher
    reads. *)
Definition world : Type := list Driver.t.

Section Libm.
Variable pow : float -> float -> float * errno.

(** The straight-line distance both helpers compute:
    [((a.latitude - b.latitude) ** 2 + (a.longitude - b.longitude) ** 2)
     ** 0.5]. *)
Definition distance (a b : Location) : outcome float :=
  let? north := float_pow pow (latitude a - latitude b) 2 in
  let? east := float_pow pow (longitude a - longitude b) 2 in
  float_pow pow (north + east) 0.5.

(** The loop of [find_nearest_driver], with its two variables. *)
Fixpoint nearest_loop (pickup_location : Location) (drivers : list Driver.t)
    (min_distance : float) (nearest_driver : option Driver.t)
  : outcome (option Driver.t) :=
  match drivers with
  | [] => Ok nearest_driver
  | driver :: rest =>
      let? distance :=
        distance pickup_location (Driver.current_location driver) in
      if distance <? min_distance
      then nearest_loop pickup_location rest distance (Some driver)
      else nearest_loop pickup_location rest min_distance nearest_driver
  end.

(** [find_nearest_driver] *)
Definition find_nearest_driver (pickup_location : Location)
  : prog world (option id_text) :=
  fun db_drivers =>
    let drivers := firstn 100 (List.filter Driver.is_available db_drivers) in
    (match drivers with
     | [] => Ok None
     | _ =>
         let? nearest_driver :=
           nearest_loop pickup_location drivers infinity None in
         Ok (option_map (fun d => str (Driver._id d)) nearest_driver)
     end, db_drivers).

(** [calculate_eta] *)
Definition calculate_eta (pickup_location delivery_location : Location)
    (now : Z) : outcome Z :=
  let base_time := 20%Z in
  let? distance := distance delivery_location pickup_location in
  let? additional_time := int (distance * 100) in
  let total_minutes := (base_time + additional_time)%Z in
  Ok (now + minutes total_minutes)%Z.

End Libm.

End ApiDouble.

(** *** The statistics of [DeliveryService] *)

Module AppDouble.
Import PrimFloat App Double.
Local Open Scope float_scope.

Section Store.

(** [$avg] of the store over the numbers of a group, of which there is
    at least one. *)
Variable avg : list float -> float.

(** The [$project] stage: [(actual_delivery_time - created_at) / 60000],
    the difference of two dates being a 64-bit count of milliseconds and
    the quotient a double; null when [actual_delivery_time] is null. *)
Definition delivery_time_minutes (d : Delivery.t) : option float :=
  match Delivery.actual_delivery_time d with
  | Some t => Some (of_int (t - Delivery.created_at d) / 60000)
  | None => None
  end.

(** The pipeline: [$match] on delivered documents that have the key
    [actual_delivery_time] (every document has it, null or not),
    [$project], and one [$group] over what is left, whose [$avg] skips
    the nulls and is null when nothing is left; no group when nothing
    matched. *)
Definition pipeline (docs : list Delivery.t) : list (option float) :=
  match List.filter is_delivered docs with
  | [] => []
  | matched =>
      [match omap delivery_time_minutes matched with
       | [] => None
       | numbers => Some (avg numbers)
       end]
  end.

(** [deliveries_collection.aggregate(pipeline).to_list(1)] *)
Definition deliveries_aggregate : program (list (option float)) :=
  store_call (fun w => (firstn 1 (pipeline (deliveries w)), w)).

Record statistics : Type := Statistics {
  total_deliveries : nat;
  completed_deliveries : nat;
  pending_deliveries : nat;
  active_drivers : nat;
  available_drivers : nat;
  average_delivery_time_minutes : float;
  completion_rate : float }.

(** What [get_delivery_statistics] returns: the figures, or the
    dictionary [{"error": ...}]. *)
Inductive statistics_reply : Type :=
| Figures (s : statistics)
| Error (e : exn).

(** [get_delivery_statistics].  The two figures that are the integer 0
    in Python (no group, no delivery) are the double 0 here; the quotient
    of the two counts is that of their doubles, which is Python's for
    counts below [2 ^ 53]. *)
Definition get_delivery_statistics : program statistics_reply :=
  try_except
    (let! total := deliveries_count_documents (fun _ => true) in
     let! completed := deliveries_count_documents is_delivered in
     let! pending := deliveries_count_documents is_open in
     let! active :=
       drivers_count_documents
         (fun d => String.eqb (App.Driver.status d) "busy") in
     let! available := drivers_count_documents App.Driver.available in
     let! avg_result := deliveries_aggregate in
     let! avg_delivery_time :=
       match avg_result with
       | [] => ret 0
       | Some a :: _ => ret a
       | None :: _ => raise TypeError      (* round(None, 2) *)
       end in
     ret (Figures
            (Statistics total completed pending active available
               (round2 avg_delivery_time)
               (if (0 <? total)%nat
                then round2 (of_int (Z.of_nat completed)
                             / of_int (Z.of_nat total) * 100)
                else 0))))
    (fun e => ret (Error e)).

End Store.

(** The arithmetic mean, summed from the right.  It stands for [$avg]
    in the runs on given data below, whose groups hold one number, of
    which every mean is that number. *)
Definition mean (l : list float) : float :=
  fold_right add 0 l / of_int (Z.of_nat (length l)).

End AppDouble.

(** * Properties *)

Local Open Scope list_scope.

(** ** Collections *)

Section CollectionFacts.
Context {A : Type} `{EqDecision A}.
Implicit Types (p q : A -> bool) (f g : A -> A) (l : list A).

Lemma find_first_app p l l' :
  find_first p (l ++ l') =
  match find_first p l with Some x => Some x | None => find_first p l' end.
Proof.
  induction l as [|x l IH]; simpl; [reflexivity|].
  destruct (p x); [reflexivity | exact IH].
Qed.

Lemma find_first_Some p l x : find_first p l = Some x -> p x = true /\ In x l.
Proof.
  induction l as [|y l IH]; simpl; [discriminate|].
  destruct (p y) eqn:E.
  - intros [= ->]. auto.
  - intros Hx. destruct (IH Hx). auto.
Qed.

Lemma find_first_None p l x : find_first p l = None -> In x l -> p x = false.
Proof.
  induction l as [|y l IH]; simpl; [contradiction|].
  destruct (p y) eqn:E; [discriminate|].
  intros Hn [<- | Hin]; auto.
Qed.

Lemma update_first_absent p f l :
  find_first p l = None -> update_first p f l = l.
Proof.
  induction l as [|x l IH]; simpl; [reflexivity|].
  destruct (p x); [discriminate|]. intros Hn. now rewrite IH.
Qed.

Lemma update_first_app p f l l' :
  update_first p f (l ++ l') =
  match find_first p l with
  | Some _ => update_first p f l ++ l'
  | None => l ++ update_first p f l'
  end.
Proof.
  induction l as [|x l IH]; simpl; [reflexivity|].
  destruct (p x); [reflexivity|].
  rewrite IH. now destruct (find_first p l).
Qed.

Lemma find_first_update_first p f l :
  (forall x, p (f x) = p x) ->
  find_first p (update_first p f l) = option_map f (find_first p l).
Proof.
  intros Hp. induction l as [|x l IH]; simpl; [reflexivity|].
  destruct (p x) eqn:E; simpl.
  - now rewrite Hp, E.
  - now rewrite E.
Qed.

Lemma update_first_fixed p f l :
  (forall x, find_first p l = Some x -> f x = x) -> update_first p f l = l.
Proof.
  induction l as [|x l IH]; simpl; [reflexivity|].
  destruct (p x); intros Hf.
  - now rewrite Hf.
  - now rewrite IH.
Qed.

Lemma update_first_twice p f g l :
  (forall x, p (f x) = p x) ->
  update_first p g (update_first p f l) = update_first p (fun x => g (f x)) l.
Proof.
  intros Hp. induction l as [|x l IH]; simpl; [reflexivity|].
  destruct (p x) eqn:E; simpl.
  - now rewrite Hp, E.
  - now rewrite E, IH.
Qed.

Lemma update_first_Forall (P : A -> Prop) p f l :
  (forall x, P x -> P (f x)) -> Forall P l -> Forall P (update_first p f l).
Proof.
  intros Hf. induction 1 as [|x l Hx Hl IH]; simpl; [constructor|].
  destruct (p x); constructor; auto.
Qed.

Lemma update_first_ext p f g l :
  (forall x, f x = g x) -> update_first p f l = update_first p g l.
Proof.
  intros Hfg. induction l as [|x l IH]; simpl; [reflexivity|].
  destruct (p x); [now rewrite Hfg | now rewrite IH].
Qed.

Lemma update_first_length p f l : length (update_first p f l) = length l.
Proof.
  induction l as [|x l IH]; simpl; [reflexivity|].
  destruct (p x); simpl; congruence.
Qed.
End CollectionFacts.

(** ** Double precision *)

Module DoubleFacts.
Import PrimFloat FloatOps SpecFloat FloatAxioms Double.

(** The place of a double in the order of the doubles: the sign class,
    then the exponent, then the mantissa. *)
Definition key (x : spec_float) : option (Z * Z * Z) :=
  match x with
  | S754_nan => None
  | S754_infinity s => Some (if s then -2 else 2, 0, 0)
  | S754_zero _ => Some (0, 0, 0)
  | S754_finite s m e =>
      Some (if s then (-1, - e, Zneg m) else (1, e, Zpos m))
  end.

Definition lex (a b : Z * Z * Z) : comparison :=
  let '(a1, a2, a3) := a in
  let '(b1, b2, b3) := b in
  match (a1 ?= b1)%Z with
  | Eq => match (a2 ?= b2)%Z with
          | Eq => (a3 ?= b3)%Z
          | c => c
          end
  | c => c
  end.

Definition lex_lt (a b : Z * Z * Z) : Prop :=
  let '(a1, a2, a3) := a in
  let '(b1, b2, b3) := b in
  a1 < b1 \/ (a1 = b1 /\ (a2 < b2 \/ (a2 = b2 /\ a3 < b3))).

Lemma SFcompare_key x y :
  SFcompare x y =
  match key x, key y with
  | Some a, Some b => Some (lex a b)
  | _, _ => None
  end.
Proof.
  destruct x as [sx|sx| |sx mx ex], y as [sy|sy| |sy my ey]; simpl;
    try reflexivity;
    try (destruct sx; reflexivity); try (destruct sy; reflexivity);
    try (destruct sx, sy; reflexivity).
  destruct sx, sy; simpl; try reflexivity.
  rewrite Z.compare_opp, (Z.compare_antisym ex ey).
  destruct (ex ?= ey)%Z; reflexivity.
Qed.

Lemma lex_Lt a b : lex a b = Lt <-> lex_lt a b.
Proof.
  destruct a as [[a1 a2] a3], b as [[b1 b2] b3]. simpl.
  destruct (Z.compare_spec a1 b1), (Z.compare_spec a2 b2),
    (Z.compare_spec a3 b3); split; intros Hx; try discriminate;
    try reflexivity; try lia.
Qed.

Lemma lex_Eq a b : lex a b = Eq <-> a = b.
Proof.
  destruct a as [[a1 a2] a3], b as [[b1 b2] b3]. simpl.
  destruct (Z.compare_spec a1 b1), (Z.compare_spec a2 b2),
    (Z.compare_spec a3 b3); split; intros Hx; try discriminate;
    try reflexivity; try (injection Hx; lia); subst; reflexivity.
Qed.

Lemma lex_lt_trans a b c : lex_lt a b -> lex_lt b c -> lex_lt a c.
Proof.
  destruct a as [[a1 a2] a3], b as [[b1 b2] b3], c as [[c1 c2] c3].
  simpl. lia.
Qed.

Lemma lex_lt_irrefl a : ~ lex_lt a a.
Proof. destruct a as [[a1 a2] a3]. simpl. lia. Qed.

Lemma ltb_key x y :
  (x <? y)%float = true <->
  exists a b, key (Prim2SF x) = Some a /\ key (Prim2SF y) = Some b /\
              lex_lt a b.
Proof.
  rewrite ltb_spec. unfold SFltb. rewrite SFcompare_key.
  destruct (key (Prim2SF x)) as [a|], (key (Prim2SF y)) as [b|];
    try (split; [discriminate | intros (? & ? & ? & ? & _); discriminate]).
  split.
  - intros H. exists a, b. repeat split. apply lex_Lt.
    destruct (lex a b); try discriminate; reflexivity.
  - intros (a' & b' & [= <-] & [= <-] & H). apply lex_Lt in H. now rewrite H.
Qed.

Lemma leb_key x y :
  (x <=? y)%float = true <->
  exists a b, key (Prim2SF x) = Some a /\ key (Prim2SF y) = Some b /\
              (lex_lt a b \/ a = b).
Proof.
  rewrite leb_spec. unfold SFleb. rewrite SFcompare_key.
  destruct (key (Prim2SF x)) as [a|], (key (Prim2SF y)) as [b|];
    try (split; [discriminate | intros (? & ? & ? & ? & _); discriminate]).
  split.
  - intros H. exists a, b. repeat split.
    destruct (lex a b) eqn:E; try discriminate.
    + right. now apply lex_Eq.
    + left. now apply lex_Lt.
  - intros (a' & b' & [= <-] & [= <-] & [H|H]).
    + apply lex_Lt in H. now rewrite H.
    + apply lex_Eq in H. now rewrite H.
Qed.

(** [a <= b < c] gives [a < c]. *)
Lemma leb_ltb_trans a b c :
  (a <=? b)%float = true -> (b <? c)%float = true -> (a <? c)%float = true.
Proof.
  intros H1 H2. apply leb_key in H1. apply ltb_key in H2.
  destruct H1 as (ka & kb & Ha & Hb & H1).
  destruct H2 as (kb' & kc & Hb' & Hc & H2).
  rewrite Hb in Hb'. injection Hb' as <-.
  apply ltb_key. exists ka, kc. repeat split; try assumption.
  destruct H1 as [H1 | ->]; [eapply lex_lt_trans; eassumption | assumption].
Qed.

Lemma ltb_leb a b : (a <? b)%float = true -> (a <=? b)%float = true.
Proof.
  intros H. apply ltb_key in H. destruct H as (ka & kb & Ha & Hb & H).
  apply leb_key. exists ka, kb. auto.
Qed.

Lemma ltb_not_leb a b : (a <? b)%float = true -> (b <=? a)%float = false.
Proof.
  intros H. destruct (b <=? a)%float eqn:E; [|reflexivity].
  apply ltb_key in H. destruct H as (ka & kb & Ha & Hb & H).
  apply leb_key in E. destruct E as (kb' & ka' & Hb' & Ha' & E).
  rewrite Ha in Ha'. rewrite Hb in Hb'.
  injection Ha' as <-. injection Hb' as <-.
  exfalso. destruct E as [E | ->].
  - apply (lex_lt_irrefl ka). eapply lex_lt_trans; eassumption.
  - now apply lex_lt_irrefl in H.
Qed.

Lemma is_finite_spec x :
  is_finite x =
  match Prim2SF x with
  | S754_nan | S754_infinity _ => false
  | _ => true
  end.
Proof.
  unfold is_finite, is_nan, is_infinity.
  rewrite !eqb_spec, abs_spec.
  change (Prim2SF infinity) with (S754_infinity false).
  unfold SFeqb. rewrite !SFcompare_key.
  destruct (Prim2SF x) as [s|s| |s m e]; simpl; try reflexivity.
  - destruct s; reflexivity.
  - destruct s; simpl; rewrite !Z.compare_refl, ?Pos.compare_refl;
      reflexivity.
Qed.

Lemma finite_cases x :
  is_finite x = true ->
  (exists s, Prim2SF x = S754_zero s) \/
  (exists s m e, Prim2SF x = S754_finite s m e).
Proof.
  rewrite is_finite_spec.
  destruct (Prim2SF x) as [s|s| |s m e]; intros H; try discriminate.
  - left. now exists s.
  - right. now exists s, m, e.
Qed.

(** [x - x] is [0.0] when [x] is finite. *)
Lemma sub_diag x : is_finite x = true -> (x - x)%float = 0%float.
Proof.
  intros H. apply Prim2SF_inj. rewrite sub_spec.
  change (Prim2SF 0) with (S754_zero false).
  destruct (finite_cases x H) as [[s ->] | (s & m & e & ->)].
  - destruct s; reflexivity.
  - unfold SF64sub, SFsub. rewrite Z.min_id. unfold shl_align.
    rewrite Z.sub_diag. cbn [fst].
    replace (cond_Zopp s (Z.pos m) + cond_Zopp (negb s) (Z.pos m))
      with 0 by (destruct s; cbn [cond_Zopp negb]; lia).
    reflexivity.
Qed.

Lemma int_returns x : is_finite x = true -> exists k, int x = Ok k.
Proof.
  intros H. unfold int.
  destruct (finite_cases x H) as [[s E] | (s & m & e & E)]; rewrite E;
    eexists; reflexivity.
Qed.

Lemma int_finite x k : int x = Ok k -> is_finite x = true.
Proof.
  unfold int. rewrite is_finite_spec.
  destruct (Prim2SF x) as [s|s| |s m e]; try discriminate; reflexivity.
Qed.

(** [int] truncates the number the double stands for. *)
Lemma int_truncates x k :
  int x = Ok k ->
  ((0 <= exact x)%Q -> (inject_Z k <= exact x)%Q /\
                       (exact x < inject_Z k + 1)%Q) /\
  ((exact x <= 0)%Q -> (inject_Z k - 1 < exact x)%Q /\
                       (exact x <= inject_Z k)%Q).
Proof.
  intros H.
  assert (Hk : k = Z.quot (Qnum (exact x)) (Zpos (Qden (exact x)))).
  { unfold int in H. destruct (Prim2SF x); congruence. }
  clear H. destruct (exact x) as [n d]. simpl in Hk. subst k.
  unfold Qle, Qlt. simpl. rewrite !Z.mul_1_r.
  destruct (Z.eq_dec n 0) as [->|Hne].
  { rewrite Z.quot_0_l by lia. simpl. lia. }
  pose proof (Z.quot_rem' n (Z.pos d)) as E.
  pose proof (Z.rem_bound_pos n (Z.pos d)) as P.
  pose proof (Z.rem_bound_pos_neg n (Z.pos d)) as B.
  generalize dependent (Z.rem n (Z.pos d)).
  generalize dependent (Z.quot n (Z.pos d)).
  intros q r E P B. split; intros Hn.
  - specialize (P Hn ltac:(lia)). nia.
  - specialize (B ltac:(lia) ltac:(lia)). nia.
Qed.

Lemma inject_Z_lt_succ j k : (inject_Z j - 1 < inject_Z k)%Q -> j <= k.
Proof. unfold Qlt, Qminus, Qplus. simpl. lia. Qed.

(** [int] does not decrease when the number the double stands for
    grows. *)
Lemma int_does_not_decrease x y j k :
  int x = Ok j -> int y = Ok k -> (exact x <= exact y)%Q -> j <= k.
Proof.
  intros Hx Hy Hle.
  destruct (int_truncates x j Hx) as [Px Nx].
  destruct (int_truncates y k Hy) as [Py Ny].
  destruct (Qlt_le_dec (exact x) 0) as [La|La];
    destruct (Qlt_le_dec (exact y) 0) as [Lb|Lb].
  - destruct (Nx (Qlt_le_weak _ _ La)) as [A _].
    destruct (Ny (Qlt_le_weak _ _ Lb)) as [_ B].
    apply inject_Z_lt_succ. Lqa.lra.
  - destruct (Nx (Qlt_le_weak _ _ La)) as [A _].
    destruct (Py Lb) as [_ D].
    assert (J : j <= 0)
      by (apply inject_Z_lt_succ; change (inject_Z 0) with 0%Q; Lqa.lra).
    assert (K : 0 <= k)
      by (apply inject_Z_lt_succ; change (inject_Z 0) with 0%Q; Lqa.lra).
    lia.
  - exfalso. Lqa.lra.
  - destruct (Px La) as [A _]. destruct (Py Lb) as [_ B].
    apply inject_Z_lt_succ. Lqa.lra.
Qed.

(** [round_half_even] goes to a nearest integer, and to the even one
    of two. *)
Lemma round_half_even_nearest q :
  (Qabs (q - inject_Z (App.round_half_even q)) <= 1 # 2)%Q /\
  ((Qabs (q - inject_Z (App.round_half_even q)) == 1 # 2)%Q ->
   Z.even (App.round_half_even q) = true).
Proof.
  unfold App.round_half_even.
  pose proof (Qfloor_le q) as Hlo. pose proof (Qlt_floor q) as Hhi.
  set (n := Qfloor q) in *.
  assert (Hn1 : (inject_Z (n + 1) == inject_Z n + 1)%Q)
    by (rewrite inject_Z_plus; reflexivity).
  rewrite Hn1 in Hhi.
  destruct (Qcompare (q - inject_Z n) (1 # 2)) eqn:C.
  - apply Qeq_alt in C.
    destruct (Z.even n) eqn:Ev.
    + split; [|intros _; exact Ev].
      rewrite Qabs_pos by Lqa.lra. Lqa.lra.
    + split.
      * rewrite Hn1. rewrite Qabs_neg by Lqa.lra. Lqa.lra.
      * intros _. rewrite Z.add_1_r, Z.even_succ, <- Z.negb_even, Ev.
        reflexivity.
  - apply Qlt_alt in C. split.
    + rewrite Qabs_pos by Lqa.lra. Lqa.lra.
    + rewrite Qabs_pos by Lqa.lra. intros E. exfalso. Lqa.lra.
  - apply Qgt_alt in C. split.
    + rewrite Hn1. rewrite Qabs_neg by Lqa.lra. Lqa.lra.
    + rewrite Hn1. rewrite Qabs_neg by Lqa.lra. intros E. exfalso. Lqa.lra.
Qed.

(** What [round2] returns: the double itself when it is not finite or
    is [2 ^ 46] or more in magnitude; otherwise, with the sign of the
    double, the quotient by 100 of an integer nearest to a hundred times
    its magnitude, the even one of two. *)
Lemma round2_cases x :
  (is_finite x = false -> round2 x = x) /\
  (is_finite x = true -> (0x1p46 <=? abs x)%float = true -> round2 x = x) /\
  (is_finite x = true -> (0x1p46 <=? abs x)%float = false ->
   exists k : Z,
     round2 x = (if get_sign x then - (of_int k / 100) else of_int k / 100)
                  %float /\
     (Qabs (exact (abs x) * 100 - inject_Z k) <= 1 # 2)%Q /\
     ((Qabs (exact (abs x) * 100 - inject_Z k) == 1 # 2)%Q ->
      Z.even k = true)).
Proof.
  unfold round2. split; [|split].
  - now intros ->.
  - now intros -> ->.
  - intros -> ->. cbn [negb].
    exists (App.round_half_even (exact (abs x) * 100)).
    split; [reflexivity|]. apply round_half_even_nearest.
Qed.

End DoubleFacts.

(** ** Rounding in double precision *)

Module RoundingFacts.
Import PrimFloat FloatOps SpecFloat FloatAxioms Double DoubleFacts.
Local Open Scope Z_scope.

(** *** Digits *)

Lemma digits2_pos_bounds (n : positive) :
  2 ^ (Zpos (digits2_pos n) - 1) <= Zpos n < 2 ^ Zpos (digits2_pos n).
Proof.
  induction n as [n IH|n IH|]; cbn [digits2_pos].
  - rewrite Pos2Z.inj_succ, Pos2Z.inj_xI.
    replace (Z.succ (Zpos (digits2_pos n)) - 1)
      with (Z.succ (Zpos (digits2_pos n) - 1)) by lia.
    rewrite !Z.pow_succ_r by lia.
    generalize dependent (2 ^ (Zpos (digits2_pos n) - 1)).
    generalize dependent (2 ^ Zpos (digits2_pos n)). intros; lia.
  - rewrite Pos2Z.inj_succ, (Pos2Z.inj_xO n).
    replace (Z.succ (Zpos (digits2_pos n)) - 1)
      with (Z.succ (Zpos (digits2_pos n) - 1)) by lia.
    rewrite !Z.pow_succ_r by lia.
    generalize dependent (2 ^ (Zpos (digits2_pos n) - 1)).
    generalize dependent (2 ^ Zpos (digits2_pos n)). intros; lia.
  - simpl. lia.
Qed.

Lemma digits2_pos_unique (n : positive) (k : Z) :
  2 ^ (k - 1) <= Zpos n < 2 ^ k -> Zpos (digits2_pos n) = k.
Proof.
  intros [Hlo Hhi]. pose proof (digits2_pos_bounds n) as [Blo Bhi].
  assert (Hk : 0 < k).
  { destruct (Z.lt_ge_cases 0 k) as [|Hk]; [assumption|].
    exfalso. destruct (Z.eq_dec k 0) as [->|Hne].
    - simpl in Hhi. lia.
    - rewrite Z.pow_neg_r in Hhi by lia. lia. }
  set (d := Zpos (digits2_pos n)) in *.
  destruct (Z.lt_trichotomy d k) as [H|[H|H]]; [|assumption|]; exfalso.
  - assert (2 ^ d <= 2 ^ (k - 1)) by (apply Z.pow_le_mono_r; lia). lia.
  - assert (2 ^ k <= 2 ^ (d - 1)) by (apply Z.pow_le_mono_r; lia). lia.
Qed.

(** *** Shifting *)

Lemma iter_pos_nat {A} (f : A -> A) (p : positive) (x : A) :
  iter_pos f p x = Nat.iter (Pos.to_nat p) f x.
Proof.
  revert x. induction p as [p IH|p IH|]; intros x; cbn [iter_pos].
  - rewrite !IH, Pos2Nat.inj_xI.
    replace (S (2 * Pos.to_nat p)) with (Pos.to_nat p + S (Pos.to_nat p))%nat
      by lia.
    rewrite Nat.iter_add. f_equal. now rewrite Nat.iter_succ_r.
  - rewrite !IH, Pos2Nat.inj_xO.
    replace (2 * Pos.to_nat p)%nat with (Pos.to_nat p + Pos.to_nat p)%nat
      by lia.
    now rewrite Nat.iter_add.
  - reflexivity.
Qed.

Lemma shr_1_nonneg m r s :
  0 <= m ->
  shr_1 (Build_shr_record m r s) =
  Build_shr_record (m / 2) (Z.odd m) (r || s).
Proof.
  intros Hm. rewrite <- Z.div2_div.
  destruct m as [|p|p]; [reflexivity| |lia].
  destruct p; reflexivity.
Qed.

(** What [k] shifts make of a mantissa that has no bits below it. *)
Definition shifted (n : Z) (k : nat) : shr_record :=
  match k with
  | O => Build_shr_record n false false
  | S j =>
      Build_shr_record (n / 2 ^ Z.of_nat k) (Z.testbit n (Z.of_nat j))
        (negb (n mod 2 ^ Z.of_nat j =? 0))
  end.

Lemma mod_pow2_succ n j :
  0 <= j ->
  n mod 2 ^ (j + 1) =
  (if Z.testbit n j then 2 ^ j else 0) + n mod 2 ^ j.
Proof.
  intros Hj.
  assert (Hp : 0 < 2 ^ j) by (apply Z.pow_pos_nonneg; lia).
  rewrite Z.pow_add_r by lia. change (2 ^ 1) with 2.
  rewrite Z.rem_mul_r by lia.
  destruct (Z.testbit n j) eqn:T.
  - apply Z.testbit_true in T; [|assumption]. rewrite T. lia.
  - apply Z.testbit_false in T; [|assumption]. rewrite T. lia.
Qed.

Lemma shifted_correct n k :
  0 <= n ->
  Nat.iter k shr_1 (Build_shr_record n false false) = shifted n k.
Proof.
  intros Hn. induction k as [|k IH]; [reflexivity|].
  rewrite Nat.iter_succ, IH. destruct k as [|j].
  - cbn [shifted]. rewrite shr_1_nonneg by assumption.
    change (2 ^ Z.of_nat 1) with 2. change (Z.of_nat 0) with 0.
    rewrite Z.bit0_odd. f_equal.
    change (2 ^ 0) with 1. now rewrite Z.mod_1_r.
  - cbn [shifted].
    rewrite shr_1_nonneg by (apply Z.div_pos; lia).
    f_equal.
    + rewrite Z.div_div by lia. f_equal.
      rewrite (Nat2Z.inj_succ (S j)), Z.pow_succ_r by lia. lia.
    + rewrite Z.testbit_odd, Z.shiftr_div_pow2 by lia. reflexivity.
    + rewrite (Nat2Z.inj_succ j), <- Z.add_1_r.
      rewrite (mod_pow2_succ n (Z.of_nat j)) by lia.
      pose proof (Z.mod_pos_bound n (2 ^ Z.of_nat j) ltac:(lia)).
      destruct (Z.testbit n (Z.of_nat j)); simpl.
      * symmetry. apply negb_true_iff, Z.eqb_neq.
        assert (0 < 2 ^ Z.of_nat j) by lia. lia.
      * reflexivity.
Qed.


(** *** Rounding *)

Lemma round_half_even_frac (n : Z) (d : positive) :
  App.round_half_even (n # d) =
  match (2 * (n mod Zpos d) ?= Zpos d)%Z with
  | Lt => n / Zpos d
  | Eq => if Z.even (n / Zpos d) then n / Zpos d else n / Zpos d + 1
  | Gt => n / Zpos d + 1
  end.
Proof.
  unfold App.round_half_even. cbn [Qfloor].
  replace (Qcompare ((n # d) - inject_Z (n / Zpos d)) (1 # 2))
    with (2 * (n mod Zpos d) ?= Zpos d); [reflexivity|].
  unfold Qcompare, Qminus, Qplus, Qopp, inject_Z. cbn [Qnum Qden].
  rewrite Z.mod_eq by lia.
  rewrite Pos.mul_1_r, Z.mul_1_l, Z.mul_1_r.
  f_equal. lia.
Qed.

Definition den (k : nat) : positive := Z.to_pos (2 ^ Z.of_nat k).

Lemma den_pow k : Zpos (den k) = 2 ^ Z.of_nat k.
Proof.
  unfold den. rewrite Z2Pos.id; [reflexivity|].
  apply Z.pow_pos_nonneg; lia.
Qed.

(** Shifting [k] times and rounding to nearest even is rounding the
    quotient by [2 ^ k]. *)
Lemma round_shifted n k :
  0 <= n ->
  round_nearest_even (shr_m (shifted n k)) (loc_of_shr_record (shifted n k))
  = App.round_half_even (n # den k).
Proof.
  intros Hn. rewrite round_half_even_frac, den_pow.
  destruct k as [|j].
  - change (2 ^ Z.of_nat 0) with 1. rewrite Z.mod_1_r, Z.div_1_r.
    reflexivity.
  - cbn [shifted shr_m].
    rewrite (Nat2Z.inj_succ j), <- Z.add_1_r.
    rewrite (mod_pow2_succ n (Z.of_nat j)) by lia.
    assert (Hp : 0 < 2 ^ Z.of_nat j) by (apply Z.pow_pos_nonneg; lia).
    pose proof (Z.mod_pos_bound n (2 ^ Z.of_nat j) Hp) as Hb.
    rewrite (Z.pow_add_r 2 (Z.of_nat j) 1) by lia. change (2 ^ 1) with 2.
    set (m := n / (2 ^ Z.of_nat j * 2)).
    set (r := n mod 2 ^ Z.of_nat j) in *.
    set (P := 2 ^ Z.of_nat j) in *.
    destruct (Z.testbit n (Z.of_nat j)).
    + destruct (Z.eqb_spec r 0) as [E|E]; cbn [negb loc_of_shr_record
        round_nearest_even].
      * replace (2 * (P + r) ?= P * 2) with Eq; [reflexivity|].
        symmetry. apply Z.compare_eq_iff. lia.
      * replace (2 * (P + r) ?= P * 2) with Gt; [reflexivity|].
        symmetry. apply Z.compare_gt_iff. lia.
    + replace (2 * (0 + r) ?= P * 2) with Lt.
      2:{ symmetry. apply Z.compare_lt_iff. lia. }
      destruct (r =? 0); reflexivity.
Qed.


(** *** The rounding of a product *)

Lemma shr_fexp_shifted (n : positive) (e : Z) :
  let p := (fexp prec emax) (Zdigits2 (Zpos n) + e) - e in
  0 <= p ->
  shr_fexp prec emax (Zpos n) e loc_Exact =
  (shifted (Zpos n) (Z.to_nat p), e + p).
Proof.
  intros p Hp. unfold shr_fexp. fold p. cbn [shr_record_of_loc].
  unfold shr. destruct p as [|q|q]; [| |lia].
  - now rewrite Z.add_0_r.
  - rewrite iter_pos_nat, shifted_correct by lia. reflexivity.
Qed.

(** The scaled value of a double: [2 ^ 1120] times what it stands for,
    an integer for every exponent from [-1120] on. *)
Definition scaled (x : spec_float) : Z :=
  match x with
  | S754_finite s m e => (if s then Zneg m else Zpos m) * 2 ^ (e + 1120)
  | _ => 0
  end.

Definition signed (s : bool) (z : Z) : Z := if s then - z else z.

Lemma fexp_ge_emin d : (emin prec emax) <= (fexp prec emax) d.
Proof. unfold fexp. lia. Qed.

Lemma round_half_even_nonneg n d : 0 <= n -> 0 <= App.round_half_even (n # d).
Proof.
  intros Hn. rewrite round_half_even_frac.
  assert (0 <= n / Zpos d) by (apply Z.div_pos; lia).
  destruct (2 * (n mod Z.pos d) ?= Z.pos d); [|lia|lia].
  destruct (Z.even _); lia.
Qed.

Lemma round_half_even_le_succ n d :
  App.round_half_even (n # d) <= n / Zpos d + 1.
Proof.
  rewrite round_half_even_frac.
  destruct (2 * (n mod Z.pos d) ?= Z.pos d); [|lia|lia].
  destruct (Z.even _); lia.
Qed.

(** The result of rounding the mantissa [n] at exponent [e]: an
    infinity, or the double of scaled value
    [round (n / 2 ^ p) * 2 ^ (e + p)], where [e + p] is the exponent the
    format gives a number of this size. *)
Lemma binary_round_aux_scaled (sx : bool) (n : positive) (e : Z) :
  let t := (fexp prec emax) (Zdigits2 (Zpos n) + e) in
  e <= t ->
  let r := binary_round_aux prec emax sx (Zpos n) e loc_Exact in
  r = S754_infinity sx \/
  ((r = S754_zero sx \/ exists m e', r = S754_finite sx m e') /\
   scaled r =
   signed sx (App.round_half_even (Zpos n # den (Z.to_nat (t - e)))
              * 2 ^ (t + 1120))).
Proof.
  intros t Ht r. unfold r, binary_round_aux.
  rewrite shr_fexp_shifted by (fold t; lia). fold t.
  rewrite round_shifted by lia.
  replace (e + (t - e)) with t by lia.
  set (k := Z.to_nat (t - e)).
  set (m2 := App.round_half_even (Zpos n # den k)).
  assert (Hm2 : 0 <= m2) by (apply round_half_even_nonneg; lia).
  assert (Hemin : (emin prec emax) <= t) by apply fexp_ge_emin.
  assert (Hm2' : m2 <= 2 ^ 53).
  { pose proof (round_half_even_le_succ (Zpos n) (den k)) as H.
    fold m2 in H. rewrite den_pow in H.
    assert (Zpos n / 2 ^ Z.of_nat k < 2 ^ 53); [|lia].
    apply Z.div_lt_upper_bound; [apply Z.pow_pos_nonneg; lia|].
    rewrite <- Z.pow_add_r by lia.
    pose proof (digits2_pos_bounds n) as [_ Hd].
    eapply Z.lt_le_trans; [exact Hd|].
    apply Z.pow_le_mono_r; [lia|].
    unfold k. rewrite Z2Nat.id by lia.
    unfold t, fexp. cbn [Zdigits2]. unfold prec. lia. }
  destruct m2 as [|m|m] eqn:Em2; [| |lia].
  - (* the mantissa rounds to 0 *)
    unfold shr_fexp. cbn [Zdigits2 shr_record_of_loc]. unfold shr.
    assert (Hp : (fexp prec emax) (0 + t) - t <= 0).
    { unfold fexp. unfold emin in Hemin |- *. unfold prec in *. lia. }
    destruct ((fexp prec emax) (0 + t) - t) as [|q|q] eqn:Eq; [| lia |];
      cbn [shr_m]; right; (split; [now left|]); cbn [scaled signed];
      destruct sx; reflexivity.
  - destruct (Z.eq_dec (Zpos m) (2 ^ 53)) as [E53|N53].
    + (* the mantissa rounds up to [2 ^ 53] *)
      assert (Em : m = 9007199254740992%positive)
        by (apply Pos2Z.inj; rewrite E53; reflexivity).
      subst m. unfold shr_fexp.
      assert (Hd : Zdigits2 (Zpos 9007199254740992) = 54) by reflexivity.
      rewrite Hd. cbn [shr_record_of_loc].
      assert (Hq : (fexp prec emax) (54 + t) - t = 1).
      { unfold fexp. unfold emin in Hemin |- *. unfold prec in *. lia. }
      rewrite Hq. cbn [shr iter_pos shr_1 shr_m].
      destruct (t + 1 <=? emax - prec); [right|now left].
      split; [right; eauto|]. cbn [scaled].
      replace (t + 1 + 1120) with (Z.succ (t + 1120)) by lia.
      rewrite Z.pow_succ_r by (unfold emin, emax, prec in *; lia).
      destruct sx; cbn [signed]; lia.
    + assert (Hd : Zdigits2 (Zpos m) <= 53).
      { cbn [Zdigits2]. pose proof (digits2_pos_bounds m) as [Hlo _].
        destruct (Z.le_gt_cases (Zpos (digits2_pos m)) 53) as [|Hgt];
          [assumption|]. exfalso.
        assert (2 ^ 53 <= 2 ^ (Zpos (digits2_pos m) - 1))
          by (apply Z.pow_le_mono_r; lia).
        lia. }
      unfold shr_fexp. cbn [shr_record_of_loc]. unfold shr.
      assert (Hp : (fexp prec emax) (Zdigits2 (Zpos m) + t) - t <= 0).
      { unfold fexp. unfold emin in Hemin |- *. unfold prec in *. lia. }
      destruct ((fexp prec emax) (Zdigits2 (Zpos m) + t) - t) as [|q|q] eqn:Eq;
        [| lia |]; cbn [shr_m];
        (destruct (t <=? emax - prec); [right|now left]);
        (split; [right; eauto|]); cbn [scaled signed];
        destruct sx; cbn [signed]; lia.
Qed.


(** *** Rounding does not decrease *)

Lemma round_half_even_comp q1 q2 :
  (q1 == q2)%Q -> App.round_half_even q1 = App.round_half_even q2.
Proof.
  intros E. unfold App.round_half_even.
  rewrite (Qfloor_comp _ _ E).
  assert (C : Qcompare (q1 - inject_Z (Qfloor q2)) (1 # 2) =
              Qcompare (q2 - inject_Z (Qfloor q2)) (1 # 2)).
  { apply Qcompare_comp; [|reflexivity]. now rewrite E. }
  now rewrite C.
Qed.

Lemma round_half_even_monotone q1 q2 :
  (q1 <= q2)%Q -> App.round_half_even q1 <= App.round_half_even q2.
Proof.
  intros Hle.
  destruct (Z.le_gt_cases (App.round_half_even q1) (App.round_half_even q2))
    as [|Hgt]; [assumption|].
  destruct (round_half_even_nearest q1) as [N1 _].
  destruct (round_half_even_nearest q2) as [N2 _].
  apply Qabs_Qle_condition in N1. apply Qabs_Qle_condition in N2.
  assert (Hk : (inject_Z (App.round_half_even q2) + 1
                <= inject_Z (App.round_half_even q1))%Q).
  { rewrite <- (inject_Z_plus _ 1), <- Zle_Qle. lia. }
  assert (E : (q1 == q2)%Q) by (apply Qle_antisym; Lqa.lra).
  rewrite (round_half_even_comp _ _ E) in Hgt. lia.
Qed.

Lemma round_half_even_int (z : Z) : App.round_half_even (z # 1) = z.
Proof.
  rewrite round_half_even_frac, Z.mod_1_r, Z.div_1_r. reflexivity.
Qed.

Lemma round_half_even_le_int n d z :
  n <= z * Zpos d -> App.round_half_even (n # d) <= z.
Proof.
  intros H. rewrite <- (round_half_even_int z).
  apply round_half_even_monotone. unfold Qle. cbn [Qnum Qden]. lia.
Qed.

Lemma round_half_even_ge_int n d z :
  z * Zpos d <= n -> z <= App.round_half_even (n # d).
Proof.
  intros H. rewrite <- (round_half_even_int z) at 1.
  apply round_half_even_monotone. unfold Qle. cbn [Qnum Qden]. lia.
Qed.


Lemma pow2_pos a : 0 <= a -> 0 < 2 ^ a.
Proof. intros. apply Z.pow_pos_nonneg; lia. Qed.

Lemma pow2_le a b : a <= b -> 2 ^ a <= 2 ^ b.
Proof. intros. apply Z.pow_le_mono_r; lia. Qed.

(** Rounding the mantissas of two numbers, each at the exponent the
    format gives it, keeps their order. *)
Lemma round_scaled_monotone (n1 n2 : positive) (e1 e2 : Z) :
  let t1 := fexp prec emax (Zdigits2 (Zpos n1) + e1) in
  let t2 := fexp prec emax (Zdigits2 (Zpos n2) + e2) in
  -1120 <= e1 -> -1120 <= e2 -> e1 <= t1 -> e2 <= t2 ->
  Zpos n1 * 2 ^ (e1 + 1120) <= Zpos n2 * 2 ^ (e2 + 1120) ->
  App.round_half_even (Zpos n1 # den (Z.to_nat (t1 - e1))) * 2 ^ (t1 + 1120) <=
  App.round_half_even (Zpos n2 # den (Z.to_nat (t2 - e2))) * 2 ^ (t2 + 1120).
Proof.
  intros t1 t2 He1 He2 Ht1 Ht2 Hle.
  pose proof (digits2_pos_bounds n1) as [Lo1 Hi1].
  pose proof (digits2_pos_bounds n2) as [Lo2 Hi2].
  cbn [Zdigits2] in t1, t2.
  set (d1 := Zpos (digits2_pos n1)) in *.
  set (d2 := Zpos (digits2_pos n2)) in *.
  assert (Hd1 : 1 <= d1) by (unfold d1; lia).
  assert (Hd2 : 1 <= d2) by (unfold d2; lia).
  (* the sizes of the two numbers *)
  assert (V1lo : 2 ^ (d1 + e1 - 1 + 1120) <= Zpos n1 * 2 ^ (e1 + 1120)).
  { replace (d1 + e1 - 1 + 1120) with ((d1 - 1) + (e1 + 1120)) by lia.
    rewrite (Z.pow_add_r 2 (d1 - 1) (e1 + 1120)) by lia.
    apply Z.mul_le_mono_nonneg_r; [|assumption].
    apply Z.lt_le_incl, pow2_pos. lia. }
  assert (V2hi : Zpos n2 * 2 ^ (e2 + 1120) < 2 ^ (d2 + e2 + 1120)).
  { replace (d2 + e2 + 1120) with (d2 + (e2 + 1120)) by lia.
    rewrite (Z.pow_add_r 2 d2 (e2 + 1120)) by lia.
    apply Z.mul_lt_mono_pos_r; [|assumption]. apply pow2_pos. lia. }
  assert (HL : d1 + e1 <= d2 + e2).
  { assert (H : 2 ^ (d1 + e1 - 1 + 1120) < 2 ^ (d2 + e2 + 1120)) by lia.
    apply Z.pow_lt_mono_r_iff in H; lia. }
  assert (Ht : t1 <= t2) by (unfold t1, t2, fexp; lia).
  assert (Hmin1 : emin prec emax <= t1) by apply fexp_ge_emin.
  set (p1 := t1 - e1) in *. set (p2 := t2 - e2) in *.
  assert (Hden1 : Zpos (den (Z.to_nat p1)) = 2 ^ p1)
    by (rewrite den_pow, Z2Nat.id by lia; reflexivity).
  assert (Hden2 : Zpos (den (Z.to_nat p2)) = 2 ^ p2)
    by (rewrite den_pow, Z2Nat.id by lia; reflexivity).
  destruct (Z.eq_dec t1 t2) as [Et|Nt].
  - (* the same exponent: the quotients are in order *)
    rewrite <- Et.
    apply Z.mul_le_mono_nonneg_r; [apply Z.lt_le_incl, pow2_pos; lia|].
    apply round_half_even_monotone.
    unfold Qle. cbn [Qnum Qden]. rewrite Hden1, Hden2.
    assert (P : 0 < 2 ^ (t1 + 1120)) by (apply pow2_pos; lia).
    apply (Z.mul_le_mono_pos_r _ _ _ P).
    assert (E1 : 2 ^ (t1 + 1120) = 2 ^ (e1 + 1120) * 2 ^ p1).
    { rewrite <- Z.pow_add_r by lia. f_equal. lia. }
    assert (E2 : 2 ^ (t1 + 1120) = 2 ^ (e2 + 1120) * 2 ^ p2).
    { rewrite <- Z.pow_add_r by lia. f_equal. lia. }
    transitivity (Zpos n1 * 2 ^ (e1 + 1120) * (2 ^ p1 * 2 ^ p2)).
    { rewrite E2 at 1. 
      assert (Q : 0 < 2 ^ p1 * 2 ^ p2)
        by (apply Z.mul_pos_pos; apply pow2_pos; lia).
      generalize dependent (2 ^ p1). generalize dependent (2 ^ p2).
      generalize dependent (2 ^ (e1 + 1120)).
      generalize dependent (2 ^ (e2 + 1120)). intros. nia. }
    transitivity (Zpos n2 * 2 ^ (e2 + 1120) * (2 ^ p1 * 2 ^ p2)).
    { apply Z.mul_le_mono_nonneg_r; [|assumption].
      apply Z.lt_le_incl, Z.mul_pos_pos; apply pow2_pos; lia. }
    rewrite E2.
    generalize dependent (2 ^ p1). generalize dependent (2 ^ p2).
    generalize dependent (2 ^ (e1 + 1120)).
    generalize dependent (2 ^ (e2 + 1120)). intros. nia.
  - (* a larger exponent: a power of two lies between the two *)
    assert (Et2 : t2 = d2 + e2 - 53).
    { unfold t2, t1, fexp in *. unfold prec in *. lia. }
    assert (HL' : d1 + e1 < d2 + e2).
    { unfold t1, fexp in *. unfold prec in *. lia. }
    transitivity (2 ^ (d2 + e2 - 1 + 1120)).
    + (* the smaller number rounds to at most a power of two *)
      set (a := Z.max (d1 + e1 - t1) 0).
      transitivity (2 ^ a * 2 ^ (t1 + 1120)).
      * apply Z.mul_le_mono_nonneg_r;
          [apply Z.lt_le_incl, pow2_pos; lia|].
        apply round_half_even_le_int. rewrite Hden1.
        rewrite <- Z.pow_add_r by (unfold a, p1; lia).
        transitivity (2 ^ d1); [lia|].
        apply pow2_le. unfold a, p1. lia.
      * rewrite <- Z.pow_add_r by (unfold a; lia).
        apply pow2_le. unfold a. unfold t1, fexp in *. unfold prec in *.
        lia.
    + (* the larger one to at least that power *)
      replace (d2 + e2 - 1 + 1120) with (52 + (t2 + 1120)) by lia.
      rewrite Z.pow_add_r by lia.
      apply Z.mul_le_mono_nonneg_r;
        [apply Z.lt_le_incl, pow2_pos; lia|].
      apply round_half_even_ge_int. rewrite Hden2.
      rewrite <- Z.pow_add_r by (unfold p2; lia).
      transitivity (2 ^ (d2 - 1)); [|assumption].
      apply pow2_le. unfold p2. lia.
Qed.


(** *** The product by 100 *)

(** The mantissa and the exponent of the double 100. *)
Definition hundred_m : positive := 7036874417766400.
Definition hundred_e : Z := -46.

Lemma Prim2SF_hundred :
  Prim2SF 100%float = S754_finite false hundred_m hundred_e.
Proof. reflexivity. Qed.

(** A finite double has an exponent from [-1074] on and a mantissa of
    at most 53 bits. *)
Lemma finite_valid x s m e :
  Prim2SF x = S754_finite s m e ->
  -1074 <= e /\ Zpos (digits2_pos m) <= 53.
Proof.
  intros E. pose proof (Prim2SF_valid x) as V. rewrite E in V.
  cbn [valid_binary] in V. unfold bounded, canonical_mantissa in V.
  apply andb_true_iff in V. destruct V as [V _].
  apply Z.eqb_eq in V. unfold fexp, emin, emax, prec in V. lia.
Qed.

(** What rounding makes of the magnitude of [100 x], scaled. *)
Definition rounded_hundredfold (m : positive) (e : Z) : Z :=
  let n := (m * hundred_m)%positive in
  let t := fexp prec emax (Zdigits2 (Zpos n) + (e + hundred_e)) in
  App.round_half_even (Zpos n # den (Z.to_nat (t - (e + hundred_e))))
  * 2 ^ (t + 1120).

Lemma hundredfold_exponent m e :
  e + hundred_e <=
  fexp prec emax (Zdigits2 (Zpos (m * hundred_m)) + (e + hundred_e)).
Proof.
  cbn [Zdigits2].
  pose proof (digits2_pos_bounds (m * hundred_m)) as [_ Hi].
  assert (H : 2 ^ 52 < 2 ^ Zpos (digits2_pos (m * hundred_m))).
  { eapply Z.le_lt_trans; [|exact Hi].
    rewrite Pos2Z.inj_mul. unfold hundred_m.
    change (2 ^ 52) with 4503599627370496. lia. }
  apply Z.pow_lt_mono_r_iff in H; [|lia|lia].
  unfold fexp, prec. lia.
Qed.

Lemma rounded_hundredfold_nonneg m e : 0 <= rounded_hundredfold m e.
Proof.
  unfold rounded_hundredfold. apply Z.mul_nonneg_nonneg.
  - apply round_half_even_nonneg. lia.
  - apply Z.pow_nonneg. lia.
Qed.

(** [x * 100] when it is finite. *)
Lemma times_100_cases x :
  is_finite (x * 100)%float = true ->
  (exists s, Prim2SF x = S754_zero s /\
             scaled (Prim2SF (x * 100)%float) = 0) \/
  (exists s m e,
      Prim2SF x = S754_finite s m e /\
      scaled (Prim2SF (x * 100)%float) =
      signed s (rounded_hundredfold m e)).
Proof.
  rewrite is_finite_spec, mul_spec, Prim2SF_hundred.
  destruct (Prim2SF x) as [s|s| |s m e] eqn:Ex; cbn [SF64mul SFmul].
  - intros _. left. exists s. split; reflexivity.
  - discriminate.
  - discriminate.
  - intros Hfin. right. exists s, m, e. split; [reflexivity|].
    unfold SF64mul, SFmul in *.
    replace (xorb s false) with s in * by (now destruct s).
    pose proof (binary_round_aux_scaled s (m * hundred_m) (e + hundred_e)
                  (hundredfold_exponent m e)) as H.
    cbv zeta in H. destruct H as [H | [_ H]].
    + rewrite H in Hfin. discriminate.
    + exact H.
Qed.

Lemma exact_scaled x :
  (exact x == scaled (Prim2SF x) # (2 ^ 1120))%Q.
Proof.
  unfold exact. destruct (Prim2SF x) as [s|s| |s m e] eqn:Ex;
    try reflexivity.
  destruct (finite_valid x s m e Ex) as [He _].
  cbn [scaled]. set (n := if s then Z.neg m else Z.pos m).
  unfold Qeq. cbn [Qnum Qden].
  assert (P : Zpos (2 ^ 1120) = 2 ^ 1120) by (rewrite Pos2Z.inj_pow; reflexivity).
  rewrite P.
  destruct e as [|k|k].
  - cbn [inject_Z Qnum Qden]. change (2 ^ 0) with 1.
    change (0 + 1120) with 1120. lia.
  - cbn [inject_Z Qnum Qden].
    rewrite (Z.pow_add_r 2 (Zpos k) 1120) by lia. lia.
  - cbn [Qnum Qden]. rewrite Pos2Z.inj_pow.
    replace (2 ^ 1120) with (2 ^ (Zneg k + 1120) * 2 ^ Zpos k) at 1.
    2:{ rewrite <- Z.pow_add_r by lia. f_equal. lia. }
    lia.
Qed.

Lemma exact_le_scaled x y :
  (exact x <= exact y)%Q <-> scaled (Prim2SF x) <= scaled (Prim2SF y).
Proof.
  rewrite (exact_scaled x), (exact_scaled y). unfold Qle. cbn [Qnum Qden].
  split; intros H.
  - apply Z.mul_le_mono_pos_r in H; [assumption | lia].
  - apply Z.mul_le_mono_pos_r; [lia | assumption].
Qed.

(** The order of two magnitudes is the order of what rounding makes of
    a hundred times each. *)
Lemma rounded_hundredfold_monotone m1 e1 m2 e2 :
  -1074 <= e1 -> -1074 <= e2 ->
  Zpos m1 * 2 ^ (e1 + 1120) <= Zpos m2 * 2 ^ (e2 + 1120) ->
  rounded_hundredfold m1 e1 <= rounded_hundredfold m2 e2.
Proof.
  intros He1 He2 Hle. unfold rounded_hundredfold.
  apply round_scaled_monotone;
    try (unfold hundred_e; lia); try apply hundredfold_exponent.
  rewrite !Pos2Z.inj_mul.
  assert (E : forall e, -1074 <= e ->
            2 ^ (e + 1120) = 2 ^ 46 * 2 ^ (e + hundred_e + 1120)).
  { intros e He. rewrite <- Z.pow_add_r by (unfold hundred_e; lia).
    f_equal. unfold hundred_e. lia. }
  rewrite (E e1 He1), (E e2 He2) in Hle.
  assert (P1 : 0 < 2 ^ (e1 + hundred_e + 1120))
    by (apply pow2_pos; unfold hundred_e; lia).
  assert (P2 : 0 < 2 ^ (e2 + hundred_e + 1120))
    by (apply pow2_pos; unfold hundred_e; lia).
  change (2 ^ 46) with 70368744177664 in Hle.
  generalize dependent (2 ^ (e1 + hundred_e + 1120)).
  generalize dependent (2 ^ (e2 + hundred_e + 1120)).
  intros. unfold hundred_m. nia.
Qed.

(** The product by 100 keeps the order of the numbers two doubles
    stand for, as long as both products are finite. *)
Lemma times_100_monotone x y :
  is_finite (x * 100)%float = true ->
  is_finite (y * 100)%float = true ->
  (exact x <= exact y)%Q ->
  (exact (x * 100)%float <= exact (y * 100)%float)%Q.
Proof.
  intros Fx Fy. rewrite !exact_le_scaled.
  destruct (times_100_cases x Fx) as [(s1 & E1 & ->) |
                                      (s1 & m1 & e1 & E1 & ->)];
    destruct (times_100_cases y Fy) as [(s2 & E2 & ->) |
                                        (s2 & m2 & e2 & E2 & ->)];
    rewrite E1, E2; cbn [scaled].
  - lia.
  - pose proof (rounded_hundredfold_nonneg m2 e2).
    destruct (finite_valid y s2 m2 e2 E2) as [He2 _].
    assert (0 < 2 ^ (e2 + 1120)) by (apply pow2_pos; lia).
    destruct s2; cbn [signed]; [nia | lia].
  - pose proof (rounded_hundredfold_nonneg m1 e1).
    destruct (finite_valid x s1 m1 e1 E1) as [He1 _].
    assert (0 < 2 ^ (e1 + 1120)) by (apply pow2_pos; lia).
    destruct s1; cbn [signed]; [lia | nia].
  - destruct (finite_valid x s1 m1 e1 E1) as [He1 _].
    destruct (finite_valid y s2 m2 e2 E2) as [He2 _].
    pose proof (rounded_hundredfold_nonneg m1 e1).
    pose proof (rounded_hundredfold_nonneg m2 e2).
    assert (0 < 2 ^ (e1 + 1120)) by (apply pow2_pos; lia).
    assert (0 < 2 ^ (e2 + 1120)) by (apply pow2_pos; lia).
    destruct s1, s2; cbn [signed]; intros Hle.
    + assert (Zpos m2 * 2 ^ (e2 + 1120) <= Zpos m1 * 2 ^ (e1 + 1120))
        by lia.
      pose proof (rounded_hundredfold_monotone m2 e2 m1 e1 He2 He1
                    ltac:(assumption)).
      lia.
    + lia.
    + exfalso. nia.
    + pose proof (rounded_hundredfold_monotone m1 e1 m2 e2 He1 He2 Hle).
      lia.
Qed.

(** *** The order of the doubles *)

(** A double above the smallest exponent has a mantissa of 53 bits. *)
Lemma finite_normal x s m e :
  Prim2SF x = S754_finite s m e ->
  -1074 < e -> Zpos (digits2_pos m) = 53.
Proof.
  intros E. pose proof (Prim2SF_valid x) as V. rewrite E in V.
  cbn [valid_binary] in V. unfold bounded, canonical_mantissa in V.
  apply andb_true_iff in V. destruct V as [V _].
  apply Z.eqb_eq in V. unfold fexp, emin, emax, prec in V. lia.
Qed.

(** Among positive doubles the exponent decides, then the mantissa. *)
Lemma magnitude_lt x y sx sy m1 e1 m2 e2 :
  Prim2SF x = S754_finite sx m1 e1 ->
  Prim2SF y = S754_finite sy m2 e2 ->
  e1 < e2 \/ (e1 = e2 /\ Zpos m1 < Zpos m2) ->
  Zpos m1 * 2 ^ (e1 + 1120) < Zpos m2 * 2 ^ (e2 + 1120).
Proof.
  intros Ex Ey H.
  destruct (finite_valid x sx m1 e1 Ex) as [He1 Hd1].
  destruct (finite_valid y sy m2 e2 Ey) as [He2 Hd2].
  destruct H as [Hlt | [-> Hlt]].
  - pose proof (finite_normal y sy m2 e2 Ey ltac:(lia)) as Hn.
    pose proof (digits2_pos_bounds m1) as [_ Hi].
    pose proof (digits2_pos_bounds m2) as [Lo _]. rewrite Hn in Lo.
    assert (Hi' : Zpos m1 < 2 ^ 53).
    { eapply Z.lt_le_trans; [exact Hi|]. apply pow2_le. lia. }
    change (2 ^ (53 - 1)) with 4503599627370496 in Lo.
    change (2 ^ 53) with 9007199254740992 in Hi'.
    assert (P : 0 < 2 ^ (e1 + 1120)) by (apply pow2_pos; lia).
    assert (Q : 2 * 2 ^ (e1 + 1120) <= 2 ^ (e2 + 1120)).
    { rewrite <- Z.pow_succ_r by lia. apply pow2_le. lia. }
    generalize dependent (2 ^ (e1 + 1120)).
    generalize dependent (2 ^ (e2 + 1120)). intros. nia.
  - apply Z.mul_lt_mono_pos_r; [apply pow2_pos; lia | assumption].
Qed.

(** The order [<=?] of two finite doubles is the order of the numbers
    they stand for. *)
Lemma leb_exact x y :
  is_finite x = true -> is_finite y = true ->
  (x <=? y)%float = true -> (exact x <= exact y)%Q.
Proof.
  intros Fx Fy H. apply exact_le_scaled. apply leb_key in H.
  destruct H as (a & b & Ka & Kb & H).
  destruct (finite_cases x Fx) as [[s1 E1] | (s1 & m1 & e1 & E1)];
    destruct (finite_cases y Fy) as [[s2 E2] | (s2 & m2 & e2 & E2)];
    rewrite E1 in Ka |- *; rewrite E2 in Kb |- *;
    cbn [key scaled] in *.
  - lia.
  - destruct (finite_valid y s2 m2 e2 E2) as [He2 _].
    assert (0 < 2 ^ (e2 + 1120)) by (apply pow2_pos; lia).
    destruct s2; injection Ka as <-; injection Kb as <-.
    + exfalso. destruct H as [H|H]; [cbn in H; lia | discriminate].
    + nia.
  - destruct (finite_valid x s1 m1 e1 E1) as [He1 _].
    assert (0 < 2 ^ (e1 + 1120)) by (apply pow2_pos; lia).
    destruct s1; injection Ka as <-; injection Kb as <-.
    + nia.
    + exfalso. destruct H as [H|H]; [cbn in H; lia | discriminate].
  - destruct (finite_valid x s1 m1 e1 E1) as [He1 _].
    destruct (finite_valid y s2 m2 e2 E2) as [He2 _].
    assert (0 < 2 ^ (e1 + 1120)) by (apply pow2_pos; lia).
    assert (0 < 2 ^ (e2 + 1120)) by (apply pow2_pos; lia).
    destruct s1, s2; injection Ka as <-; injection Kb as <-.
    + destruct H as [H|H].
      * cbn in H.
        pose proof (magnitude_lt y x true true m2 e2 m1 e1 E2 E1
                      ltac:(lia)). lia.
      * injection H as He Hm.
        assert (Ee : e1 = e2) by lia. assert (Em : m1 = m2) by lia.
        subst. lia.
    + nia.
    + exfalso. destruct H as [H|H]; [cbn in H; lia | discriminate].
    + destruct H as [H|H].
      * cbn in H.
        pose proof (magnitude_lt x y false false m1 e1 m2 e2 E1 E2
                      ltac:(lia)). lia.
      * injection H as He Hm.
        assert (Ee : e1 = e2) by lia. assert (Em : m1 = m2) by lia.
        subst. lia.
Qed.

(** A double whose product by 100 is finite is finite. *)
Lemma times_100_finite x :
  is_finite (x * 100)%float = true -> is_finite x = true.
Proof.
  intros H. rewrite is_finite_spec.
  destruct (times_100_cases x H) as [(s & -> & _) | (s & m & e & -> & _)];
    reflexivity.
Qed.

End RoundingFacts.

(** ** The service of [app/services] *)

Module AppFacts.
Import App.

(** Unfolds one run of a program down to the collections. *)
Ltac run :=
  unfold bind, try_except, ret, raise, store_call, ObjectId, str; simpl.

Ltac unfold_store :=
  unfold deliveries_find_one, deliveries_update_one, deliveries_insert_one,
    deliveries_count_documents, drivers_find_one, drivers_update_one,
    drivers_count_documents, deliveries_aggregate.

Lemma delivery_by_id_push o ev d :
  delivery_by_id o (Delivery.push_tracking ev d) = delivery_by_id o d.
Proof. reflexivity. Qed.

Lemma delivery_by_id_stamp o t d :
  delivery_by_id o (Delivery.set_actual_delivery_time t d) = delivery_by_id o d.
Proof. reflexivity. Qed.

Lemma delivery_by_id_set o u t d :
  delivery_by_id o (set_fields u t d) = delivery_by_id o d.
Proof. reflexivity. Qed.

Lemma driver_by_id_release o d :
  driver_by_id o (Driver.release d) = driver_by_id o d.
Proof. reflexivity. Qed.

Lemma delivery_by_id_true o d : delivery_by_id o d = true -> Delivery._id d = o.
Proof. unfold delivery_by_id. intros Hb. now apply bool_decide_eq_true in Hb. Qed.

Lemma driver_by_id_true o d : driver_by_id o d = true -> Driver._id d = o.
Proof. unfold driver_by_id. intros Hb. now apply bool_decide_eq_true in Hb. Qed.

(** The entry [create_delivery] adds to the history. *)
Definition created (now : Z) : tracking_event :=
  TrackingEvent "created" "Delivery created" now.

(** C4. When the store does not fail, [create_delivery] stores the new
    delivery with exactly one history entry, the event "created", whether
    or not a driver was found; when no driver is available the delivery is
    stored (and returned) with status "pending" and no driver, and the
    drivers are left as they were. *)
Theorem create_delivery_created_entry :
  forall (w : world) (delivery_data : DeliveryData.t) (new_id : oid) (now : Z),
    faults w = [] ->
    stored new_id w = None ->
    exists (returned saved : Delivery.t) (w' : world),
      create_delivery delivery_data new_id now w = (Ok returned, w') /\
      deliveries w' = deliveries w ++ [saved] /\
      stored new_id w' = Some saved /\
      saved = Delivery.push_tracking (created now) returned /\
      Delivery.tracking_history saved = [created now] /\
      (find_first Driver.available (drivers w) = None ->
         Delivery.status saved = "pending" /\
         Delivery.driver_id saved = None /\
         Delivery.status returned = "pending" /\
         Delivery.driver_id returned = None /\
         drivers w' = drivers w).
Proof.
  intros [ds drs fs] delivery_data new_id now Hf Hnew.
  unfold stored in *. simpl in *. subst fs.
  unfold create_delivery, find_available_driver, add_tracking_event.
  unfold_store. run.
  destruct (find_first Driver.available drs) as [driver|] eqn:Hdrv; simpl;
    rewrite Hnew; simpl;
    rewrite update_first_app, Hnew; simpl;
    unfold delivery_by_id at 1; simpl;
    rewrite bool_decide_eq_true_2 by reflexivity.
  - eexists _, _, _. split; [reflexivity|]. simpl.
    rewrite find_first_app, Hnew. simpl.
    unfold delivery_by_id at 1. simpl.
    rewrite bool_decide_eq_true_2 by reflexivity.
    repeat (split; [reflexivity|]). discriminate.
  - eexists _, _, _. split; [reflexivity|]. simpl.
    rewrite find_first_app, Hnew. simpl.
    unfold delivery_by_id at 1. simpl.
    rewrite bool_decide_eq_true_2 by reflexivity.
    repeat (split; [reflexivity|]). reflexivity.
Qed.

(** A run of C4: an empty store, no driver. *)
Lemma create_delivery_created_entry_witness :
  exists (returned saved : Delivery.t) (w' : world),
    create_delivery
      (DeliveryData.Build (Some "order-1") (Some "c1") (Some "r1") [] []
         None None) 7%N 1000 (World [] [] []) = (Ok returned, w') /\
    deliveries w' = [] ++ [saved] /\
    stored 7%N w' = Some saved /\
    saved = Delivery.push_tracking (created 1000) returned /\
    Delivery.tracking_history saved = [created 1000] /\
    (find_first Driver.available [] = None ->
       Delivery.status saved = "pending" /\
       Delivery.driver_id saved = None /\
       Delivery.status returned = "pending" /\
       Delivery.driver_id returned = None /\
       drivers w' = []).
Proof.
  apply (create_delivery_created_entry (World [] [] [])); reflexivity.
Defined.

(** *** Properties every run keeps, whatever the store does *)

Section Keeps.
Variable allowed : string -> Prop.

Definition status_in (d : Delivery.t) : Prop := allowed (Delivery.status d).

Definition all_deliveries (w : world) : Prop :=
  Forall status_in (deliveries w).

Definition keeps {A} (m : program A) : Prop :=
  forall w, all_deliveries w -> all_deliveries (snd (m w)).

Lemma keeps_ret {A} (a : A) : keeps (ret a).
Proof. intros w Hw. exact Hw. Qed.

Lemma keeps_raise {A} (e : exn) : keeps (@raise world A e).
Proof. intros w Hw. exact Hw. Qed.

Lemma keeps_bind {A B} (m : program A) (k : A -> program B) :
  keeps m -> (forall a, keeps (k a)) -> keeps (bind m k).
Proof.
  intros Hm Hk w Hw. unfold bind. specialize (Hm w Hw).
  destruct (m w) as [[a|e] w']; simpl in *; [now apply Hk | exact Hm].
Qed.

(** What a program returns, when it returns. *)
Definition yields {A} (m : program A) (R : A -> Prop) : Prop :=
  forall w a w', m w = (Ok a, w') -> R a.

Lemma yields_ret {A} (a : A) (R : A -> Prop) : R a -> yields (ret a) R.
Proof. intros Ha w a' w' [= <- _]. exact Ha. Qed.

Lemma yields_bind {A B} (m : program A) (k : A -> program B) (R : B -> Prop) :
  (forall a, yields (k a) R) -> yields (bind m k) R.
Proof.
  intros Hk w b w'. unfold bind.
  destruct (m w) as [[a|e] w1]; [apply Hk | discriminate].
Qed.

Lemma keeps_bind_yields {A B} (m : program A) (k : A -> program B)
    (R : A -> Prop) :
  keeps m -> yields m R -> (forall a, R a -> keeps (k a)) -> keeps (bind m k).
Proof.
  intros Hm Hy Hk w Hw. unfold bind. specialize (Hm w Hw).
  destruct (m w) as [[a|e] w'] eqn:E; simpl in *; [|exact Hm].
  apply (Hk a); [exact (Hy _ _ _ E) | exact Hm].
Qed.

Lemma keeps_try {A} (m : program A) (h : exn -> program A) :
  keeps m -> (forall e, keeps (h e)) -> keeps (try_except m h).
Proof.
  intros Hm Hh w Hw. unfold try_except. specialize (Hm w Hw).
  destruct (m w) as [[a|e] w']; simpl in *; [exact Hm | now apply Hh].
Qed.

Lemma keeps_store_call {A} (op : world -> A * world) :
  (forall w, all_deliveries w -> all_deliveries (snd (op w))) ->
  keeps (store_call op).
Proof.
  intros Hop [ds drs fs] Hw. unfold store_call. simpl.
  destruct fs as [|[] fs]; simpl.
  - specialize (Hop _ Hw). now destruct (op _).
  - exact Hw.
  - specialize (Hop (World ds drs fs) Hw). now destruct (op _).
Qed.

Lemma keeps_ObjectId t : keeps (ObjectId t).
Proof. destruct t; [apply keeps_ret | apply keeps_raise]. Qed.

Lemma keeps_deliveries_find_one p : keeps (deliveries_find_one p).
Proof. apply keeps_store_call. auto. Qed.

Lemma keeps_drivers_find_one p : keeps (drivers_find_one p).
Proof. apply keeps_store_call. auto. Qed.

Lemma keeps_drivers_update_one p f : keeps (drivers_update_one p f).
Proof. apply keeps_store_call. auto. Qed.

Lemma keeps_deliveries_update_one p f :
  (forall d, status_in d -> status_in (f d)) -> keeps (deliveries_update_one p f).
Proof.
  intros Hf. apply keeps_store_call. intros w Hw. simpl.
  now apply update_first_Forall.
Qed.

Lemma keeps_deliveries_insert_one d :
  status_in d -> keeps (deliveries_insert_one d).
Proof.
  intros Hd. unfold deliveries_insert_one. apply keeps_bind.
  - apply keeps_store_call. auto.
  - intros [x|]; [apply keeps_raise|].
    intros w Hw. simpl. apply Forall_app. split; [exact Hw | now constructor].
Qed.

Lemma keeps_add_tracking_event t ev descr now :
  keeps (add_tracking_event t ev descr now).
Proof.
  unfold add_tracking_event. apply keeps_try; [|intros; apply keeps_ret].
  apply keeps_bind; [apply keeps_ObjectId|]. intros o.
  apply keeps_bind; [|intros; apply keeps_ret].
  apply keeps_deliveries_update_one. auto.
Qed.

Lemma keeps_get_delivery t : keeps (get_delivery t).
Proof.
  unfold get_delivery. apply keeps_try; [|intros; apply keeps_ret].
  apply keeps_bind; [apply keeps_ObjectId|]. intros o.
  apply keeps_deliveries_find_one.
Qed.

Lemma keeps_handle_status_change t s now :
  keeps (handle_status_change t s now).
Proof.
  unfold handle_status_change.
  apply keeps_bind; [apply keeps_add_tracking_event|]. intros _.
  apply keeps_bind.
  - destruct (completes s); [|apply keeps_ret].
    apply keeps_bind; [apply keeps_get_delivery|]. intros [d|]; [|apply keeps_ret].
    destruct (Delivery.driver_id d) as [k|]; [|apply keeps_ret].
    apply keeps_bind; [apply keeps_ObjectId|]. intros o.
    apply keeps_bind; [apply keeps_drivers_update_one|]. intros; apply keeps_ret.
  - intros _. destruct (String.eqb s "delivered"); [|apply keeps_ret].
    apply keeps_bind; [apply keeps_ObjectId|]. intros o.
    apply keeps_bind; [|intros; apply keeps_ret].
    apply keeps_deliveries_update_one. auto.
Qed.

Lemma keeps_update_delivery t u now :
  (forall s, DeliveryUpdate.status u = Some s -> allowed s) ->
  keeps (update_delivery t u now).
Proof.
  intros Hu. unfold update_delivery.
  apply keeps_try; [|intros; apply keeps_ret].
  apply keeps_bind.
  - destruct (DeliveryUpdate.status u);
      [apply keeps_handle_status_change | apply keeps_ret].
  - intros _. apply keeps_bind; [apply keeps_ObjectId|]. intros o.
    apply keeps_bind.
    + apply keeps_deliveries_update_one. intros d Hd. unfold status_in in *. simpl.
      destruct (DeliveryUpdate.status u); simpl; auto.
    + intros r. destruct (0 <? res_modified r)%nat;
        [apply keeps_get_delivery | apply keeps_ret].
Qed.

Lemma keeps_create_delivery data new_id now :
  allowed "pending" -> allowed "assigned" -> keeps (create_delivery data new_id now).
Proof.
  intros Hp Ha. unfold create_delivery, find_available_driver.
  apply keeps_bind; [apply keeps_drivers_find_one|]. intros drv.
  apply keeps_bind_yields with (R := status_in).
  - destruct drv; [|apply keeps_ret].
    apply keeps_bind; [apply keeps_drivers_update_one|]. intros; apply keeps_ret.
  - destruct drv; [apply yields_bind; intros _|]; now apply yields_ret.
  - intros d Hd. apply keeps_bind; [now apply keeps_deliveries_insert_one|].
    intros _. apply keeps_bind; [apply keeps_add_tracking_event|].
    intros; apply keeps_ret.
Qed.

Lemma keeps_serve (r : request) :
  allowed "pending" -> allowed "assigned" ->
  (forall s, requested_status r = Some s -> allowed s) ->
  forall w, all_deliveries w -> all_deliveries (serve w r).
Proof.
  intros Hp Ha Hr. destruct r as [data new_id now | t u now]; simpl in *.
  - now apply keeps_create_delivery.
  - now apply keeps_update_delivery.
Qed.

Lemma keeps_serve_all (rs : list request) :
  allowed "pending" -> allowed "assigned" ->
  Forall (fun r => forall s, requested_status r = Some s -> allowed s) rs ->
  forall w, all_deliveries w -> all_deliveries (serve_all w rs).
Proof.
  intros Hp Ha. induction 1 as [|r rs Hr Hrs IH]; intros w Hw; simpl; [exact Hw|].
  apply IH. now apply keeps_serve.
Qed.
End Keeps.


(** *** Runs on a store that does not fail *)

(** The history entry of a transition to [s]. *)
Definition transition_entry (s : string) (now : Z) : tracking_event :=
  TrackingEvent s
    (dict_get s status_messages ("Status updated to " ++ s)%string) now.

(** What [handle_status_change] writes into the delivery. *)
Definition status_effects (s : string) (now : Z) (d : Delivery.t)
  : Delivery.t :=
  let d1 := Delivery.push_tracking (transition_entry s now) d in
  if String.eqb s "delivered"
  then Delivery.set_actual_delivery_time now d1 else d1.

(** The drivers after [handle_status_change] on delivery [d]. *)
Definition after_release (s : string) (d : Delivery.t)
    (drs : list Driver.t) : list Driver.t :=
  if completes s then
    match Delivery.driver_id d with
    | Some k => update_first (driver_by_id k) Driver.release drs
    | None => drs
    end
  else drs.

Lemma handle_status_change_run ds drs o d s now :
  find_first (delivery_by_id o) ds = Some d ->
  handle_status_change (Hex o) s now (World ds drs []) =
  (Ok tt,
   World (update_first (delivery_by_id o) (status_effects s now) ds)
         (after_release s d drs) []).
Proof.
  intros Hd.
  assert (Hd' : forall ev,
    find_first (delivery_by_id o)
      (update_first (delivery_by_id o) (Delivery.push_tracking ev) ds) =
    Some (Delivery.push_tracking ev d)).
  { intros ev. rewrite find_first_update_first by reflexivity. now rewrite Hd. }
  unfold handle_status_change, add_tracking_event, get_delivery,
    after_release, status_effects, completes.
  fold (transition_entry s now).
  destruct (String.eqb s "delivered") eqn:E1;
    [|destruct (String.eqb s "cancelled") eqn:E2];
    unfold_store; run; rewrite ?Hd'; simpl;
    try (destruct (Delivery.driver_id d); simpl);
    rewrite ?update_first_twice by reflexivity; reflexivity.
Qed.

(** The delivery as [update_delivery] finds it when it comes to its own
    write: after the effects of the status, if the update names one. *)
Definition before_write (u : DeliveryUpdate.t) (now : Z) (d : Delivery.t)
  : Delivery.t :=
  match DeliveryUpdate.status u with
  | Some s => status_effects s now d
  | None => d
  end.

(** The delivery after [update_delivery]. *)
Definition updated (u : DeliveryUpdate.t) (now : Z) (d : Delivery.t)
  : Delivery.t :=
  set_fields u now (before_write u now d).

(** The drivers after [update_delivery] on delivery [d]. *)
Definition drivers_after (u : DeliveryUpdate.t) (d : Delivery.t)
    (drs : list Driver.t) : list Driver.t :=
  match DeliveryUpdate.status u with
  | Some s => after_release s d drs
  | None => drs
  end.

Lemma delivery_by_id_before_write o u now d :
  delivery_by_id o (before_write u now d) = delivery_by_id o d.
Proof.
  unfold before_write, status_effects.
  destruct (DeliveryUpdate.status u) as [s|]; [|reflexivity].
  now destruct (String.eqb s "delivered").
Qed.

Lemma update_delivery_run ds drs o d u now :
  find_first (delivery_by_id o) ds = Some d ->
  update_delivery (Hex o) u now (World ds drs []) =
  (Ok (if decide (updated u now d = before_write u now d)
       then None else Some (updated u now d)),
   World (update_first (delivery_by_id o) (updated u now) ds)
         (drivers_after u d drs) []).
Proof.
  intros Hd.
  assert (H1 : update_delivery (Hex o) u now (World ds drs []) =
    try_except
      (let! result := deliveries_update_one (delivery_by_id o)
                        (set_fields u now) in
       if (0 <? res_modified result)%nat then get_delivery (Hex o)
       else ret None)
      (fun _ => ret None)
      (World (update_first (delivery_by_id o) (before_write u now) ds)
             (drivers_after u d drs) [])).
  { unfold update_delivery, before_write, drivers_after.
    destruct (DeliveryUpdate.status u) as [s|].
    - unfold try_except at 1, bind at 1.
      rewrite (handle_status_change_run ds drs o d s now Hd). reflexivity.
    - unfold try_except at 1, bind at 1. simpl.
      rewrite update_first_fixed by reflexivity. reflexivity. }
  rewrite H1. unfold get_delivery. unfold_store. run.
  unfold modified_count.
  rewrite find_first_update_first by (intros; apply delivery_by_id_before_write).
  rewrite Hd. simpl. fold (updated u now d).
  rewrite update_first_twice by (intros; apply delivery_by_id_before_write).
  destruct (decide (updated u now d = before_write u now d)); simpl.
  - reflexivity.
  - rewrite find_first_update_first.
    + now rewrite Hd.
    + intros x. unfold updated. rewrite delivery_by_id_set.
      apply delivery_by_id_before_write.
Qed.

(** *** An update that names no stored delivery *)

Lemma update_delivery_malformed w text u now :
  update_delivery (Malformed text) u now w = (Ok None, w).
Proof.
  unfold update_delivery, handle_status_change, add_tracking_event,
    get_delivery, completes.
  destruct (DeliveryUpdate.status u) as [s|]; [|reflexivity].
  destruct (String.eqb s "delivered"); [reflexivity|].
  destruct (String.eqb s "cancelled"); reflexivity.
Qed.

Lemma update_delivery_unknown w o u now :
  stored o w = None ->
  exists w',
    update_delivery (Hex o) u now w = (Ok None, w') /\
    deliveries w' = deliveries w /\ drivers w' = drivers w.
Proof.
  destruct w as [ds drs fs]. unfold stored. simpl. intros Hd.
  unfold update_delivery, handle_status_change, add_tracking_event,
    get_delivery, completes.
  destruct (DeliveryUpdate.status u) as [s|];
    [destruct (String.eqb s "delivered");
       [|destruct (String.eqb s "cancelled")]|];
    unfold_store; unfold modified_count, matched_count;
    destruct fs as [|[] [|[] [|[] [|[] fs]]]]; run;
    repeat (first [rewrite Hd | rewrite (update_first_absent _ _ ds Hd)]; simpl);
    eexists; repeat split; reflexivity.
Qed.

Lemma updated_status s now d :
  Delivery.status (updated (DeliveryUpdate.only_status s) now d) = s.
Proof. reflexivity. Qed.

Lemma before_write_status u now d :
  Delivery.status (before_write u now d) = Delivery.status d.
Proof.
  unfold before_write, status_effects.
  destruct (DeliveryUpdate.status u) as [s|]; [|reflexivity].
  now destruct (String.eqb s "delivered").
Qed.

Lemma stored_after_update ds drs o d u now :
  find_first (delivery_by_id o) ds = Some d ->
  stored o (snd (update_delivery (Hex o) u now (World ds drs []))) =
  Some (updated u now d).
Proof.
  intros Hd. rewrite (update_delivery_run ds drs o d u now Hd).
  unfold stored. simpl. rewrite find_first_update_first.
  - now rewrite Hd.
  - intros x. unfold updated. rewrite delivery_by_id_set.
    apply delivery_by_id_before_write.
Qed.

(** ** The ledger of [DeliveryService] *)

(** C1, as the code has it.  Deliveries written by [create_delivery] and
    by updates that ask for a status of [DeliveryStatus] have a status of
    [DeliveryStatus], whatever the store does.  [update_delivery] checks no
    transition: on a store that does not fail, an update that names a
    status other than the stored one is applied from every status,
    terminal or not, and returns the delivery with the new status. *)
Theorem statuses_enumerated_and_no_transition_rule :
  (forall (rs : list request) (drs : list Driver.t) (fs : list bool),
      Forall (fun r => forall s, requested_status r = Some s ->
                                 In s DeliveryStatus) rs ->
      Forall (fun d => In (Delivery.status d) DeliveryStatus)
             (deliveries (serve_all (World [] drs fs) rs))) /\
  (forall (w : world) (o : oid) (d : Delivery.t) (s : string) (now : Z),
      faults w = [] ->
      stored o w = Some d ->
      s <> Delivery.status d ->
      exists (d' : Delivery.t) (w' : world),
        update_delivery (str o) (DeliveryUpdate.only_status s) now w =
          (Ok (Some d'), w') /\
        stored o w' = Some d' /\
        Delivery.status d' = s).
Proof.
  split.
  - intros rs drs fs Hrs.
    apply (keeps_serve_all (fun s => In s DeliveryStatus)); simpl; auto.
    constructor.
  - intros [ds drs fs] o d s now Hf Hd Hs. unfold stored in Hd.
    simpl in *. subst fs. unfold str.
    pose proof (stored_after_update ds drs o d
                  (DeliveryUpdate.only_status s) now Hd) as Hst.
    rewrite (update_delivery_run ds drs o d _ now Hd) in *.
    destruct (decide _) as [E|E].
    + exfalso. apply Hs.
      rewrite <- (before_write_status (DeliveryUpdate.only_status s) now d).
      now rewrite <- E.
    + eexists _, _. split; [reflexivity|]. split; [exact Hst | reflexivity].
Qed.

(** The order the examples start from. *)
Definition order1 : DeliveryData.t :=
  DeliveryData.Build (Some "order-1") (Some "customer-1")
    (Some "restaurant-1") [] [] None None.

(** A driver who is free and on line. *)
Definition driver1 : Driver.t :=
  Driver.Build 1%N "Ada" "555-0101" None "available" true None None.

(** A run of C1: a delivered delivery is asked to be picked up. *)
Lemma statuses_enumerated_and_no_transition_rule_witness :
  exists (d' : Delivery.t) (w' : world),
    update_delivery (str 7%N) (DeliveryUpdate.only_status "picked_up") 3000
      (serve_all (World [] [] [])
         [Create order1 7%N 1000;
          Update (Hex 7%N) (DeliveryUpdate.only_status "delivered") 2000]) =
      (Ok (Some d'), w') /\
    stored 7%N w' = Some d' /\
    Delivery.status d' = "picked_up".
Proof.
  refine (proj2 statuses_enumerated_and_no_transition_rule
            (serve_all (World [] [] [])
               [Create order1 7%N 1000;
                Update (Hex 7%N) (DeliveryUpdate.only_status "delivered")
                  2000])
            7%N _ "picked_up" 3000 _ _ _).
  - reflexivity.
  - vm_compute. reflexivity.
  - discriminate.
Defined.

(** C1 as stated fails: the delivery 7 is created and
    delivered; the request to move it to "picked_up" is not rejected, it
    returns the delivery and the stored status is "picked_up". *)
Lemma delivered_delivery_is_picked_up :
  exists (w w' : world) (d d' : Delivery.t),
    w = serve_all (World [] [] [])
          [Create order1 7%N 1000;
           Update (Hex 7%N) (DeliveryUpdate.only_status "delivered") 2000] /\
    stored 7%N w = Some d /\
    Delivery.status d = "delivered" /\
    In (Delivery.status d) terminal /\
    update_delivery (Hex 7%N) (DeliveryUpdate.only_status "picked_up") 3000 w
      = (Ok (Some d'), w') /\
    stored 7%N w' = Some d' /\
    Delivery.status d' = "picked_up".
Proof.
  eexists _, _, _, _. split; [reflexivity|].
  split; [vm_compute; reflexivity|].
  split; [reflexivity|].
  split; [simpl; auto|].
  split; [vm_compute; reflexivity|].
  split; [vm_compute; reflexivity | reflexivity].
Qed.

(** Store calls [handle_status_change] makes on a stored delivery [d]. *)
Definition status_calls (s : string) (d : Delivery.t) : nat :=
  1 + (if completes s
       then 1 + (match Delivery.driver_id d with Some _ => 1 | None => 0 end)
       else 0)
    + (if String.eqb s "delivered" then 1 else 0).

Lemma handle_status_change_run_scheduled ds drs fs o d s now :
  find_first (delivery_by_id o) ds = Some d ->
  handle_status_change (Hex o) s now
    (World ds drs (repeat false (status_calls s d) ++ fs)) =
  (Ok tt,
   World (update_first (delivery_by_id o) (status_effects s now) ds)
         (after_release s d drs) fs).
Proof.
  intros Hd.
  assert (Hd' : forall ev,
    find_first (delivery_by_id o)
      (update_first (delivery_by_id o) (Delivery.push_tracking ev) ds) =
    Some (Delivery.push_tracking ev d)).
  { intros ev. rewrite find_first_update_first by reflexivity. now rewrite Hd. }
  unfold handle_status_change, add_tracking_event, get_delivery,
    after_release, status_effects, status_calls, completes.
  fold (transition_entry s now).
  destruct (String.eqb s "delivered") eqn:E1;
    [|destruct (String.eqb s "cancelled") eqn:E2];
    try (destruct (Delivery.driver_id d) eqn:Ek);
    unfold_store; run; rewrite ?Hd'; simpl; rewrite ?Ek; simpl;
    rewrite ?update_first_twice by reflexivity; reflexivity.
Qed.

Lemma update_delivery_write_fails ds drs fs o d u s now :
  find_first (delivery_by_id o) ds = Some d ->
  DeliveryUpdate.status u = Some s ->
  update_delivery (Hex o) u now
    (World ds drs (repeat false (status_calls s d) ++ true :: fs)) =
  (Ok None,
   World (update_first (delivery_by_id o) (status_effects s now) ds)
         (after_release s d drs) fs).
Proof.
  intros Hd Hs. unfold update_delivery. rewrite Hs.
  unfold try_except at 1, bind at 1.
  rewrite (handle_status_change_run_scheduled ds drs _ o d s now Hd).
  unfold_store. run. reflexivity.
Qed.

(** C3, as the code has it.  An update that names no stored delivery
    returns [None] and leaves deliveries and drivers as they were,
    whatever the store does.  On a stored delivery the effects of the
    status (history entry, release of the driver, delivery time) are
    written before the status itself, and nothing undoes them: when the
    store fails on the write of the status they stay, the status is not
    written and the caller gets [None]; when the store does not fail both
    are written. *)
Theorem status_effects_precede_the_write :
  (forall (w : world) (t : id_text) (u : DeliveryUpdate.t) (now : Z),
      (forall o, t = Hex o -> stored o w = None) ->
      exists w' : world,
        update_delivery t u now w = (Ok None, w') /\
        deliveries w' = deliveries w /\ drivers w' = drivers w) /\
  (forall (ds : list Delivery.t) (drs : list Driver.t) (fs : list bool)
          (o : oid) (d : Delivery.t) (u : DeliveryUpdate.t) (s : string)
          (now : Z),
      find_first (delivery_by_id o) ds = Some d ->
      DeliveryUpdate.status u = Some s ->
      update_delivery (Hex o) u now
        (World ds drs (repeat false (status_calls s d) ++ true :: fs)) =
      (Ok None,
       World (update_first (delivery_by_id o) (status_effects s now) ds)
             (after_release s d drs) fs) /\
      snd (update_delivery (Hex o) u now (World ds drs [])) =
      World (update_first (delivery_by_id o)
               (fun x => set_fields u now (status_effects s now x)) ds)
            (after_release s d drs) []).
Proof.
  split.
  - intros w [o|text] u now Ht.
    + apply update_delivery_unknown. now apply Ht.
    + exists w. now rewrite update_delivery_malformed.
  - intros ds drs fs o d u s now Hd Hs. split.
    + now apply update_delivery_write_fails.
    + rewrite (update_delivery_run ds drs o d u now Hd). simpl.
      unfold updated, before_write, drivers_after. now rewrite Hs.
Qed.

(** A run of C3: the store fails when delivery 7 is to be marked
    delivered. *)
Lemma status_effects_precede_the_write_witness :
  let w := serve_all (World [] [driver1] []) [Create order1 7%N 1000] in
  let d := Delivery.assign 1%N (1000 + minutes 30)
             (Delivery.push_tracking (created 1000)
                (pending_delivery order1 7%N 1000)) in
  let u := DeliveryUpdate.only_status "delivered" in
  update_delivery (Hex 7%N) u 2000
    (World (deliveries w) (drivers w)
       (repeat false (status_calls "delivered" d) ++ [true])) =
  (Ok None,
   World (update_first (delivery_by_id 7%N)
            (status_effects "delivered" 2000) (deliveries w))
         (after_release "delivered" d (drivers w)) []) /\
  snd (update_delivery (Hex 7%N) u 2000
         (World (deliveries w) (drivers w) [])) =
  World (update_first (delivery_by_id 7%N)
           (fun x => set_fields u 2000 (status_effects "delivered" 2000 x))
           (deliveries w))
        (after_release "delivered" d (drivers w)) [].
Proof.
  intros w d u.
  apply (proj2 status_effects_precede_the_write); reflexivity.
Defined.

(** C3 as stated fails: delivery 7 is assigned to driver 1; the store
    fails on the write of the status "delivered".  The caller gets [None]
    and the status is still "assigned", yet the history has the entry
    "delivered", the delivery time is set and the driver is released. *)
Lemma failed_write_leaves_effects :
  exists (w w' : world) (d' : Delivery.t) (drv : Driver.t),
    w = World
          (deliveries (serve_all (World [] [driver1] [])
                         [Create order1 7%N 1000]))
          [Driver.reserve 7%N driver1]
          [false; false; false; false; true] /\
    update_delivery (Hex 7%N) (DeliveryUpdate.only_status "delivered") 2000 w
      = (Ok None, w') /\
    stored 7%N w' = Some d' /\
    Delivery.status d' = "assigned" /\
    map event (Delivery.tracking_history d') = ["created"; "delivered"] /\
    Delivery.actual_delivery_time d' = Some 2000 /\
    stored_driver 1%N w' = Some drv /\
    Driver.status drv = "available" /\
    Driver.current_delivery_id drv = None.
Proof.
  eexists _, _, _, _. split; [reflexivity|].
  split; [vm_compute; reflexivity|].
  split; [vm_compute; reflexivity|].
  repeat split; reflexivity.
Qed.

Lemma release_available drv :
  Driver.status drv = "available" ->
  Driver.current_delivery_id drv = None ->
  Driver.release drv = drv.
Proof. destruct drv; simpl. now intros -> ->. Qed.

Lemma release_twice drv : Driver.release (Driver.release drv) = Driver.release drv.
Proof. reflexivity. Qed.

Lemma after_release_twice s d d1 drs :
  Delivery.driver_id d1 = Delivery.driver_id d ->
  after_release s d1 (after_release s d drs) = after_release s d drs.
Proof.
  intros Hk. unfold after_release. rewrite Hk.
  destruct (completes s); [|reflexivity].
  destruct (Delivery.driver_id d) as [k|]; [|reflexivity].
  rewrite update_first_twice by reflexivity.
  now apply update_first_ext.
Qed.

Lemma updated_history s now d :
  Delivery.tracking_history (updated (DeliveryUpdate.only_status s) now d) =
  Delivery.tracking_history d ++ [transition_entry s now].
Proof.
  unfold updated, before_write, status_effects. simpl.
  now destruct (String.eqb s "delivered").
Qed.

Lemma updated_driver_id u now d :
  Delivery.driver_id (updated u now d) = Delivery.driver_id d.
Proof.
  unfold updated, before_write, status_effects.
  destruct (DeliveryUpdate.status u) as [s|]; [|reflexivity].
  now destruct (String.eqb s "delivered").
Qed.

Lemma update_delivery_returns w t u now :
  exists r : option Delivery.t, fst (update_delivery t u now w) = Ok r.
Proof.
  unfold update_delivery, try_except.
  destruct (bind _ _ w) as [[r|e] w']; simpl; eauto.
Qed.

(** Store calls [update_delivery] makes on a stored delivery [d] before
    its own write. *)
Definition calls_before_write (u : DeliveryUpdate.t) (d : Delivery.t) : nat :=
  match DeliveryUpdate.status u with
  | Some s => status_calls s d
  | None => 0
  end.

(** A failure of the store inside [add_tracking_event] is swallowed there:
    the history entry is lost and the update goes on. *)
Lemma update_delivery_entry_lost ds drs o d u s now :
  find_first (delivery_by_id o) ds = Some d ->
  DeliveryUpdate.status u = Some s ->
  completes s = false ->
  update_delivery (Hex o) u now (World ds drs [true]) =
  (Ok (if decide (set_fields u now d = d) then None
       else Some (set_fields u now d)),
   World (update_first (delivery_by_id o) (set_fields u now) ds) drs []).
Proof.
  intros Hd Hs Hc.
  assert (Hdel : String.eqb s "delivered" = false).
  { unfold completes in Hc. apply orb_false_iff in Hc. now destruct Hc. }
  unfold update_delivery, handle_status_change, add_tracking_event,
    get_delivery. rewrite Hs, Hc, Hdel.
  unfold_store. run. unfold modified_count. rewrite Hd.
  destruct (decide (set_fields u now d = d)); simpl; [reflexivity|].
  rewrite find_first_update_first by reflexivity. now rewrite Hd.
Qed.

(** C10, as the code has it.  [update_delivery] never raises.  It
    returns [None] when the identifier names no stored delivery
    (malformed or unknown), when the store raises on the write of the
    update, and when the write finds the delivery but changes no field of
    it; such an update of a stored delivery exists.  A failure of the
    store is not always one of these cases: inside [add_tracking_event]
    it is swallowed, the history entry is lost, and the update goes on to
    write and to return the delivery.  On a store that does not fail the
    result is the delivery as the write left it, which is then the stored
    one, exactly when the write changed the document it found, and [None]
    otherwise. *)
Theorem update_delivery_none_is_ambiguous :
  (forall (w : world) (t : id_text) (u : DeliveryUpdate.t) (now : Z),
      exists r : option Delivery.t, fst (update_delivery t u now w) = Ok r) /\
  (forall (w : world) (t : id_text) (u : DeliveryUpdate.t) (now : Z),
      (forall o, t = Hex o -> stored o w = None) ->
      fst (update_delivery t u now w) = Ok None) /\
  (forall (ds : list Delivery.t) (drs : list Driver.t) (fs : list bool)
          (o : oid) (d : Delivery.t) (u : DeliveryUpdate.t) (now : Z),
      find_first (delivery_by_id o) ds = Some d ->
      fst (update_delivery (Hex o) u now
             (World ds drs
                (repeat false (calls_before_write u d) ++ true :: fs))) =
      Ok None) /\
  (forall (ds : list Delivery.t) (drs : list Driver.t) (o : oid)
          (d : Delivery.t) (u : DeliveryUpdate.t) (now : Z),
      find_first (delivery_by_id o) ds = Some d ->
      let found := before_write u now d in
      let w' := snd (update_delivery (Hex o) u now (World ds drs [])) in
      stored o w' = Some (set_fields u now found) /\
      (set_fields u now found = found ->
       fst (update_delivery (Hex o) u now (World ds drs [])) = Ok None) /\
      (set_fields u now found <> found ->
       fst (update_delivery (Hex o) u now (World ds drs [])) =
         Ok (Some (set_fields u now found)))) /\
  (forall (ds : list Delivery.t) (drs : list Driver.t) (o : oid)
          (d : Delivery.t) (u : DeliveryUpdate.t) (s : string) (now : Z),
      find_first (delivery_by_id o) ds = Some d ->
      DeliveryUpdate.status u = Some s ->
      completes s = false ->
      set_fields u now d <> d ->
      update_delivery (Hex o) u now (World ds drs [true]) =
      (Ok (Some (set_fields u now d)),
       World (update_first (delivery_by_id o) (set_fields u now) ds) drs
         [])) /\
  (exists (w : world) (o : oid) (d : Delivery.t) (u : DeliveryUpdate.t)
          (now : Z),
      stored o w = Some d /\
      update_delivery (Hex o) u now w = (Ok None, w)).
Proof.
  split; [exact update_delivery_returns|].
  split.
  { intros w [o|text] u now Ht.
    - destruct (update_delivery_unknown w o u now (Ht o eq_refl))
        as (w' & -> & _). reflexivity.
    - now rewrite update_delivery_malformed. }
  split.
  { intros ds drs fs o d u now Hd. unfold calls_before_write.
    destruct (DeliveryUpdate.status u) as [s|] eqn:Hu.
    - now rewrite (update_delivery_write_fails ds drs fs o d u s now Hd Hu).
    - unfold update_delivery. rewrite Hu. unfold_store. run. reflexivity. }
  split.
  { intros ds drs o d u now Hd found w'.
    pose proof (stored_after_update ds drs o d u now Hd) as Hst.
    unfold w'. rewrite (update_delivery_run ds drs o d u now Hd) in *.
    unfold updated in *. fold found in Hst |- *. simpl in *.
    split; [exact Hst|]. split.
    - intros E. now rewrite decide_True.
    - intros E. now rewrite decide_False. }
  split.
  { intros ds drs o d u s now Hd Hs Hc Hne.
    rewrite (update_delivery_entry_lost ds drs o d u s now Hd Hs Hc).
    now rewrite decide_False. }
  exists (World [pending_delivery order1 7%N 1000] [] []), 7%N,
         (pending_delivery order1 7%N 1000), DeliveryUpdate.empty, 1000.
  split; reflexivity.
Qed.

(** A run of C10: an update of delivery 7 that changes its notes. *)
Lemma update_delivery_none_is_ambiguous_witness :
  let ds := [pending_delivery order1 7%N 1000] in
  let u := DeliveryUpdate.Build None None None (Some "ring twice") None in
  let found := before_write u 2000 (pending_delivery order1 7%N 1000) in
  let w' := snd (update_delivery (Hex 7%N) u 2000 (World ds [] [])) in
  stored 7%N w' = Some (set_fields u 2000 found) /\
  (set_fields u 2000 found = found ->
   fst (update_delivery (Hex 7%N) u 2000 (World ds [] [])) = Ok None) /\
  (set_fields u 2000 found <> found ->
   fst (update_delivery (Hex 7%N) u 2000 (World ds [] [])) =
     Ok (Some (set_fields u 2000 found))).
Proof.
  intros ds u found w'.
  apply (proj1 (proj2 (proj2 (proj2 update_delivery_none_is_ambiguous)))
           ds [] 7%N (pending_delivery order1 7%N 1000) u 2000).
  reflexivity.
Defined.

(** C10 as stated fails: the store raises during the update of delivery
    7 to "picked_up" (on the push of the history entry), and the caller
    gets the delivery with its new status, not [None]; the history entry
    is missing. *)
Lemma swallowed_failure_returns_the_delivery :
  exists (d' : Delivery.t) (w' : world),
    update_delivery (Hex 7%N) (DeliveryUpdate.only_status "picked_up") 2000
      (World [pending_delivery order1 7%N 1000] [] [true]) =
      (Ok (Some d'), w') /\
    faults w' = [] /\
    Delivery.status d' = "picked_up" /\
    Delivery.tracking_history d' = [] /\
    stored 7%N w' = Some d'.
Proof.
  eexists _, _. split; [vm_compute; reflexivity|].
  repeat split; reflexivity.
Qed.

(** The delivery times the pipeline averages: those of the delivered
    deliveries that carry an [actual_delivery_time]. *)
Definition delivered_times (ds : list Delivery.t) : list Q :=
  omap delivery_time_minutes (List.filter is_delivered ds).

(** The arithmetic mean. *)
Definition mean (l : list Q) : Q :=
  (Qsum l / inject_Z (Z.of_nat (length l)))%Q.

Lemma pipeline_cases ds :
  pipeline ds =
  match List.filter is_delivered ds with
  | [] => []
  | _ => [match delivered_times ds with
          | [] => None
          | _ => Some (mean (delivered_times ds))
          end]
  end.
Proof.
  unfold pipeline, delivered_times, avg, mean.
  destruct (List.filter is_delivered ds); reflexivity.
Qed.

(** The figures [get_delivery_statistics] returns when the average that
    comes back from the pipeline is [a]. *)
Definition figures (ds : list Delivery.t) (drs : list Driver.t) (a : Q)
  : statistics :=
  Statistics (length ds) (length (List.filter is_delivered ds))
    (length (List.filter is_open ds))
    (length (List.filter (fun d => String.eqb (Driver.status d) "busy") drs))
    (length (List.filter Driver.available drs))
    (round2 a)
    (if (0 <? length ds)%nat
     then round2 (inject_Z (Z.of_nat (length (List.filter is_delivered ds)))
                  / inject_Z (Z.of_nat (length ds)) * 100)%Q
     else 0%Q).

Lemma filter_true {A} (l : list A) : List.filter (fun _ => true) l = l.
Proof. induction l as [|x l IH]; simpl; [reflexivity | now rewrite IH]. Qed.

Lemma get_delivery_statistics_run ds drs :
  get_delivery_statistics (World ds drs []) =
  (Ok match List.filter is_delivered ds with
      | [] => Figures (figures ds drs 0)
      | _ => match delivered_times ds with
             | [] => Error TypeError
             | _ => Figures (figures ds drs (mean (delivered_times ds)))
             end
      end,
   World ds drs []).
Proof.
  unfold get_delivery_statistics. unfold_store. run.
  unfold count_matching. rewrite pipeline_cases.
  destruct (List.filter is_delivered ds) as [|x l] eqn:Efil; simpl.
  - unfold figures. now rewrite Efil, filter_true.
  - destruct (delivered_times ds); simpl; [reflexivity|].
    unfold figures. now rewrite Efil, filter_true.
Qed.

(** Three deliveries, one of them delivered a minute after its creation. *)
Definition three_deliveries : world :=
  serve_all (World [] [] [])
    [Create order1 7%N 1000; Create order1 8%N 1000; Create order1 9%N 1000;
     Update (Hex 7%N) (DeliveryUpdate.only_status "delivered") 61000].

End AppFacts.

(** ** The statistics in double precision *)

Module AppDoubleFacts.
Import PrimFloat App AppFacts.

(** The figures [AppDouble.get_delivery_statistics] returns when the
    average that comes back from the pipeline is [a]. *)
Definition double_figures (ds : list Delivery.t) (drs : list Driver.t)
    (a : PrimFloat.float) : AppDouble.statistics :=
  AppDouble.Statistics (length ds) (length (List.filter is_delivered ds))
    (length (List.filter is_open ds))
    (length (List.filter (fun d => String.eqb (Driver.status d) "busy") drs))
    (length (List.filter Driver.available drs))
    (Double.round2 a)
    (if (0 <? length ds)%nat
     then Double.round2
            (Double.of_int (Z.of_nat (length (List.filter is_delivered ds)))
             / Double.of_int (Z.of_nat (length ds)) * 100)%float
     else 0%float).

Lemma double_statistics_run avg ds drs :
  AppDouble.get_delivery_statistics avg (World ds drs []) =
  (Ok match List.filter is_delivered ds with
      | [] => AppDouble.Figures (double_figures ds drs 0%float)
      | _ =>
          match omap AppDouble.delivery_time_minutes
                  (List.filter is_delivered ds) with
          | [] => AppDouble.Error TypeError
          | numbers => AppDouble.Figures (double_figures ds drs (avg numbers))
          end
      end,
   World ds drs []).
Proof.
  unfold AppDouble.get_delivery_statistics, AppDouble.deliveries_aggregate.
  unfold_store. run.
  unfold count_matching, AppDouble.pipeline.
  destruct (List.filter is_delivered ds) as [|x l] eqn:Efil.
  - simpl. unfold double_figures. now rewrite Efil, filter_true.
  - destruct (omap AppDouble.delivery_time_minutes (x :: l)); simpl;
      [reflexivity|].
    unfold double_figures. now rewrite Efil, filter_true.
Qed.




End AppDoubleFacts.

(** ** The HTTP variant of [src/main.py] *)

Module ApiFacts.
Import Api.

(** The two collections of a world. *)
Definition db (w : world) : list Driver.t * list Delivery.t :=
  (drivers w, deliveries w).

Lemma disconnect_db c k w : db (snd (disconnect c k w)) = db w.
Proof.
  unfold disconnect, set_manager, bind, get, put. simpl.
  destruct k as [k|]; [|reflexivity].
  destruct (if nonempty k then delivery_subscribers w !! k else None) as [l|];
    [|reflexivity].
  destruct (list_in c l); reflexivity.
Qed.

Lemma send_to_each_db conns k m w :
  db (snd (send_to_each conns k m w)) = db w.
Proof.
  revert w. induction conns as [|c conns IH]; intros w; [reflexivity|].
  pose proof (disconnect_db c (Some k) w) as Hdb.
  simpl. unfold try_except, bind, await_None, raise.
  destruct m as [text|ty]; simpl.
  - unfold send_text, bind, get, put, raise. simpl.
    destruct (list_in c (closed w)); simpl.
    + destruct (disconnect c (Some k) w) as [[[]|e] w1]; exact Hdb.
    + now rewrite IH.
  - destruct (disconnect c (Some k) w) as [[[]|e] w1]; exact Hdb.
Qed.

Lemma send_delivery_update_db k m w :
  db (snd (send_delivery_update k m w)) = db w.
Proof.
  unfold send_delivery_update, bind, get. simpl.
  destruct (delivery_subscribers w !! k); [apply send_to_each_db | reflexivity].
Qed.

#[local] Arguments send_delivery_update : simpl never.

Lemma delivery_by_id_set_status o s now d :
  delivery_by_id o (set_status s now d) = delivery_by_id o d.
Proof. reflexivity. Qed.

(** The collections after [update_delivery_status] on a stored delivery
    whose driver, if any, is named by the text of an identifier. *)
Lemma update_delivery_status_db w o d upd now :
  find_first (delivery_by_id o) (deliveries w) = Some d ->
  (forall text, Delivery.driver_id d <> Some (Malformed text)) ->
  db (snd (update_delivery_status (Hex o) upd now w)) =
  (if String.eqb (DeliveryUpdate.status upd) "picked_up" then drivers w
   else if String.eqb (DeliveryUpdate.status upd) "delivered" then
     match Delivery.driver_id d with
     | Some (Hex k) =>
         update_first (driver_by_id k) (Driver.set_is_available true)
           (drivers w)
     | _ => drivers w
     end
   else drivers w,
   update_first (delivery_by_id o)
     (set_status (DeliveryUpdate.status upd) now) (deliveries w)).
Proof.
  intros Hd Hk. destruct w as [drs ds conns subs cl wr]. simpl in *.
  unfold update_delivery_status. simpl.
  set (s := DeliveryUpdate.status upd).
  assert (Hid : Delivery._id d = Some o).
  { apply find_first_Some in Hd. destruct Hd as [Hd _].
    now apply bool_decide_eq_true in Hd. }
  assert (Hm : matched_count (delivery_by_id o) ds = 1%nat)
    by (unfold matched_count; now rewrite Hd).
  assert (Hf : find_first (delivery_by_id o)
                 (update_first (delivery_by_id o) (set_status s now) ds) =
               Some (set_status s now d)).
  { rewrite find_first_update_first by reflexivity. now rewrite Hd. }
  destruct (String.eqb s "picked_up") eqn:E1;
    [|destruct (String.eqb s "delivered") eqn:E2];
    unfold try_except, bind, get, put, set_deliveries, set_drivers, ret,
      raise, ObjectId; simpl; rewrite ?Hd; simpl;
    try (destruct (Delivery.driver_id d) as [[k|text]|] eqn:Ek;
         [| exfalso; exact (Hk text eq_refl) |]; simpl);
    rewrite Hm; simpl; rewrite Hf; simpl; rewrite Hid;
    unfold ret, raise; simpl;
    match goal with
    | |- context [send_delivery_update ?k ?m ?w0] =>
        pose proof (send_delivery_update_db k m w0) as Hs;
        destruct (send_delivery_update k m w0) as [[[]|[]] ?]
    end; exact Hs.
Qed.

Local Open Scope R_scope.

(** The distance of a driver from the pickup location. *)
Definition away (pickup_location : Location) (d : Driver.t) : R :=
  distance pickup_location (Driver.current_location d).

(** What the loop keeps true: the best driver so far comes strictly
    before every driver seen earlier and is no farther than any seen
    later. *)
Lemma nearest_loop_first_minimum pickup (l : list Driver.t) :
  forall (before after : list Driver.t) (best : Driver.t),
    (forall x, In x before -> away pickup best < away pickup x) ->
    (forall x, In x after -> away pickup best <= away pickup x) ->
    exists (d : Driver.t) (pre post : list Driver.t),
      nearest_loop pickup l (Some (away pickup best)) (Some best) = Some d /\
      (before ++ best :: after ++ l)%list = (pre ++ d :: post)%list /\
      (forall x, In x pre -> away pickup d < away pickup x) /\
      (forall x, In x post -> away pickup d <= away pickup x).
Proof.
  induction l as [|x l IH]; intros before after best Hb Ha.
  - exists best, before, after. rewrite app_nil_r. auto.
  - simpl. fold (away pickup x). destruct (Rlt_dec _ _) as [Hlt|Hge].
    + destruct (IH (before ++ best :: after)%list [] x) as (d & pre & post & H).
      * intros y Hy. apply in_app_or in Hy. destruct Hy as [Hy|[<-|Hy]].
        -- specialize (Hb y Hy). lra.
        -- exact Hlt.
        -- specialize (Ha y Hy). lra.
      * intros y [].
      * exists d, pre, post. simpl in H. rewrite <- app_assoc in H. exact H.
    + destruct (IH before (after ++ [x])%list best) as (d & pre & post & H).
      * exact Hb.
      * intros y Hy. apply in_app_or in Hy. destruct Hy as [Hy|[<-|[]]].
        -- now apply Ha.
        -- lra.
      * exists d, pre, post. rewrite <- app_assoc in H. exact H.
Qed.

(** The matcher returns nothing on an empty list, and otherwise the first
    of the nearest candidates. *)
Lemma nearest_of_cases pickup (drivers : list Driver.t) :
  drivers = [] /\ nearest_of pickup drivers = None \/
  exists d pre post,
    nearest_of pickup drivers = Some d /\
    drivers = (pre ++ d :: post)%list /\
    (forall x, In x pre -> away pickup d < away pickup x) /\
    (forall x, In x post -> away pickup d <= away pickup x).
Proof.
  destruct drivers as [|x l]; [now left | right].
  destruct (nearest_loop_first_minimum pickup l [] [] x)
    as (d & pre & post & H); [intros y [] | intros y [] |].
  exists d, pre, post. exact H.
Qed.

Lemma nearest_of_some pickup (drivers : list Driver.t) :
  drivers <> [] -> exists d, nearest_of pickup drivers = Some d.
Proof.
  intros Hne.
  destruct (nearest_of_cases pickup drivers) as [[H _] | (d & _ & _ & H & _)];
    [contradiction | eauto].
Qed.

Lemma distance_nonneg a b : 0 <= distance a b.
Proof. unfold distance. apply sqrt_pos. Qed.

Lemma distance_same a : distance a a = 0.
Proof.
  unfold distance.
  replace ((latitude a - latitude a) ^ 2 + (longitude a - longitude a) ^ 2)
    with 0 by ring.
  apply sqrt_0.
Qed.

Lemma int_nonneg x : 0 <= x -> int x = Int_part x.
Proof. intros Hx. unfold int. destruct (Rle_dec 0 x); [reflexivity | contradiction]. Qed.

Lemma int_zero : int 0 = 0%Z.
Proof.
  rewrite int_nonneg by lra. symmetry. apply Int_part_spec. simpl. lra.
Qed.

Lemma int_monotone x y : 0 <= x -> x <= y -> (int x <= int y)%Z.
Proof.
  intros Hx Hxy. rewrite !int_nonneg by lra.
  destruct (base_Int_part x) as [Hx1 _].
  destruct (base_Int_part y) as [_ Hy2].
  assert (H : IZR (Int_part x) < IZR (Int_part y + 1)).
  { rewrite plus_IZR. simpl. lra. }
  apply lt_IZR in H. lia.
Qed.

(** The collections after [create_delivery] when a driver is matched. *)
Lemma create_delivery_db w delivery new_id now drv :
  nearest_of (coordinates (Delivery.pickup_address delivery)) (candidates w)
  = Some drv ->
  db (snd (create_delivery delivery new_id now w)) =
  (update_first (driver_by_id (Driver._id drv))
     (Driver.set_is_available false) (drivers w),
   (deliveries w ++
    [Delivery.Build (Some new_id) None (Delivery.order_id delivery)
       (Some (str (Driver._id drv))) (Delivery.pickup_address delivery)
       (Delivery.delivery_address delivery) "assigned"
       (Some (calculate_eta
                (coordinates (Delivery.pickup_address delivery))
                (coordinates (Delivery.delivery_address delivery)) now))
       (Delivery.actual_pickup_time delivery)
       (Delivery.actual_delivery_time delivery)
       (Delivery.tracking_number delivery) (Delivery.created_at delivery)
       (Delivery.updated_at delivery)])%list).
Proof.
  intros Hn. destruct w as [drs ds conns subs cl wr].
  unfold create_delivery, find_nearest_driver.
  unfold try_except, bind, get, put, set_deliveries, set_drivers, ret, raise.
  simpl. rewrite Hn. simpl.
  match goal with
  | |- context [send_delivery_update ?k ?m ?w0] =>
      pose proof (send_delivery_update_db k m w0) as Hs;
      destruct (send_delivery_update k m w0) as [[[]|[]] ?]
  end; exact Hs.
Qed.

Local Close Scope R_scope.

(** The world once [texts] more have been delivered. *)
Definition with_wire (w : world) (texts : list (WebSocket * string)) : world :=
  World (drivers w) (deliveries w) (active_connections w)
    (delivery_subscribers w) (closed w) (wire w ++ texts).

Lemma with_wire_nil w : with_wire w [] = w.
Proof. destruct w. unfold with_wire. simpl. now rewrite app_nil_r. Qed.

Lemma with_wire_app w a b : with_wire (with_wire w a) b = with_wire w (a ++ b).
Proof. unfold with_wire. simpl. now rewrite app_assoc. Qed.

Lemma disconnect_returns c k w : fst (disconnect c k w) = Ok tt.
Proof.
  unfold disconnect, set_manager, bind, get, put. simpl.
  destruct k as [k|]; [|reflexivity].
  destruct (if nonempty k then delivery_subscribers w !! k else None) as [l|];
    [|reflexivity].
  destruct (list_in c l); reflexivity.
Qed.

(** With every subscriber reachable, each of them gets the text, in the
    order of the list, and nothing else changes. *)
Lemma send_to_each_open conns k text w :
  (forall c, In c conns -> list_in c (closed w) = false) ->
  send_to_each conns k (Plain text) w =
  (Ok tt, with_wire w (map (fun c => (c, text)) conns)).
Proof.
  revert w. induction conns as [|c conns IH]; intros w Hopen; simpl.
  - now rewrite with_wire_nil.
  - unfold bind at 1, try_except, bind at 1. simpl.
    unfold send_text, bind, get, put, raise. simpl.
    rewrite (Hopen c) by now left. simpl.
    fold (with_wire w [(c, text)]).
    rewrite IH by (intros x Hx; apply Hopen; now right).
    now rewrite with_wire_app.
Qed.

(** The first subscriber that cannot be reached ends the broadcast: it is
    taken off the lists, [TypeError] is raised, and the subscribers after
    it get nothing. *)
Lemma send_to_each_closed pre c post k text w :
  (forall x, In x pre -> list_in x (closed w) = false) ->
  list_in c (closed w) = true ->
  send_to_each (pre ++ c :: post) k (Plain text) w =
  (Raise TypeError,
   snd (disconnect c (Some k) (with_wire w (map (fun x => (x, text)) pre)))).
Proof.
  revert w. induction pre as [|x pre IH]; intros w Hopen Hc; simpl.
  - rewrite with_wire_nil.
    unfold bind at 1, try_except, bind at 1. simpl.
    unfold send_text, bind at 1, get, raise. simpl. rewrite Hc. simpl.
    unfold bind, await_None, raise.
    pose proof (disconnect_returns c (Some k) w) as Hr.
    destruct (disconnect c (Some k) w) as [[[]|e] w']; [reflexivity|].
    discriminate Hr.
  - unfold bind at 1, try_except, bind at 1. simpl.
    unfold send_text, bind, get, put, raise. simpl.
    rewrite (Hopen x) by now left. simpl.
    fold (with_wire w [(x, text)]).
    rewrite IH; [now rewrite with_wire_app | |exact Hc].
    intros y Hy. apply Hopen. now right.
Qed.

Lemma list_in_middle c pre post : list_in c (pre ++ c :: post) = true.
Proof.
  unfold list_in. rewrite existsb_app. simpl.
  rewrite Nat.eqb_refl. now rewrite orb_true_r.
Qed.

(** When every subscriber of a delivery can be reached and the message
    can be encoded, each subscriber of that delivery gets the text and no
    other connection gets anything. *)
Lemma send_delivery_update_open w k text :
  (forall c, In c (default [] (delivery_subscribers w !! k)) ->
             list_in c (closed w) = false) ->
  send_delivery_update k (Plain text) w =
  (Ok tt,
   with_wire w (map (fun c => (c, text))
                  (default [] (delivery_subscribers w !! k)))).
Proof.
  intros Hopen. unfold send_delivery_update, bind, get. simpl.
  destruct (delivery_subscribers w !! k) as [conns|]; simpl in *.
  - now apply send_to_each_open.
  - now rewrite with_wire_nil.
Qed.

(** A message that cannot be encoded (any message that holds a delivery
    document) reaches nobody: the first subscriber is taken off the lists
    and [TypeError] is raised. *)
Lemma send_delivery_update_not_serializable w k type c rest :
  delivery_subscribers w !! k = Some (c :: rest) ->
  send_delivery_update k (NotSerializable type) w =
  (Raise TypeError, snd (disconnect c (Some k) w)).
Proof.
  intros Hk. unfold send_delivery_update, bind at 1, get. simpl.
  rewrite Hk. simpl.
  unfold bind at 1, try_except, bind at 1. simpl.
  unfold bind, await_None, raise.
  pose proof (disconnect_returns c (Some k) w) as Hr.
  destruct (disconnect c (Some k) w) as [[[]|e] w']; [reflexivity|].
  discriminate Hr.
Qed.

(** C7, what the code does.  When a send fails on a subscriber of the
    delivery, the subscribers before it in the list have got the update,
    the failing one is removed from the subscribers of the delivery, and
    the broadcast ends there with [TypeError] (the handler awaits the
    result of [disconnect], which is [None]): the subscribers after it get
    nothing. *)
Theorem broadcast_stops_at_first_failure :
  forall (w : world) (k : id_text) (text : string)
         (pre : list WebSocket) (c : WebSocket) (post : list WebSocket),
    delivery_subscribers w !! k = Some (pre ++ c :: post) ->
    nonempty k = true ->
    (forall x, In x pre -> list_in x (closed w) = false) ->
    list_in c (closed w) = true ->
    exists w' : world,
      send_delivery_update k (Plain text) w = (Raise TypeError, w') /\
      wire w' = wire w ++ map (fun x => (x, text)) pre /\
      delivery_subscribers w' =
        <[k := list_remove c (pre ++ c :: post)]> (delivery_subscribers w).
Proof.
  intros w k text pre c post Hk Hne Hopen Hc.
  unfold send_delivery_update, bind at 1, get. simpl. rewrite Hk.
  rewrite (send_to_each_closed pre c post k text w Hopen Hc).
  eexists. split; [reflexivity|].
  unfold disconnect, set_manager, bind, get, put. simpl.
  rewrite Hne, Hk, list_in_middle.
  destruct (list_in c (active_connections w)); simpl; split; reflexivity.
Qed.

(** Connections 1 and 2 follow delivery 7, connection 3 follows delivery
    8; the peer of connection 1 is gone. *)
Definition three_connections : world :=
  snd (connect 3%nat (Some (Hex 8%N))
         (snd (connect 2%nat (Some (Hex 7%N))
                 (snd (connect 1%nat (Some (Hex 7%N))
                         (World [] [] [] ∅ [1%nat] [])))))).

(** A run of C7: an update for delivery 7 is broadcast; connection 2,
    whose peer is there, gets nothing. *)
Lemma broadcast_stops_at_first_failure_witness :
  exists w' : world,
    send_delivery_update (Hex 7%N) (Plain "update") three_connections =
      (Raise TypeError, w') /\
    wire w' = wire three_connections ++ map (fun x => (x, "update")) [] /\
    delivery_subscribers w' =
      <[Hex 7%N := list_remove 1%nat ([] ++ 1%nat :: [2%nat])]>
        (delivery_subscribers three_connections).
Proof.
  apply (broadcast_stops_at_first_failure three_connections (Hex 7%N)
           "update" [] 1%nat [2%nat]).
  - vm_compute. reflexivity.
  - reflexivity.
  - intros x [].
  - reflexivity.
Defined.

(** The same run, evaluated: nothing is on the wire, connection 1 is off
    both lists, connection 3 still follows delivery 8. *)
Example broadcast_to_delivery_7 :
  exists w' : world,
    send_delivery_update (Hex 7%N) (Plain "update") three_connections =
      (Raise TypeError, w') /\
    wire w' = [] /\
    delivery_subscribers w' !! Hex 7%N = Some [2%nat] /\
    delivery_subscribers w' !! Hex 8%N = Some [3%nat] /\
    active_connections w' = [2%nat; 3%nat].
Proof.
  eexists. split; [vm_compute; reflexivity|].
  repeat split; vm_compute; reflexivity.
Qed.

Local Open Scope R_scope.

(** A driver of the examples, known by identifier and position. *)
Definition driver_at (o : oid) (latitude longitude : R) : Driver.t :=
  Driver.Build o "driver" "555-0100" "bike" (mkLocation latitude longitude)
    true 4.5.

(** The matcher on three candidates, two of them at the pickup location:
    the first of the two is returned. *)
Example nearest_of_three :
  nearest_of (mkLocation 0 0)
    [driver_at 1%N 3 4; driver_at 2%N 0 0; driver_at 3%N 0 0] =
  Some (driver_at 2%N 0 0).
Proof.
  assert (H1 : distance (mkLocation 0 0) (mkLocation 3 4) = 5).
  { unfold distance. cbn [latitude longitude].
    replace ((0 - 3) ^ 2 + (0 - 4) ^ 2) with (5 * 5) by ring.
    apply sqrt_square. lra. }
  assert (H0 : distance (mkLocation 0 0) (mkLocation 0 0) = 0)
    by apply distance_same.
  unfold nearest_of, nearest_loop, below, driver_at.
  cbn [Driver.current_location]. rewrite H1, H0.
  destruct (Rlt_dec 0 5) as [_|H]; [|exfalso; lra].
  destruct (Rlt_dec 0 0) as [H|_]; [exfalso; lra | reflexivity].
Qed.

Local Close Scope R_scope.

Lemma send_to_each_outcome conns k m w :
  fst (send_to_each conns k m w) = Ok tt \/
  fst (send_to_each conns k m w) = Raise TypeError.
Proof.
  revert w. induction conns as [|c conns IH]; intros w; [now left|].
  pose proof (disconnect_returns c (Some k) w) as Hr.
  simpl. unfold try_except, bind, await_None, raise.
  destruct m as [text|ty]; simpl.
  - unfold send_text, bind, get, put, raise. simpl.
    destruct (list_in c (closed w)); simpl; [|apply IH].
    destruct (disconnect c (Some k) w) as [[[]|e] w1];
      [now right | discriminate Hr].
  - destruct (disconnect c (Some k) w) as [[[]|e] w1];
      [now right | discriminate Hr].
Qed.

Lemma send_delivery_update_outcome k m w :
  fst (send_delivery_update k m w) = Ok tt \/
  fst (send_delivery_update k m w) = Raise TypeError.
Proof.
  unfold send_delivery_update, bind, get. simpl.
  destruct (delivery_subscribers w !! k);
    [apply send_to_each_outcome | now left].
Qed.

(** X2.  [create_delivery] never answers with the delivery: when nothing
    else has raised, the second [serialize_delivery] on the dictionary
    raises [KeyError], and every exception becomes the status 500. *)
Lemma create_delivery_answers_500 w delivery new_id now :
  fst (create_delivery delivery new_id now w) = Raise (HTTPException 500).
Proof.
  destruct w as [drs ds conns subs cl wr].
  unfold create_delivery, find_nearest_driver.
  unfold try_except, bind, get, put, set_deliveries, set_drivers, ret, raise.
  simpl.
  destruct (nearest_of _ _) as [drv|]; simpl;
    match goal with
    | |- context [send_delivery_update ?k ?m ?w0] =>
        destruct (send_delivery_update_outcome k m w0) as [Ho|Ho];
        destruct (send_delivery_update k m w0) as [[[]|e] ?];
        simpl in Ho; try discriminate Ho; try (injection Ho as ->)
    end; reflexivity.
Qed.

(** X3.  [update_delivery_status] never answers with the delivery either:
    the reply is the status 400 when the identifier is malformed, 404
    when it is an identifier and no delivery matches, and 500 in every
    other case, that is, whenever a delivery matches. *)
Lemma update_delivery_status_answers_error w t upd now :
  fst (update_delivery_status t upd now w) =
  Raise (HTTPException
           match t with
           | Malformed _ => 400
           | Hex o =>
               match find_first (delivery_by_id o) (deliveries w) with
               | None => 404
               | Some _ => 500
               end
           end).
Proof.
  destruct w as [drs ds conns subs cl wr].
  destruct t as [o|text]; [|reflexivity].
  unfold update_delivery_status. simpl.
  set (s := DeliveryUpdate.status upd).
  destruct (find_first (delivery_by_id o) ds) as [d|] eqn:Hd.
  - assert (Hid : Delivery._id d = Some o).
    { apply find_first_Some in Hd. destruct Hd as [Hd _].
      now apply bool_decide_eq_true in Hd. }
    assert (Hm : matched_count (delivery_by_id o) ds = 1%nat)
      by (unfold matched_count; now rewrite Hd).
    assert (Hf : find_first (delivery_by_id o)
                   (update_first (delivery_by_id o) (set_status s now) ds) =
                 Some (set_status s now d)).
    { rewrite find_first_update_first by reflexivity. now rewrite Hd. }
    destruct (String.eqb s "picked_up") eqn:E1;
      [|destruct (String.eqb s "delivered") eqn:E2];
      unfold try_except, bind, get, put, set_deliveries, set_drivers, ret,
        raise, ObjectId; simpl; rewrite ?Hd; simpl;
      try (destruct (Delivery.driver_id d) as [[k|[|a text]]|] eqn:Ek; simpl);
      try reflexivity;
      rewrite Hm; simpl; rewrite Hf; simpl; rewrite Hid;
      unfold ret, raise; simpl;
      match goal with
      | |- context [send_delivery_update ?k ?m ?w0] =>
          destruct (send_delivery_update_outcome k m w0) as [Ho|Ho];
          destruct (send_delivery_update k m w0) as [[[]|e] ?];
          simpl in Ho; try discriminate Ho; try (injection Ho as ->)
      end; reflexivity.
  - assert (Hm : matched_count (delivery_by_id o) ds = 0%nat)
      by (unfold matched_count; now rewrite Hd).
    destruct (String.eqb s "picked_up") eqn:E1;
      [|destruct (String.eqb s "delivered") eqn:E2];
      unfold try_except, bind, get, put, set_deliveries, set_drivers, ret,
        raise, ObjectId; simpl; rewrite ?Hd; simpl; rewrite Hm; reflexivity.
Qed.

End ApiFacts.

(** ** The matcher and the ETA in double precision *)

Module ApiDoubleFacts.
Import PrimFloat Double ApiDouble DoubleFacts.

Section Matcher.
Variable pow : float -> float -> float * errno.
Variable pickup_location : Location.

(** The distance the matcher computes for a candidate. *)
Definition away (d : Driver.t) : outcome float :=
  distance pow pickup_location (Driver.current_location d).

(** The loop stops at the first candidate whose distance raises;
    otherwise it keeps what it was given, when no candidate is below the
    distance it was given, or returns the first of the candidates nearest
    by the distances it computed. *)
Lemma nearest_loop_cases (l : list Driver.t) :
  forall (m : float) (n : option Driver.t),
    match nearest_loop pow pickup_location l m n with
    | Ok r =>
        (r = n /\
         List.Forall
           (fun x => exists dx, away x = Ok dx /\ (dx <? m)%float = false) l)
        \/
        (exists before best after dbest,
            l = before ++ best :: after /\
            r = Some best /\
            away best = Ok dbest /\
            (dbest <? m)%float = true /\
            List.Forall
              (fun x => exists dx,
                   away x = Ok dx /\ (dx <=? dbest)%float = false) before /\
            List.Forall
              (fun x => exists dx,
                   away x = Ok dx /\ (dx <? dbest)%float = false) after)
    | Raise e =>
        exists before x after,
          l = before ++ x :: after /\
          away x = Raise e /\
          List.Forall (fun y => exists dy, away y = Ok dy) before
    end.
Proof.
  induction l as [|x l IH]; intros m n; simpl.
  - left. split; [reflexivity | constructor].
  - fold (away x). destruct (away x) as [dx|e] eqn:Ex; simpl.
    2:{ exists [], x, l. repeat split; [exact Ex | constructor]. }
    destruct (dx <? m)%float eqn:Elt.
    + specialize (IH dx (Some x)).
      destruct (nearest_loop pow pickup_location l dx (Some x)) as [r|e].
      * right. destruct IH as [[-> Hall] | (before & best & after & dbest &
                                           -> & -> & Hb & Hlt & Hbef & Haft)].
        -- exists [], x, l, dx. repeat split; try assumption. constructor.
        -- exists (x :: before), best, after, dbest.
           repeat split; try assumption.
           ++ eapply leb_ltb_trans; [apply ltb_leb|]; eassumption.
           ++ constructor; [|assumption].
              exists dx. split; [assumption|]. now apply ltb_not_leb.
      * destruct IH as (before & y & after & -> & Hy & Hbef).
        exists (x :: before), y, after. repeat split; try assumption.
        constructor; [now exists dx | assumption].
    + specialize (IH m n).
      destruct (nearest_loop pow pickup_location l m n) as [r|e].
      * destruct IH as [[-> Hall] | (before & best & after & dbest &
                                     -> & -> & Hb & Hlt & Hbef & Haft)].
        -- left. split; [reflexivity|]. constructor; [|assumption].
           now exists dx.
        -- right. exists (x :: before), best, after, dbest.
           repeat split; try assumption.
           constructor; [|assumption].
           exists dx. split; [assumption|].
           destruct (dx <=? dbest)%float eqn:Ele; [|reflexivity].
           rewrite (leb_ltb_trans _ _ _ Ele Hlt) in Elt. discriminate.
      * destruct IH as (before & y & after & -> & Hy & Hbef).
        exists (x :: before), y, after. repeat split; try assumption.
        constructor; [now exists dx | assumption].
Qed.

End Matcher.

(** A driver document at a place. *)
Definition driver_at (k : oid) (latitude longitude : float) : Driver.t :=
  Driver.Build k "driver" "555-0100" "bike" (mkLocation latitude longitude)
    true 4.5%float.
#[local] Arguments driver_at k%_N (latitude longitude)%_float.
#[local] Arguments mkLocation (latitude longitude)%_float.
#[local] Arguments exact x%_float.

(** C5, as the code has it.  [find_nearest_driver] reads the first 100
    available drivers and leaves the store as it is.  It returns none
    when there are none.  Otherwise it computes for each, in double
    precision, [((lat - driver_lat) ** 2 + (lon - driver_lon) ** 2)
    ** 0.5], and returns the first of those whose computed distance is
    least: every candidate before it has a computed distance that is not
    below or equal to its own, and none after it has one below.  It
    returns none also when no computed distance is below infinity, and it
    raises what the first computation that raises does.  With every
    computed distance below infinity it returns a driver exactly when
    there is a candidate. *)
Theorem nearest_driver_is_first_minimum :
  forall (pow : float -> float -> float * errno)
         (pickup_location : Location) (w : world),
    let drivers := firstn 100 (List.filter Driver.is_available w) in
    let away := fun d : Driver.t =>
      let? north :=
        float_pow pow (latitude pickup_location
                       - latitude (Driver.current_location d))%float
          2%float in
      let? east :=
        float_pow pow (longitude pickup_location
                       - longitude (Driver.current_location d))%float
          2%float in
      float_pow pow (north + east)%float 0.5%float in
    let result := fst (find_nearest_driver pow pickup_location w) in
    snd (find_nearest_driver pow pickup_location w) = w /\
    (drivers = [] -> result = Ok None) /\
    (forall i : id_text,
        result = Ok (Some i) ->
        exists (before : list Driver.t) (best : Driver.t)
               (after : list Driver.t) (dbest : float),
          drivers = before ++ best :: after /\
          i = str (Driver._id best) /\
          away best = Ok dbest /\
          (dbest <? infinity)%float = true /\
          List.Forall
            (fun x => exists dx,
                 away x = Ok dx /\ (dx <=? dbest)%float = false) before /\
          List.Forall
            (fun x => exists dx,
                 away x = Ok dx /\ (dx <? dbest)%float = false) after) /\
    (result = Ok None ->
     List.Forall
       (fun x => exists dx,
            away x = Ok dx /\ (dx <? infinity)%float = false) drivers) /\
    (forall e : exn,
        result = Raise e ->
        exists (before : list Driver.t) (x : Driver.t)
               (after : list Driver.t),
          drivers = before ++ x :: after /\
          away x = Raise e /\
          List.Forall (fun y => exists dy, away y = Ok dy) before) /\
    (List.Forall
       (fun x => exists dx,
            away x = Ok dx /\ (dx <? infinity)%float = true) drivers ->
     (result = Ok None <-> drivers = [])).
Proof.
  intros pow pickup w drivers away0 result.
  assert (Hres : result =
                 match drivers with
                 | [] => Ok None
                 | _ =>
                     let? nearest_driver :=
                       nearest_loop pow pickup drivers infinity None in
                     Ok (option_map (fun d => str (Driver._id d))
                           nearest_driver)
                 end) by reflexivity.
  pose proof (nearest_loop_cases pow pickup drivers infinity None) as Hloop.
  change (away pow pickup) with away0 in Hloop.
  assert (Hres' : result =
                  let? nearest_driver :=
                    nearest_loop pow pickup drivers infinity None in
                  Ok (option_map (fun d => str (Driver._id d))
                        nearest_driver)).
  { rewrite Hres. destruct drivers; reflexivity. }
  clear Hres. split; [reflexivity|].
  generalize dependent result. intros result ->.
  destruct (nearest_loop pow pickup drivers infinity None) as [r|e];
    simpl.
  - destruct Hloop as [[-> Hall] | (before & best & after & dbest &
                                    Hl & -> & Hb & Hlt & Hbef & Haft)].
    + simpl. split; [reflexivity|]. split; [discriminate|].
      split; [intros _; exact Hall|]. split; [discriminate|].
      intros Hfin. split; [|reflexivity]. intros _.
      destruct drivers as [|x l]; [reflexivity|].
      apply List.Forall_inv in Hall. apply List.Forall_inv in Hfin.
      destruct Hall as (dx & E1 & F1). destruct Hfin as (dx' & E2 & F2).
      rewrite E1 in E2. injection E2 as <-. rewrite F1 in F2. discriminate.
    + simpl. split; [intros E; rewrite E in Hl; now destruct before|].
      split.
      { intros i [= <-]. exists before, best, after, dbest.
        repeat split; assumption. }
      split; [discriminate|]. split; [discriminate|].
      intros _. split; [discriminate|].
      intros E. rewrite E in Hl. now destruct before.
  - destruct Hloop as (before & x & after & Hl & Hx & Hbef).
    split; [intros E; rewrite E in Hl; now destruct before|].
    split; [discriminate|]. split; [discriminate|].
    split.
    { intros e' [= <-]. exists before, x, after. repeat split; assumption. }
    intros Hfin. exfalso. rewrite Hl in Hfin.
    apply List.Forall_app in Hfin. destruct Hfin as [_ Hfin].
    apply List.Forall_inv in Hfin. destruct Hfin as (dx & E & _).
    rewrite Hx in E. discriminate.
Qed.

(** C5 as stated fails: the pickup is at (0, 0), driver 1 at
    (1, 2^-27) and driver 2 at (1, 0).  Driver 2 is the nearer one in
    straight-line distance (the squares are 1 and 1 + 2^-54); both
    computed distances are 1.0, and driver 1 is returned. *)
Lemma nearer_driver_is_passed_over :
  find_nearest_driver rounded_pow (mkLocation 0 0)
    [driver_at 1 1 0x1p-27; driver_at 2 1 0] =
    (Ok (Some (str 1%N)), [driver_at 1 1 0x1p-27; driver_at 2 1 0]) /\
  distance rounded_pow (mkLocation 0 0) (mkLocation 1 0x1p-27) = Ok 1%float /\
  distance rounded_pow (mkLocation 0 0) (mkLocation 1 0) = Ok 1%float /\
  ((exact 0 - exact 1) ^ 2 + (exact 0 - exact 0) ^ 2 <
   (exact 0 - exact 1) ^ 2 + (exact 0 - exact 0x1p-27) ^ 2)%Q.
Proof.
  split; [vm_compute; reflexivity|].
  split; [vm_compute; reflexivity|].
  split; [vm_compute; reflexivity|].
  vm_compute. reflexivity.
Qed.

End ApiDoubleFacts.

(** ** Properties that span both variants *)

Module Transitions.
Import AppFacts.

(** C2, as the code has it.  In [DeliveryService], on a store that does
    not fail, moving a delivery with an assigned driver to "delivered" or
    "cancelled" makes that driver available and clears the driver's
    delivery reference, and "delivered" sets [actual_delivery_time] to the
    current time.  In [update_delivery_status] of [src/main.py], "picked_up"
    sets [actual_pickup_time] to the current time, and "delivered" sets
    [actual_delivery_time] to it and makes the assigned driver available. *)
Theorem completion_releases_driver_and_stamps :
  (forall (w : App.world) (o : oid) (d : App.Delivery.t) (k : oid)
          (drv : App.Driver.t) (s : string) (now : Z),
      App.faults w = [] ->
      App.stored o w = Some d ->
      App.Delivery.driver_id d = Some k ->
      App.stored_driver k w = Some drv ->
      s = "delivered" \/ s = "cancelled" ->
      let w' :=
        snd (App.update_delivery (str o) (App.DeliveryUpdate.only_status s)
               now w) in
      exists (drv' : App.Driver.t) (d' : App.Delivery.t),
        App.stored_driver k w' = Some drv' /\
        App.Driver.status drv' = "available" /\
        App.Driver.current_delivery_id drv' = None /\
        App.stored o w' = Some d' /\
        App.Delivery.status d' = s /\
        (s = "delivered" -> App.Delivery.actual_delivery_time d' = Some now))
  /\
  (forall (w : Api.world) (o : oid) (d : Api.Delivery.t)
          (upd : Api.DeliveryUpdate.t) (now : Z),
      find_first (Api.delivery_by_id o) (Api.deliveries w) = Some d ->
      (forall text, Api.Delivery.driver_id d <> Some (Malformed text)) ->
      let s := Api.DeliveryUpdate.status upd in
      let w' := snd (Api.update_delivery_status (Hex o) upd now w) in
      exists d' : Api.Delivery.t,
        find_first (Api.delivery_by_id o) (Api.deliveries w') = Some d' /\
        Api.Delivery.status d' = s /\
        (s = "picked_up" -> Api.Delivery.actual_pickup_time d' = Some now) /\
        (s = "delivered" ->
           Api.Delivery.actual_delivery_time d' = Some now /\
           forall (k : oid) (drv : Api.Driver.t),
             Api.Delivery.driver_id d = Some (Hex k) ->
             find_first (Api.driver_by_id k) (Api.drivers w) = Some drv ->
             find_first (Api.driver_by_id k) (Api.drivers w') =
               Some (Api.Driver.set_is_available true drv))).
Proof.
  split.
  - intros [ds drs fs] o d k drv s now Hf Hd Hk Hdrv Hs.
    unfold App.stored, App.stored_driver in *. simpl in *. subst fs.
    unfold str.
    rewrite (update_delivery_run ds drs o d _ now Hd).
    exists (App.Driver.release drv),
           (updated (App.DeliveryUpdate.only_status s) now d).
    unfold App.stored, App.stored_driver. simpl.
    assert (Hc : App.completes s = true) by (destruct Hs; subst s; reflexivity).
    unfold drivers_after, after_release. simpl. rewrite Hc, Hk.
    rewrite find_first_update_first by reflexivity. rewrite Hdrv.
    split; [reflexivity|]. split; [reflexivity|]. split; [reflexivity|].
    split.
    + rewrite find_first_update_first.
      * now rewrite Hd.
      * intros x. unfold updated. rewrite delivery_by_id_set.
        apply delivery_by_id_before_write.
    + split; [reflexivity|]. intros ->. reflexivity.
  - intros w o d upd now Hd Hk s w'.
    pose proof (ApiFacts.update_delivery_status_db w o d upd now Hd Hk) as Hdb.
    fold s w' in Hdb. unfold ApiFacts.db in Hdb.
    injection Hdb as Hdrs Hds.
    exists (Api.set_status s now d).
    rewrite Hds, find_first_update_first by reflexivity. rewrite Hd.
    split; [reflexivity|]. split; [reflexivity|]. split.
    + intros E. simpl. now rewrite E.
    + intros E. split; [simpl; now rewrite E|].
      intros k drv Ek Hdrv. rewrite Hdrs, E, Ek. simpl.
      rewrite find_first_update_first by reflexivity. now rewrite Hdrv.
Qed.

(** A run of C2: the assigned delivery 7 is delivered. *)
Lemma completion_releases_driver_and_stamps_witness :
  let w := App.serve_all (App.World [] [driver1] [])
             [App.Create order1 7%N 1000] in
  let w' :=
    snd (App.update_delivery (str 7%N)
           (App.DeliveryUpdate.only_status "delivered") 2000 w) in
  exists (drv' : App.Driver.t) (d' : App.Delivery.t),
    App.stored_driver 1%N w' = Some drv' /\
    App.Driver.status drv' = "available" /\
    App.Driver.current_delivery_id drv' = None /\
    App.stored 7%N w' = Some d' /\
    App.Delivery.status d' = "delivered" /\
    ("delivered" = "delivered" ->
     App.Delivery.actual_delivery_time d' = Some 2000).
Proof.
  refine (proj1 completion_releases_driver_and_stamps
            (App.serve_all (App.World [] [driver1] [])
               [App.Create order1 7%N 1000])
            7%N _ 1%N _ "delivered" 2000 _ _ _ _ _).
  - reflexivity.
  - vm_compute. reflexivity.
  - reflexivity.
  - vm_compute. reflexivity.
  - left. reflexivity.
Defined.

(** C2 as stated fails: the delivery 7 is assigned to driver 1 and then
    moved to "failed"; the driver stays busy with the delivery. *)
Lemma failed_delivery_keeps_driver_busy :
  exists (w w' : App.world) (d : App.Delivery.t) (drv : App.Driver.t),
    w = App.serve_all (App.World [] [driver1] [])
          [App.Create order1 7%N 1000] /\
    App.stored 7%N w = Some d /\
    App.Delivery.driver_id d = Some 1%N /\
    w' = snd (App.update_delivery (Hex 7%N)
                (App.DeliveryUpdate.only_status "failed") 2000 w) /\
    (App.Delivery.status <$> App.stored 7%N w') = Some "failed" /\
    App.stored_driver 1%N w' = Some drv /\
    App.Driver.status drv = "busy" /\
    App.Driver.current_delivery_id drv = Some 7%N.
Proof.
  eexists _, _, _, _. split; [reflexivity|].
  split; [vm_compute; reflexivity|].
  split; [reflexivity|].
  split; [reflexivity|].
  split; [vm_compute; reflexivity|].
  split; [vm_compute; reflexivity|].
  split; reflexivity.
Qed.


(** C8, as the code has it.  Releasing a driver who is available and has
    no delivery reference changes nothing (the store reports a match and
    no modification).  Applying the same status to a delivery a second
    time, on a store that does not fail, leaves the drivers, the status
    and the assigned driver as the first application left them, but in
    [DeliveryService] it appends one more history entry, sets [updated_at]
    to the new instant and, for "delivered", sets [actual_delivery_time]
    to it again; in [update_delivery_status] of [src/main.py] it writes
    the delivery as [set_status] makes it at the new instant: [updated_at]
    and the time stamp of the status are set again. *)
Theorem repeated_transition_appends_and_restamps :
  (forall (w : App.world) (k : oid) (drv : App.Driver.t),
      App.faults w = [] ->
      App.stored_driver k w = Some drv ->
      App.Driver.status drv = "available" ->
      App.Driver.current_delivery_id drv = None ->
      App.drivers_update_one (App.driver_by_id k) App.Driver.release w =
      (Ok (mkUpdateResult 1 0), w)) /\
  (forall (w : App.world) (o : oid) (d : App.Delivery.t) (s : string)
          (now1 now2 : Z),
      App.faults w = [] ->
      App.stored o w = Some d ->
      let u := App.DeliveryUpdate.only_status s in
      let w1 := snd (App.update_delivery (str o) u now1 w) in
      let w2 := snd (App.update_delivery (str o) u now2 w1) in
      App.drivers w2 = App.drivers w1 /\
      exists d1 d2 : App.Delivery.t,
        App.stored o w1 = Some d1 /\
        App.stored o w2 = Some d2 /\
        App.Delivery.status d2 = App.Delivery.status d1 /\
        App.Delivery.driver_id d2 = App.Delivery.driver_id d1 /\
        App.Delivery.tracking_history d2 =
          App.Delivery.tracking_history d1 ++ [transition_entry s now2] /\
        App.Delivery.updated_at d2 = now2 /\
        (s = "delivered" ->
         App.Delivery.actual_delivery_time d2 = Some now2)) /\
  (forall (w : Api.world) (o : oid) (d : Api.Delivery.t)
          (upd : Api.DeliveryUpdate.t) (now1 now2 : Z),
      find_first (Api.delivery_by_id o) (Api.deliveries w) = Some d ->
      (forall text, Api.Delivery.driver_id d <> Some (Malformed text)) ->
      let s := Api.DeliveryUpdate.status upd in
      let w1 := snd (Api.update_delivery_status (Hex o) upd now1 w) in
      let w2 := snd (Api.update_delivery_status (Hex o) upd now2 w1) in
      Api.drivers w2 = Api.drivers w1 /\
      exists d1 d2 : Api.Delivery.t,
        find_first (Api.delivery_by_id o) (Api.deliveries w1) = Some d1 /\
        find_first (Api.delivery_by_id o) (Api.deliveries w2) = Some d2 /\
        d2 = Api.set_status s now2 d1 /\
        Api.Delivery.status d2 = Api.Delivery.status d1 /\
        Api.Delivery.updated_at d2 = now2 /\
        (s = "delivered" ->
         Api.Delivery.actual_delivery_time d2 = Some now2)).
Proof.
  split; [|split].
  - intros [ds drs fs] k drv Hf Hdrv Hs Hk. unfold App.stored_driver in Hdrv.
    simpl in *. subst fs. unfold App.drivers_update_one. run.
    unfold matched_count, modified_count. rewrite Hdrv.
    rewrite (release_available drv Hs Hk).
    rewrite decide_True by reflexivity.
    rewrite update_first_fixed; [reflexivity|].
    intros x Hx. rewrite Hdrv in Hx. injection Hx as <-.
    now apply release_available.
  - intros [ds drs fs] o d s now1 now2 Hf Hd u w1 w2.
    unfold App.stored in Hd. simpl in *. subst fs. unfold str in *.
    assert (H1 : w1 = App.World
                       (update_first (App.delivery_by_id o) (updated u now1) ds)
                       (drivers_after u d drs) []).
    { unfold w1. now rewrite (update_delivery_run ds drs o d u now1 Hd). }
    assert (Hd1 : find_first (App.delivery_by_id o) (App.deliveries w1) =
                  Some (updated u now1 d)).
    { rewrite H1. simpl. rewrite find_first_update_first.
      - now rewrite Hd.
      - intros x. unfold updated. rewrite delivery_by_id_set.
        apply delivery_by_id_before_write. }
    assert (H2 : w2 = App.World
                       (update_first (App.delivery_by_id o) (updated u now2)
                          (App.deliveries w1))
                       (drivers_after u (updated u now1 d) (App.drivers w1))
                       []).
    { unfold w2. rewrite H1 in *. simpl in *.
      now rewrite (update_delivery_run _ _ o _ u now2 Hd1). }
    split.
    + rewrite H2, H1. simpl. unfold drivers_after, u. simpl.
      apply after_release_twice. apply updated_driver_id.
    + exists (updated u now1 d), (updated u now2 (updated u now1 d)).
      split; [exact Hd1|]. split.
      { rewrite H2. unfold App.stored. simpl. rewrite find_first_update_first.
        - now rewrite Hd1.
        - intros x. unfold updated. rewrite delivery_by_id_set.
          apply delivery_by_id_before_write. }
      split; [reflexivity|].
      split; [apply updated_driver_id|].
      split; [apply updated_history|].
      split; [reflexivity|].
      intros ->. reflexivity.
  - intros w o d upd now1 now2 Hd Hk s w1 w2.
    pose proof (ApiFacts.update_delivery_status_db w o d upd now1 Hd Hk) as H1.
    fold s w1 in H1. unfold ApiFacts.db in H1. injection H1 as Hdrs1 Hds1.
    assert (Hd1 : find_first (Api.delivery_by_id o) (Api.deliveries w1) =
                  Some (Api.set_status s now1 d)).
    { rewrite Hds1, find_first_update_first by reflexivity. now rewrite Hd. }
    pose proof (ApiFacts.update_delivery_status_db w1 o _ upd now2 Hd1 Hk)
      as H2.
    fold s w2 in H2. unfold ApiFacts.db in H2. injection H2 as Hdrs2 Hds2.
    split.
    + rewrite Hdrs2. simpl Api.Delivery.driver_id.
      destruct (String.eqb s "picked_up"); [reflexivity|].
      destruct (String.eqb s "delivered"); [|reflexivity].
      destruct (Api.Delivery.driver_id d) as [[k|text]|]; try reflexivity.
      rewrite Hdrs1, update_first_twice by reflexivity.
      now apply update_first_ext.
    + exists (Api.set_status s now1 d),
             (Api.set_status s now2 (Api.set_status s now1 d)).
      split; [exact Hd1|]. split.
      { rewrite Hds2, find_first_update_first by reflexivity.
        now rewrite Hd1. }
      split; [reflexivity|]. split; [reflexivity|]. split; [reflexivity|].
      intros E. simpl. now rewrite E.
Qed.

(** A run of C8: delivery 7, assigned to driver 1, is delivered twice. *)
Lemma repeated_transition_appends_and_restamps_witness :
  let w := App.serve_all (App.World [] [driver1] [])
             [App.Create order1 7%N 1000] in
  let u := App.DeliveryUpdate.only_status "delivered" in
  let w1 := snd (App.update_delivery (str 7%N) u 2000 w) in
  let w2 := snd (App.update_delivery (str 7%N) u 3000 w1) in
  App.drivers w2 = App.drivers w1 /\
  exists d1 d2 : App.Delivery.t,
    App.stored 7%N w1 = Some d1 /\
    App.stored 7%N w2 = Some d2 /\
    App.Delivery.status d2 = App.Delivery.status d1 /\
    App.Delivery.driver_id d2 = App.Delivery.driver_id d1 /\
    App.Delivery.tracking_history d2 =
      App.Delivery.tracking_history d1 ++ [transition_entry "delivered" 3000]
    /\
    App.Delivery.updated_at d2 = 3000 /\
    ("delivered" = "delivered" ->
     App.Delivery.actual_delivery_time d2 = Some 3000).
Proof.
  refine (proj1 (proj2 repeated_transition_appends_and_restamps)
            (App.serve_all (App.World [] [driver1] [])
               [App.Create order1 7%N 1000])
            7%N _ "delivered" 2000 3000 _ _).
  - reflexivity.
  - vm_compute. reflexivity.
Defined.

(** C8 as stated fails: delivery 7 is delivered twice, both times at the
    instant 2000.  The second application leaves a different state: the
    history has a third entry. *)
Lemma second_delivered_changes_state :
  exists (w1 w2 : App.world) (d1 d2 : App.Delivery.t),
    w1 = snd (App.update_delivery (Hex 7%N)
                (App.DeliveryUpdate.only_status "delivered") 2000
                (App.serve_all (App.World [] [driver1] [])
                   [App.Create order1 7%N 1000])) /\
    w2 = snd (App.update_delivery (Hex 7%N)
                (App.DeliveryUpdate.only_status "delivered") 2000 w1) /\
    App.stored 7%N w1 = Some d1 /\
    App.stored 7%N w2 = Some d2 /\
    map App.event (App.Delivery.tracking_history d1) =
      ["created"; "delivered"] /\
    map App.event (App.Delivery.tracking_history d2) =
      ["created"; "delivered"; "delivered"] /\
    App.deliveries w2 <> App.deliveries w1.
Proof.
  eexists _, _, _, _. split; [reflexivity|]. split; [reflexivity|].
  split; [vm_compute; reflexivity|].
  split; [vm_compute; reflexivity|].
  split; [reflexivity|]. split; [reflexivity|].
  vm_compute. discriminate.
Qed.

End Transitions.

(** ** The estimated delivery time *)

Module EtaFacts.
Import AppFacts.

(** [DeliveryService.create_delivery] with a driver free: the delivery
    is stored assigned to the first available driver, with the current
    time plus 30 minutes as its estimated delivery time. *)
Lemma create_delivery_stores_half_an_hour
    (w : App.world) (delivery_data : App.DeliveryData.t) (new_id : oid)
    (now : Z) (driver : App.Driver.t) :
  App.faults w = [] ->
  App.stored new_id w = None ->
  find_first App.Driver.available (App.drivers w) = Some driver ->
  exists d' : App.Delivery.t,
    App.stored new_id
      (snd (App.create_delivery delivery_data new_id now w)) = Some d' /\
    App.Delivery.status d' = "assigned" /\
    App.Delivery.driver_id d' = Some (App.Driver._id driver) /\
    App.Delivery.estimated_delivery_time d' = Some (now + minutes 30).
Proof.
  destruct w as [ds drs fs]. intros Hf Hnew Hdrv.
  unfold App.stored in *. simpl in *. subst fs.
  unfold App.create_delivery, App.find_available_driver,
    App.add_tracking_event.
  unfold_store. run. rewrite Hdrv. simpl. rewrite Hnew. simpl.
  rewrite update_first_app, Hnew. simpl.
  fold (App.delivery_by_id new_id).
  rewrite find_first_app, Hnew.
  set (d0 := App.Delivery.assign _ _ _).
  assert (Hid : App.delivery_by_id new_id d0 = true)
    by (apply bool_decide_eq_true_2; reflexivity).
  rewrite Hid. simpl.
  exists (App.Delivery.push_tracking (created now) d0).
  split; [|repeat split].
  now rewrite delivery_by_id_push, Hid.
Qed.

Import PrimFloat.



End EtaFacts.


(** ** What no operation of [DeliveryService] undoes *)

Module AppInvariants.
Import App AppFacts.

(** *** Relations every run respects, whatever the store does *)

Section Related.
Variable R : world -> world -> Prop.
Hypothesis R_refl : forall w, R w w.
Hypothesis R_trans : forall w1 w2 w3, R w1 w2 -> R w2 w3 -> R w1 w3.
Hypothesis R_faults :
  forall ds drs fs fs', R (World ds drs fs) (World ds drs fs').
Hypothesis R_push :
  forall o ev w,
    R w (World (update_first (delivery_by_id o) (Delivery.push_tracking ev)
                  (deliveries w)) (drivers w) (faults w)).
Hypothesis R_stamp :
  forall o t w,
    R w (World (update_first (delivery_by_id o)
                  (Delivery.set_actual_delivery_time t) (deliveries w))
           (drivers w) (faults w)).
Hypothesis R_set :
  forall o u t w,
    R w (World (update_first (delivery_by_id o) (set_fields u t)
                  (deliveries w)) (drivers w) (faults w)).
Hypothesis R_reserve :
  forall k o w,
    R w (World (deliveries w)
           (update_first (driver_by_id k) (Driver.reserve o) (drivers w))
           (faults w)).
Hypothesis R_release :
  forall k w,
    R w (World (deliveries w)
           (update_first (driver_by_id k) Driver.release (drivers w))
           (faults w)).
Hypothesis R_insert :
  forall d w,
    find_first (delivery_by_id (Delivery._id d)) (deliveries w) = None ->
    R w (World (deliveries w ++ [d]) (drivers w) (faults w)).

Definition related {A} (m : program A) : Prop := forall w, R w (snd (m w)).

Lemma related_ret {A} (a : A) : related (ret a).
Proof. intros w. apply R_refl. Qed.

Lemma related_raise {A} e : related (@raise world A e).
Proof. intros w. apply R_refl. Qed.

Lemma related_bind {A B} (m : program A) (k : A -> program B) :
  related m -> (forall a, related (k a)) -> related (bind m k).
Proof.
  intros Hm Hk w. unfold bind. specialize (Hm w).
  destruct (m w) as [[a|e] w']; simpl in *; [|exact Hm].
  eapply R_trans; [exact Hm | apply Hk].
Qed.

Lemma related_try {A} (m : program A) (h : exn -> program A) :
  related m -> (forall e, related (h e)) -> related (try_except m h).
Proof.
  intros Hm Hh w. unfold try_except. specialize (Hm w).
  destruct (m w) as [[a|e] w']; simpl in *; [exact Hm|].
  eapply R_trans; [exact Hm | apply Hh].
Qed.

Lemma related_store_call {A} (op : world -> A * world) :
  (forall w, R w (snd (op w))) -> related (store_call op).
Proof.
  intros Hop [ds drs fs]. unfold store_call. simpl.
  destruct fs as [|[] fs]; simpl.
  - specialize (Hop (World ds drs [])). now destruct (op _).
  - apply R_faults.
  - eapply R_trans; [apply (R_faults ds drs _ fs)|].
    specialize (Hop (World ds drs fs)). now destruct (op _).
Qed.

Lemma related_ObjectId t : related (ObjectId t).
Proof. destruct t; [apply related_ret | apply related_raise]. Qed.

Lemma related_deliveries_find_one p : related (deliveries_find_one p).
Proof. apply related_store_call. intros w. apply R_refl. Qed.

Lemma related_drivers_find_one p : related (drivers_find_one p).
Proof. apply related_store_call. intros w. apply R_refl. Qed.

Lemma related_deliveries_insert_one d : related (deliveries_insert_one d).
Proof.
  intros [ds drs fs]. unfold deliveries_insert_one, bind, store_call. simpl.
  destruct fs as [|[] fs]; simpl.
  - destruct (find_first _ ds) eqn:E; simpl; [apply R_refl|].
    now apply (R_insert d (World ds drs [])).
  - apply R_faults.
  - destruct (find_first _ ds) eqn:E; simpl; [apply R_faults|].
    eapply R_trans; [apply (R_faults ds drs _ fs)|].
    now apply (R_insert d (World ds drs fs)).
Qed.

Lemma related_add_tracking_event t ev descr now :
  related (add_tracking_event t ev descr now).
Proof.
  unfold add_tracking_event. apply related_try; [|intros; apply related_ret].
  apply related_bind; [apply related_ObjectId|]. intros o.
  apply related_bind; [|intros; apply related_ret].
  apply related_store_call. intros w. apply R_push.
Qed.

Lemma related_get_delivery t : related (get_delivery t).
Proof.
  unfold get_delivery. apply related_try; [|intros; apply related_ret].
  apply related_bind; [apply related_ObjectId|]. intros o.
  apply related_deliveries_find_one.
Qed.

Lemma related_handle_status_change t s now :
  related (handle_status_change t s now).
Proof.
  unfold handle_status_change.
  apply related_bind; [apply related_add_tracking_event|]. intros _.
  apply related_bind.
  - destruct (completes s); [|apply related_ret].
    apply related_bind; [apply related_get_delivery|].
    intros [d|]; [|apply related_ret].
    destruct (Delivery.driver_id d) as [k|]; [|apply related_ret].
    apply related_bind; [apply related_ObjectId|]. intros o.
    apply related_bind; [|intros; apply related_ret].
    apply related_store_call. intros w. apply R_release.
  - intros _. destruct (String.eqb s "delivered"); [|apply related_ret].
    apply related_bind; [apply related_ObjectId|]. intros o.
    apply related_bind; [|intros; apply related_ret].
    apply related_store_call. intros w. apply R_stamp.
Qed.

Lemma related_update_delivery t u now : related (update_delivery t u now).
Proof.
  unfold update_delivery.
  apply related_try; [|intros; apply related_ret].
  apply related_bind.
  - destruct (DeliveryUpdate.status u);
      [apply related_handle_status_change | apply related_ret].
  - intros _. apply related_bind; [apply related_ObjectId|]. intros o.
    apply related_bind.
    + apply related_store_call. intros w. apply R_set.
    + intros r. destruct (0 <? res_modified r)%nat;
        [apply related_get_delivery | apply related_ret].
Qed.

Lemma related_create_delivery data new_id now :
  related (create_delivery data new_id now).
Proof.
  unfold create_delivery, find_available_driver.
  apply related_bind; [apply related_drivers_find_one|]. intros drv.
  apply related_bind.
  - destruct drv; [|apply related_ret].
    apply related_bind; [|intros; apply related_ret].
    apply related_store_call. intros w. apply R_reserve.
  - intros d. apply related_bind; [apply related_deliveries_insert_one|].
    intros _. apply related_bind; [apply related_add_tracking_event|].
    intros; apply related_ret.
Qed.

Lemma related_serve_all rs : forall w, R w (serve_all w rs).
Proof.
  induction rs as [|r rs IH]; intros w; simpl; [apply R_refl|].
  eapply R_trans; [|apply IH].
  destruct r as [data new_id now | t u now]; simpl.
  - apply related_create_delivery.
  - apply related_update_delivery.
Qed.
End Related.

(** A stored delivery and what an operation has made of it: the same
    identifier, order, driver and creation time, and a history with
    entries added at its end only. *)
Definition grows (d d' : Delivery.t) : Prop :=
  Delivery._id d' = Delivery._id d /\
  Delivery.order_id d' = Delivery.order_id d /\
  Delivery.driver_id d' = Delivery.driver_id d /\
  Delivery.created_at d' = Delivery.created_at d /\
  exists more : list tracking_event,
    Delivery.tracking_history d' = Delivery.tracking_history d ++ more.

(** A collection and what an operation has made of it: every delivery is
    still there, in its place, grown; new ones come after. *)
Definition extended (ds ds' : list Delivery.t) : Prop :=
  exists front tail : list Delivery.t,
    ds' = front ++ tail /\ Forall2 grows ds front.

Lemma grows_refl d : grows d d.
Proof. repeat split. exists []. now rewrite app_nil_r. Qed.

Lemma grows_trans d1 d2 d3 : grows d1 d2 -> grows d2 d3 -> grows d1 d3.
Proof.
  intros (A1 & A2 & A3 & A4 & m1 & A5) (B1 & B2 & B3 & B4 & m2 & B5).
  repeat split; try congruence.
  exists (m1 ++ m2). rewrite B5, A5. now rewrite app_assoc.
Qed.

Lemma Forall2_grows_refl ds : Forall2 grows ds ds.
Proof. induction ds; constructor; auto using grows_refl. Qed.

Lemma extended_refl ds : extended ds ds.
Proof.
  exists ds, []. split; [now rewrite app_nil_r | apply Forall2_grows_refl].
Qed.

Lemma Forall2_grows_trans l1 l2 l3 :
  Forall2 grows l1 l2 -> Forall2 grows l2 l3 -> Forall2 grows l1 l3.
Proof.
  intros H. revert l3. induction H as [|a b l1 l2 Hab H IH]; intros l3 H3.
  - inversion H3. constructor.
  - inversion H3 as [|? c ? l3' Hbc H3']; subst. constructor.
    + eapply grows_trans; eauto.
    + auto.
Qed.

Lemma extended_trans l1 l2 l3 :
  extended l1 l2 -> extended l2 l3 -> extended l1 l3.
Proof.
  intros (f1 & t1 & -> & H1) (f2 & t2 & -> & H2).
  apply Forall2_app_inv_l in H2.
  destruct H2 as (f2a & f2b & Ha & Hb & ->).
  exists f2a, (f2b ++ t2). split; [now rewrite app_assoc|].
  eapply Forall2_grows_trans; eauto.
Qed.

Lemma extended_update p f ds :
  (forall d, grows d (f d)) -> extended ds (update_first p f ds).
Proof.
  intros Hf. exists (update_first p f ds), [].
  split; [now rewrite app_nil_r|].
  induction ds as [|d ds IH]; simpl; [constructor|].
  destruct (p d); constructor; auto using grows_refl, Forall2_grows_refl.
Qed.

Lemma extended_insert ds d : extended ds (ds ++ [d]).
Proof. exists ds, [d]. split; [reflexivity | apply Forall2_grows_refl]. Qed.

Lemma grows_push ev d : grows d (Delivery.push_tracking ev d).
Proof. repeat split. now exists [ev]. Qed.

Lemma grows_stamp t d : grows d (Delivery.set_actual_delivery_time t d).
Proof. repeat split. exists []. simpl. now rewrite app_nil_r. Qed.

Lemma grows_set u t d : grows d (set_fields u t d).
Proof. repeat split. exists []. simpl. now rewrite app_nil_r. Qed.

(** X4.  For updates whose [update_data] holds keys of
    [models.DeliveryUpdate] only ([status], [current_location],
    [delivery_proof], [customer_notes], [driver_notes]: what a [request]
    carries), and whatever the store does: no sequence of
    [create_delivery] and [update_delivery] calls removes a delivery,
    moves it, or changes its identifier, order, driver or creation time;
    and the tracking history of every delivery only gets entries added at
    its end.  ([update_delivery] hands [update_data] to [$set] as it is:
    a dictionary with a key such as [driver_id] overwrites that field,
    and is not a [request].) *)
Theorem deliveries_only_grow :
  forall (w : world) (rs : list request),
    exists front tail : list Delivery.t,
      deliveries (serve_all w rs) = front ++ tail /\
      Forall2
        (fun d d' =>
           Delivery._id d' = Delivery._id d /\
           Delivery.order_id d' = Delivery.order_id d /\
           Delivery.driver_id d' = Delivery.driver_id d /\
           Delivery.created_at d' = Delivery.created_at d /\
           exists more : list tracking_event,
             Delivery.tracking_history d' =
             Delivery.tracking_history d ++ more)
        (deliveries w) front.
Proof.
  intros w rs. change (extended (deliveries w) (deliveries (serve_all w rs))).
  apply (related_serve_all
           (fun w w' => extended (deliveries w) (deliveries w'))); simpl;
    intros; eauto using extended_refl, extended_trans, extended_insert,
      extended_update, grows_push, grows_stamp, grows_set.
Qed.

Lemma map_update_first {A B} (g : A -> B) p f (l : list A) :
  (forall x, g (f x) = g x) -> map g (update_first p f l) = map g l.
Proof.
  intros Hg. induction l as [|x l IH]; simpl; [reflexivity|].
  destruct (p x); simpl; [now rewrite Hg | now rewrite IH].
Qed.

Lemma find_first_absent_id o ds :
  find_first (delivery_by_id o) ds = None -> ~ In o (map Delivery._id ds).
Proof.
  intros Hn Hin. apply in_map_iff in Hin. destruct Hin as (d & Hd & Hin).
  apply (find_first_None _ _ d Hn) in Hin.
  unfold delivery_by_id in Hin. apply bool_decide_eq_false in Hin. auto.
Qed.

(** X5.  Whatever the store does, a sequence of [create_delivery] and
    [update_delivery] calls keeps the identifiers of the stored
    deliveries distinct. *)
Theorem delivery_ids_stay_unique :
  forall (w : world) (rs : list request),
    NoDup (map Delivery._id (deliveries w)) ->
    NoDup (map Delivery._id (deliveries (serve_all w rs))).
Proof.
  intros w rs.
  apply (related_serve_all
           (fun w w' => NoDup (map Delivery._id (deliveries w)) ->
                        NoDup (map Delivery._id (deliveries w')))); simpl;
    try (intros; rewrite map_update_first by reflexivity); auto.
  intros d w0 Hnew Hnd. rewrite map_app. simpl.
  apply NoDup_app. split; [exact Hnd|]. split.
  - intros x Hx Hk. apply list_elem_of_singleton in Hk. subst x.
    apply list_elem_of_In in Hx. now apply (find_first_absent_id _ _ Hnew).
  - apply NoDup_singleton.
Qed.

(** A store with two drivers, the second free and on line, and three
    requests: two orders, then the delivery of the first. *)
Definition two_drivers : world :=
  World []
    [Driver.Build 1%N "Ada" "555-0101" None "offline" false None None;
     Driver.Build 2%N "Bob" "555-0102" None "available" true None None]
    [].

Definition an_order (order_id : string) : DeliveryData.t :=
  DeliveryData.Build (Some order_id) (Some "customer-1")
    (Some "restaurant-1") [] [] None None.

Definition three_requests : list request :=
  [Create (an_order "order-1") 7%N 1000;
   Create (an_order "order-2") 8%N 2000;
   Update (Hex 7%N) (DeliveryUpdate.only_status "delivered") 3000].

(** A run of X5. *)
Lemma delivery_ids_stay_unique_witness :
  NoDup (map Delivery._id (deliveries (serve_all two_drivers three_requests))).
Proof.
  apply (delivery_ids_stay_unique two_drivers three_requests).
  simpl. constructor.
Defined.

(** *** The drivers *)

(** A stored driver and what an operation has made of it: everything but
    [status] and [current_delivery_id] is as it was. *)
Definition same_driver (a b : Driver.t) : Prop :=
  Driver._id b = Driver._id a /\
  Driver.name b = Driver.name a /\
  Driver.phone b = Driver.phone a /\
  Driver.vehicle_info b = Driver.vehicle_info a /\
  Driver.is_online b = Driver.is_online a /\
  Driver.current_location b = Driver.current_location a.

Lemma same_driver_refl a : same_driver a a.
Proof. repeat split. Qed.

Lemma same_drivers_refl l : Forall2 same_driver l l.
Proof. induction l; constructor; auto using same_driver_refl. Qed.

Lemma same_drivers_trans l1 l2 l3 :
  Forall2 same_driver l1 l2 -> Forall2 same_driver l2 l3 ->
  Forall2 same_driver l1 l3.
Proof.
  intros H. revert l3. induction H as [|a b l1 l2 Hab H IH]; intros l3 H3.
  - inversion H3. constructor.
  - inversion H3 as [|? c ? l3' Hbc H3']; subst. constructor; [|auto].
    unfold same_driver in *. intuition congruence.
Qed.

Lemma same_drivers_update p f l :
  (forall a, same_driver a (f a)) -> Forall2 same_driver l (update_first p f l).
Proof.
  intros Hf. induction l as [|a l IH]; simpl; [constructor|].
  destruct (p a); constructor;
    auto using same_driver_refl, same_drivers_refl.
Qed.

(** X6.  Whatever the store does, no sequence of [create_delivery] and
    [update_delivery] calls adds or removes a driver, and of a driver it
    changes nothing but [status] and [current_delivery_id]. *)
Theorem drivers_only_change_status :
  forall (w : world) (rs : list request),
    Forall2
      (fun a b =>
         Driver._id b = Driver._id a /\
         Driver.name b = Driver.name a /\
         Driver.phone b = Driver.phone a /\
         Driver.vehicle_info b = Driver.vehicle_info a /\
         Driver.is_online b = Driver.is_online a /\
         Driver.current_location b = Driver.current_location a)
      (drivers w) (drivers (serve_all w rs)).
Proof.
  intros w rs.
  apply (related_serve_all
           (fun w w' => Forall2 same_driver (drivers w) (drivers w'))); simpl;
    intros; eauto using same_drivers_refl, same_drivers_trans.
  - apply same_drivers_update. intros a. repeat split.
  - apply same_drivers_update. intros a. repeat split.
Qed.

End AppInvariants.

(** ** Programs that return *)

Section ProgFacts.
Context {W A B : Type}.

Lemma bind_eq (m : prog W A) (k : A -> prog W B) w :
  bind m k w =
  match m w with (Ok a, w') => k a w' | (Raise e, w') => (Raise e, w') end.
Proof. reflexivity. Qed.

Lemma bind_Ok (m : prog W A) (k : A -> prog W B) w b w' :
  bind m k w = (Ok b, w') ->
  exists a w1, m w = (Ok a, w1) /\ k a w1 = (Ok b, w').
Proof.
  unfold bind. destruct (m w) as [[a|e] w1]; [|discriminate].
  intros Hk. now exists a, w1.
Qed.

End ProgFacts.

(** ** Drivers and their assignment *)

Module AppAssignment.
Import App AppFacts AppQueries AppInvariants.

Lemma store_call_Ok {A} (op : world -> A * world) w a w' :
  store_call op w = (Ok a, w') ->
  exists fs, op (World (deliveries w) (drivers w) fs) = (a, w').
Proof.
  destruct w as [ds drs fs]. unfold store_call. simpl.
  destruct fs as [|[] fs]; simpl.
  - destruct (op _) as [a1 w1] eqn:E. intros [= <- <-]. now exists [].
  - discriminate.
  - destruct (op _) as [a1 w1] eqn:E. intros [= <- <-]. now exists fs.
Qed.

Lemma add_tracking_event_drivers t ev descr now w :
  drivers (snd (add_tracking_event t ev descr now w)) = drivers w.
Proof.
  destruct w as [ds drs fs]. unfold add_tracking_event.
  destruct t as [o|s]; [|reflexivity]. unfold_store. run.
  destruct fs as [|[] fs]; reflexivity.
Qed.

Lemma find_first_unique (l : list Driver.t) x :
  NoDup (map Driver._id l) -> In x l ->
  find_first (driver_by_id (Driver._id x)) l = Some x.
Proof.
  induction l as [|y l IH]; simpl; [contradiction|].
  intros Hnd Hin. apply NoDup_cons in Hnd. destruct Hnd as [Hy Hnd].
  unfold driver_by_id at 1. destruct (decide (Driver._id y = Driver._id x)) as [E|E].
  - rewrite bool_decide_eq_true_2 by exact E.
    destruct Hin as [->|Hin]; [reflexivity|]. exfalso. apply Hy.
    rewrite E. apply list_elem_of_In. now apply in_map.
  - rewrite bool_decide_eq_false_2 by exact E.
    destruct Hin as [->|Hin]; [now destruct E | now apply IH].
Qed.

(** What [create_delivery] has done when it returns. *)
Lemma create_delivery_Ok data new_id now w d w' :
  create_delivery data new_id now w = (Ok d, w') ->
  stored new_id w = None /\
  match find_first Driver.available (drivers w) with
  | Some drv =>
      d = Delivery.assign (Driver._id drv) (now + minutes 30)
            (pending_delivery data new_id now) /\
      drivers w' =
        update_first (driver_by_id (Driver._id drv))
          (Driver.reserve new_id) (drivers w)
  | None => d = pending_delivery data new_id now /\ drivers w' = drivers w
  end.
Proof.
  unfold create_delivery, find_available_driver, drivers_find_one. intros H.
  apply bind_Ok in H. destruct H as (drv & w1 & Hfind & H).
  apply store_call_Ok in Hfind. destruct Hfind as (fs1 & [= <- <-]).
  apply bind_Ok in H. destruct H as (d1 & w2 & Hres & H).
  apply bind_Ok in H. destruct H as ([] & w3 & Hins & H).
  apply bind_Ok in H. destruct H as ([] & w4 & Hev & [= <- <-]).
  pose proof (add_tracking_event_drivers (str (Delivery._id d1)) "created"
                "Delivery created" now w3) as Hdrs.
  rewrite Hev in Hdrs. simpl in Hdrs.
  unfold deliveries_insert_one in Hins.
  apply bind_Ok in Hins. destruct Hins as (present & w5 & Hlook & Hins).
  apply store_call_Ok in Hlook. destruct Hlook as (fs3 & [= <- <-]).
  destruct (find_first (delivery_by_id (Delivery._id d1)) (deliveries w2))
    as [x|] eqn:Hnew; [discriminate|].
  injection Hins as <-. simpl in Hdrs.
  destruct (find_first Driver.available (drivers w)) as [drv|] eqn:Hdrv.
  - apply bind_Ok in Hres. destruct Hres as (r & w6 & Hupd & [= <- <-]).
    apply store_call_Ok in Hupd. destruct Hupd as (fs2 & [= _ <-]).
    simpl in *. unfold stored. auto.
  - injection Hres as <- <-. simpl in *. unfold stored. auto.
Qed.

(** X7.  A driver [create_delivery] gives to a delivery is reserved by the
    time it returns: where the drivers have distinct identifiers, the
    driver of the delivery returned was free and on line before, is stored
    as "busy" with [current_delivery_id] the new delivery afterwards, and
    is not the driver the next search for an available driver finds. *)
Theorem assigned_driver_is_reserved :
  forall (data : DeliveryData.t) (new_id : oid) (now : Z) (w w' : world)
         (d : Delivery.t) (k : oid),
    NoDup (map Driver._id (drivers w)) ->
    create_delivery data new_id now w = (Ok d, w') ->
    Delivery.driver_id d = Some k ->
    (exists drv : Driver.t,
        stored_driver k w = Some drv /\
        Driver.available drv = true /\
        stored_driver k w' = Some (Driver.reserve new_id drv)) /\
    (forall drv' : Driver.t,
        find_first Driver.available (drivers w') = Some drv' ->
        Driver._id drv' <> k).
Proof.
  intros data new_id now w w' d k Hnd Hrun Hk.
  apply create_delivery_Ok in Hrun. destruct Hrun as [_ Hrun].
  destruct (find_first Driver.available (drivers w)) as [drv|] eqn:Hdrv;
    destruct Hrun as [-> Hdrs]; [|discriminate].
  injection Hk as <-.
  apply find_first_Some in Hdrv. destruct Hdrv as [Hav Hin].
  pose proof (find_first_unique _ _ Hnd Hin) as Hst.
  assert (Hst' : stored_driver (Driver._id drv) w' =
                 Some (Driver.reserve new_id drv)).
  { unfold stored_driver. rewrite Hdrs.
    rewrite find_first_update_first by reflexivity. now rewrite Hst. }
  split; [now exists drv|].
  intros drv' Hfree Hid.
  apply find_first_Some in Hfree. destruct Hfree as [Hav' Hin'].
  assert (Hnd' : NoDup (map Driver._id (drivers w'))).
  { rewrite Hdrs, map_update_first by reflexivity. exact Hnd. }
  pose proof (find_first_unique _ _ Hnd' Hin') as Hst2.
  rewrite Hid in Hst2. unfold stored_driver in Hst'.
  rewrite Hst' in Hst2. injection Hst2 as <-. discriminate Hav'.
Qed.

(** A run of X7: the first order takes the one free driver. *)
Lemma assigned_driver_is_reserved_witness :
  (exists drv : Driver.t,
      stored_driver 2%N two_drivers = Some drv /\
      Driver.available drv = true /\
      stored_driver 2%N (serve two_drivers (Create (an_order "order-1") 7%N 1000))
        = Some (Driver.reserve 7%N drv)) /\
  (forall drv' : Driver.t,
      find_first Driver.available
        (drivers (serve two_drivers (Create (an_order "order-1") 7%N 1000)))
        = Some drv' ->
      Driver._id drv' <> 2%N).
Proof.
  refine (assigned_driver_is_reserved (an_order "order-1") 7%N 1000
            two_drivers _ _ 2%N _ _ _).
  - apply (bool_decide_unpack _). vm_compute. reflexivity.
  - vm_compute. reflexivity.
  - reflexivity.
Defined.

(** X8.  [create_delivery] reserves the driver before it inserts the
    delivery and undoes nothing: when the store fails on the insert the
    exception reaches the caller, no delivery is stored, and the driver
    found stays "busy", reserved for a delivery that does not exist. *)
Theorem failed_insert_leaves_driver_reserved :
  forall (data : DeliveryData.t) (new_id : oid) (now : Z)
         (ds : list Delivery.t) (drs : list Driver.t) (fs : list bool)
         (drv : Driver.t),
    find_first Driver.available drs = Some drv ->
    create_delivery data new_id now (World ds drs (false :: false :: true :: fs))
    = (Raise StoreFailure,
       World ds
         (update_first (driver_by_id (Driver._id drv)) (Driver.reserve new_id)
            drs) fs).
Proof.
  intros data new_id now ds drs fs drv Hdrv.
  unfold create_delivery, find_available_driver. unfold_store. run.
  rewrite Hdrv. reflexivity.
Qed.

(** A run of X8. *)
Lemma failed_insert_leaves_driver_reserved_witness :
  create_delivery (an_order "order-1") 7%N 1000
    (World [] (drivers two_drivers) [false; false; true])
  = (Raise StoreFailure,
     World []
       [Driver.Build 1%N "Ada" "555-0101" None "offline" false None None;
        Driver.Build 2%N "Bob" "555-0102" None "busy" true None (Some 7%N)]
       []).
Proof.
  apply (failed_insert_leaves_driver_reserved (an_order "order-1") 7%N 1000 []
           (drivers two_drivers) []
           (Driver.Build 2%N "Bob" "555-0102" None "available" true None None)).
  reflexivity.
Defined.

(** X9.  On a store that does not fail, [get_available_drivers] lists the
    drivers that are "available" and on line, in the order of the
    collection; the driver [find_available_driver] finds (and
    [create_delivery] assigns) is the first of that list, and the figure
    [available_drivers] of the statistics is its length. *)
Theorem available_drivers_agree :
  forall (ds : list Delivery.t) (drs : list Driver.t) (pickup : subdoc),
    let w := World ds drs [] in
    exists (l : list driver_summary) (found : option Driver.t),
      get_available_drivers w = (Ok l, w) /\
      find_available_driver pickup w = (Ok found, w) /\
      hd_error l = option_map summary found /\
      l = map summary (List.filter Driver.available drs) /\
      (forall st : statistics,
          fst (get_delivery_statistics w) = Ok (Figures st) ->
          available_drivers st = length l).
Proof.
  intros ds drs pickup w.
  exists (map summary (List.filter Driver.available drs)),
         (find_first Driver.available drs).
  split; [reflexivity|]. split; [reflexivity|]. split.
  - induction drs as [|x drs IH]; simpl; [reflexivity|].
    destruct (Driver.available x); [reflexivity | exact IH].
  - split; [reflexivity|]. intros st. unfold w.
    rewrite get_delivery_statistics_run. simpl. rewrite length_map.
    destruct (List.filter is_delivered ds);
      [|destruct (delivered_times ds)]; intros [= <-]; reflexivity.
Qed.

End AppAssignment.

(** ** The read operations of [DeliveryService] *)

Module AppQueriesFacts.
Import App AppFacts AppQueries AppInvariants AppAssignment.

Lemma page_length {A} (skip limit : nat) (l : list A) :
  limit <> 0%nat -> (length (page skip limit l) <= limit)%nat.
Proof.
  intros Hl. unfold page. destruct limit; [now destruct Hl|].
  rewrite length_firstn. lia.
Qed.

Lemma page_In {A} (skip limit : nat) (l : list A) x :
  In x (page skip limit l) -> In x l.
Proof.
  unfold page. intros Hx.
  assert (Hs : In x (skipn skip l)).
  { destruct limit; [exact Hx|].
    rewrite <- (firstn_skipn (S limit) (skipn skip l)).
    apply in_or_app. now left. }
  rewrite <- (firstn_skipn skip l). apply in_or_app. now right.
Qed.

Lemma page_app {A} (skip n m : nat) (l : list A) :
  n <> 0%nat -> m <> 0%nat ->
  page skip n l ++ page (skip + n) m l = page skip (n + m) l.
Proof.
  intros Hn Hm. unfold page.
  destruct n as [|n]; [now destruct Hn|].
  destruct m as [|m]; [now destruct Hm|].
  replace (S n + S m)%nat with (S (n + S m)) by lia.
  replace (skip + S n)%nat with (S n + skip)%nat by lia.
  rewrite <- (skipn_skipn (S n) skip l).
  set (r := skipn skip l).
  rewrite <- (firstn_skipn (S n) (firstn (S (n + S m)) r)).
  rewrite firstn_firstn. replace (Nat.min (S n) (S (n + S m))) with (S n) by lia.
  f_equal. rewrite skipn_firstn_comm.
  now replace (S (n + S m) - S n)%nat with (S m) by lia.
Qed.

(** X10.  What [get_deliveries] returns are stored deliveries that pass
    the filters given (a status that is not the empty text, a driver),
    no more of them than [limit] when a limit is set; and it changes
    neither collection. *)
Theorem get_deliveries_sound :
  forall (f : filters) (skip limit : nat) (w w' : world)
         (found : list Delivery.t),
    get_deliveries f skip limit w = (Ok found, w') ->
    deliveries w' = deliveries w /\ drivers w' = drivers w /\
    (limit <> 0%nat -> (length found <= limit)%nat) /\
    Forall
      (fun d =>
         In d (deliveries w) /\
         (forall s, by_status f = Some s -> s <> "" -> Delivery.status d = s) /\
         (forall k, by_driver_id f = Some (Hex k) ->
                    Delivery.driver_id d = Some k))
      found.
Proof.
  intros f skip limit w w' found Hrun. unfold get_deliveries in Hrun.
  apply bind_Ok in Hrun. destruct Hrun as (driver & w1 & Hdrv & Hrun).
  assert (Hw1 : w1 = w /\
                forall k, by_driver_id f = Some (Hex k) -> driver = Some k).
  { destruct (by_driver_id f) as [[k|s]|]; simpl in Hdrv.
    - injection Hdrv as <- <-. split; [reflexivity|]. now intros k' [= <-].
    - destruct (negb (String.eqb s "")); [discriminate|].
      injection Hdrv as <- <-. split; [reflexivity | discriminate].
    - injection Hdrv as <- <-. split; [reflexivity | discriminate]. }
  destruct Hw1 as [-> Hk].
  apply store_call_Ok in Hrun. destruct Hrun as (fs & [= <- <-]). simpl.
  split; [reflexivity|]. split; [reflexivity|].
  split; [intros Hl; now apply page_length|].
  apply List.Forall_forall. intros d Hd. apply page_In in Hd.
  apply filter_In in Hd. destruct Hd as [Hin Hq].
  apply andb_true_iff in Hq. destruct Hq as [Hs Hdq].
  split; [exact Hin|]. split.
  - intros s Es Hne. unfold status_query in Hs. rewrite Es in Hs.
    destruct (String.eqb s "") eqn:E0.
    + apply String.eqb_eq in E0. contradiction.
    + now apply String.eqb_eq in Hs.
  - intros k Ek. rewrite (Hk k Ek) in Hdq. unfold driver_query in Hdq.
    now apply bool_decide_eq_true in Hdq.
Qed.

(** The store after [three_requests]: two deliveries, the first delivered,
    the second waiting for a driver. *)
Definition two_deliveries : world := serve_all two_drivers three_requests.

(** A run of X10: the deliveries of driver 2. *)
Lemma get_deliveries_sound_witness :
  deliveries two_deliveries = deliveries two_deliveries /\
  drivers two_deliveries = drivers two_deliveries /\
  (5%nat <> 0%nat ->
   (length (List.filter
              (fun d => bool_decide (Delivery.driver_id d = Some 2%N))
              (deliveries two_deliveries)) <= 5)%nat) /\
  Forall
    (fun d =>
       In d (deliveries two_deliveries) /\
       (forall s, None = Some s -> s <> "" -> Delivery.status d = s) /\
       (forall k, Some (Hex 2%N) = Some (Hex k) ->
                  Delivery.driver_id d = Some k))
    (List.filter (fun d => bool_decide (Delivery.driver_id d = Some 2%N))
       (deliveries two_deliveries)).
Proof.
  apply (get_deliveries_sound (Filters None (Some (Hex 2%N))) 0 5
           two_deliveries two_deliveries).
  vm_compute. reflexivity.
Defined.

(** X11.  Pages of [get_deliveries] fit together: on a store that does not
    fail, the page of [n] deliveries after [skip] followed by the page of
    [m] after [skip + n] is the page of [n + m] after [skip]. *)
Theorem get_deliveries_pages_fit :
  forall (f : filters) (skip n m : nat) (w : world)
         (first second : list Delivery.t),
    faults w = [] ->
    n <> 0%nat -> m <> 0%nat ->
    get_deliveries f skip n w = (Ok first, w) ->
    get_deliveries f (skip + n) m w = (Ok second, w) ->
    get_deliveries f skip (n + m) w = (Ok (first ++ second), w).
Proof.
  intros f skip n m [ds drs fs] first second Hf Hn Hm. simpl in Hf. subst fs.
  unfold get_deliveries.
  destruct (by_driver_id f) as [[k|s]|]; simpl;
    try (destruct (negb (String.eqb s "")); simpl; [discriminate|]);
    unfold bind, ret, store_call; simpl;
    intros [= <-] [= <-]; now rewrite page_app.
Qed.

(** A run of X11: the two deliveries, one per page. *)
Lemma get_deliveries_pages_fit_witness :
  get_deliveries (Filters None None) 0 (1 + 1) two_deliveries =
  (Ok (firstn 1 (deliveries two_deliveries) ++
       skipn 1 (deliveries two_deliveries)), two_deliveries).
Proof.
  apply (get_deliveries_pages_fit (Filters None None) 0 1 1 two_deliveries).
  - reflexivity.
  - discriminate.
  - discriminate.
  - vm_compute. reflexivity.
  - vm_compute. reflexivity.
Defined.

(** X12.  A text that is not an identifier is treated in two ways:
    [get_delivery] returns [None] for it, while [get_deliveries], given
    it as the driver to filter by, raises [InvalidId] before it reaches
    the store. *)
Theorem malformed_identifier_two_ways :
  forall (s : string) (status : option string) (skip limit : nat) (w : world),
    s <> "" ->
    get_delivery (Malformed s) w = (Ok None, w) /\
    get_deliveries (Filters status (Some (Malformed s))) skip limit w =
      (Raise InvalidId, w).
Proof.
  intros s status skip limit w Hs. split; [reflexivity|].
  unfold get_deliveries. simpl.
  destruct (String.eqb s "") eqn:E; [|reflexivity].
  apply String.eqb_eq in E. contradiction.
Qed.

(** A run of X12. *)
Lemma malformed_identifier_two_ways_witness :
  get_delivery (Malformed "driver-2") two_deliveries =
    (Ok None, two_deliveries) /\
  get_deliveries (Filters None (Some (Malformed "driver-2"))) 0 100
    two_deliveries = (Raise InvalidId, two_deliveries).
Proof.
  apply (malformed_identifier_two_ways "driver-2" None 0 100 two_deliveries).
  discriminate.
Defined.

(** *** Tracking *)

Lemma get_delivery_cases t w :
  exists fs,
    snd (get_delivery t w) = World (deliveries w) (drivers w) fs /\
    (fst (get_delivery t w) = Ok None \/
     exists o d, t = Hex o /\ stored o w = Some d /\
                 fst (get_delivery t w) = Ok (Some d)).
Proof.
  destruct w as [ds drs fs]. unfold get_delivery, stored.
  destruct t as [o|s]; [|exists fs; split; [reflexivity | now left]].
  unfold_store. run.
  destruct fs as [|[] fs]; simpl.
  - exists []. split; [reflexivity|].
    destruct (find_first (delivery_by_id o) ds) as [d|] eqn:E;
      [right; now exists o, d | now left].
  - exists fs. split; [reflexivity | now left].
  - exists fs. split; [reflexivity|].
    destruct (find_first (delivery_by_id o) ds) as [d|] eqn:E;
      [right; now exists o, d | now left].
Qed.

(** X13.  [get_delivery_tracking] changes neither collection.  It returns
    [None], or the status, position, estimate and history of the stored
    delivery named, with the name, telephone and vehicle of its driver
    when the driver is stored; and the one exception it lets through is a
    failure of the store while it looks up the driver of a stored
    delivery. *)
Theorem get_delivery_tracking_outcome :
  forall (t : id_text) (w : world),
    deliveries (snd (get_delivery_tracking t w)) = deliveries w /\
    drivers (snd (get_delivery_tracking t w)) = drivers w /\
    match fst (get_delivery_tracking t w) with
    | Ok None => True
    | Ok (Some tr) =>
        exists (o : oid) (d : Delivery.t),
          t = Hex o /\ stored o w = Some d /\
          delivery_id tr = t /\
          status tr = Delivery.status d /\
          current_location_of tr = Delivery.current_location d /\
          estimated_delivery_time tr = Delivery.estimated_delivery_time d /\
          tracking_history tr = Delivery.tracking_history d /\
          match Delivery.driver_id d with
          | Some k =>
              driver tr =
              option_map
                (fun drv =>
                   DriverInfo (str k) (Driver.name drv) (Driver.phone drv)
                     (Driver.vehicle_info drv))
                (stored_driver k w)
          | None => driver tr = None
          end
    | Raise e =>
        e = StoreFailure /\
        exists (o : oid) (d : Delivery.t) (k : oid),
          t = Hex o /\ stored o w = Some d /\ Delivery.driver_id d = Some k
    end.
Proof.
  intros t w. unfold get_delivery_tracking. rewrite bind_eq.
  destruct (get_delivery_cases t w) as (fs & Hw & Hres).
  destruct (get_delivery t w) as [r w1]. simpl in Hw, Hres. subst w1.
  destruct Hres as [-> | (o & d & -> & Hd & ->)]; [simpl; auto|].
  destruct (Delivery.driver_id d) as [k|] eqn:Hk.
  - unfold_store. run. unfold stored_driver.
    destruct fs as [|[] fs]; simpl.
    + split; [reflexivity|]. split; [reflexivity|].
      exists o, d. rewrite Hk. repeat (split; [first [reflexivity|exact Hd]|]).
      destruct (find_first (driver_by_id k) (drivers w)) as [drv|] eqn:E;
        [|reflexivity].
      simpl. apply find_first_Some in E. destruct E as [E _].
      apply driver_by_id_true in E. now rewrite E.
    + split; [reflexivity|]. split; [reflexivity|].
      split; [reflexivity|]. now exists o, d, k.
    + split; [reflexivity|]. split; [reflexivity|].
      exists o, d. rewrite Hk. repeat (split; [first [reflexivity|exact Hd]|]).
      destruct (find_first (driver_by_id k) (drivers w)) as [drv|] eqn:E;
        [|reflexivity].
      simpl. apply find_first_Some in E. destruct E as [E _].
      apply driver_by_id_true in E. now rewrite E.
  - simpl. split; [reflexivity|]. split; [reflexivity|].
    exists o, d. rewrite Hk. repeat (split; [first [reflexivity|exact Hd]|]).
    reflexivity.
Qed.

(** The delivery [create_delivery] returns when the search for a driver
    has found [found]. *)
Definition new_delivery (found : option Driver.t) (data : DeliveryData.t)
    (new_id : oid) (now : Z) : Delivery.t :=
  match found with
  | Some drv =>
      Delivery.assign (Driver._id drv) (now + minutes 30)
        (pending_delivery data new_id now)
  | None => pending_delivery data new_id now
  end.

(** The drivers [create_delivery] leaves. *)
Definition drivers_reserved (found : option Driver.t) (new_id : oid)
    (drs : list Driver.t) : list Driver.t :=
  match found with
  | Some drv =>
      update_first (driver_by_id (Driver._id drv)) (Driver.reserve new_id) drs
  | None => drs
  end.

Lemma create_delivery_run ds drs data new_id now :
  find_first (delivery_by_id new_id) ds = None ->
  let found := find_first Driver.available drs in
  let d := new_delivery found data new_id now in
  create_delivery data new_id now (World ds drs []) =
  (Ok d,
   World (ds ++ [Delivery.push_tracking (created now) d])
     (drivers_reserved found new_id drs) []).
Proof.
  intros Hnew. cbv zeta.
  unfold create_delivery, find_available_driver, add_tracking_event.
  unfold_store. run.
  destruct (find_first Driver.available drs) as [drv|]; simpl;
    rewrite Hnew; simpl; rewrite update_first_app, Hnew; simpl;
    unfold delivery_by_id at 1; simpl;
    rewrite bool_decide_eq_true_2 by reflexivity; reflexivity.
Qed.

(** X14.  A delivery can be tracked as soon as [create_delivery] has
    returned it: on a store that does not fail, [get_delivery_tracking]
    on its identifier gives the status and the estimate of the delivery
    returned, a history of one entry, "created", and its driver exactly
    when one was assigned. *)
Theorem tracking_after_create :
  forall (data : DeliveryData.t) (new_id : oid) (now : Z)
         (ds : list Delivery.t) (drs : list Driver.t) (d : Delivery.t)
         (w' : world),
    create_delivery data new_id now (World ds drs []) = (Ok d, w') ->
    exists tr : tracking,
      get_delivery_tracking (str new_id) w' = (Ok (Some tr), w') /\
      delivery_id tr = str new_id /\
      status tr = Delivery.status d /\
      estimated_delivery_time tr = Delivery.estimated_delivery_time d /\
      tracking_history tr = [created now] /\
      match Delivery.driver_id d with
      | Some k => exists info, driver tr = Some info /\ info_id info = str k
      | None => driver tr = None
      end.
Proof.
  intros data new_id now ds drs d w' Hrun.
  pose proof (create_delivery_Ok _ _ _ _ _ _ Hrun) as [Hnew _].
  unfold stored in Hnew. simpl in Hnew.
  rewrite (create_delivery_run ds drs data new_id now Hnew) in Hrun.
  injection Hrun as <- <-.
  unfold get_delivery_tracking, get_delivery. unfold_store. run.
  rewrite find_first_app, Hnew. simpl.
  unfold delivery_by_id at 1.
  assert (Hid : Delivery._id
                  (new_delivery (find_first Driver.available drs) data new_id
                     now) = new_id)
    by (destruct (find_first Driver.available drs); reflexivity).
  simpl. rewrite Hid. rewrite bool_decide_eq_true_2 by reflexivity.
  destruct (find_first Driver.available drs) as [drv|] eqn:Hdrv; simpl.
  - rewrite find_first_update_first by reflexivity.
    apply find_first_Some in Hdrv. destruct Hdrv as [_ Hin].
    destruct (find_first (driver_by_id (Driver._id drv)) drs) as [x|] eqn:Ex.
    + simpl. eexists. split; [reflexivity|]. simpl.
      repeat (split; [reflexivity|]). eexists. split; [reflexivity|]. simpl.
      apply find_first_Some in Ex. destruct Ex as [Ex _].
      apply driver_by_id_true in Ex. now rewrite Ex.
    + exfalso. apply (find_first_None _ _ drv Ex) in Hin.
      unfold driver_by_id in Hin. now apply bool_decide_eq_false in Hin.
  - eexists. split; [reflexivity|]. simpl. repeat (split; [reflexivity|]).
    reflexivity.
Qed.

(** A run of X14: the first order, which takes the free driver. *)
Lemma tracking_after_create_witness :
  exists tr : tracking,
    get_delivery_tracking (str 7%N)
      (serve two_drivers (Create (an_order "order-1") 7%N 1000)) =
      (Ok (Some tr), serve two_drivers (Create (an_order "order-1") 7%N 1000)) /\
    delivery_id tr = str 7%N /\
    status tr = "assigned" /\
    estimated_delivery_time tr = Some 1801000 /\
    tracking_history tr = [created 1000] /\
    exists info, driver tr = Some info /\ info_id info = str 2%N.
Proof.
  apply (tracking_after_create (an_order "order-1") 7%N 1000 []
           (drivers two_drivers)
           (new_delivery
              (Some (Driver.Build 2%N "Bob" "555-0102" None "available" true
                       None None))
              (an_order "order-1") 7%N 1000)).
  vm_compute. reflexivity.
Defined.

End AppQueriesFacts.

(** ** The figures of [get_delivery_statistics] *)

Module StatisticsFacts.
Import App AppFacts AppAssignment.

Lemma try_except_Ok {W A} (m : prog W A) (h : exn -> prog W A) w a w' :
  try_except m h w = (Ok a, w') ->
  m w = (Ok a, w') \/ exists e w1, m w = (Raise e, w1) /\ h e w1 = (Ok a, w').
Proof.
  unfold try_except. destruct (m w) as [[a1|e] w1]; [now left|].
  intros Hh. right. now exists e, w1.
Qed.

Lemma filter_disjoint_length {A} (p q : A -> bool) (l : list A) :
  (forall x, p x = true -> q x = false) ->
  (length (List.filter p l) + length (List.filter q l) <= length l)%nat.
Proof.
  intros Hpq. induction l as [|x l IH]; simpl; [lia|].
  destruct (p x) eqn:Ep.
  - rewrite (Hpq x Ep). simpl. lia.
  - destruct (q x); simpl; lia.
Qed.

Lemma round_half_even_bounds (y : Q) (k : Z) :
  (0 <= y)%Q -> (y <= inject_Z k)%Q -> 0 <= round_half_even y <= k.
Proof.
  intros H0 Hk. unfold round_half_even.
  assert (Hn0 : 0 <= Qfloor y).
  { change 0 with (Qfloor 0). now apply Qfloor_resp_le. }
  assert (Hnk : Qfloor y <= k).
  { rewrite <- (Qfloor_Z k). now apply Qfloor_resp_le. }
  pose proof (Qfloor_le y) as Hfl.
  destruct (Qcompare_spec (y - inject_Z (Qfloor y)) (1 # 2)) as [E|E|E].
  - assert (Hlt : Qfloor y < k).
    { destruct (Z.eq_dec (Qfloor y) k) as [Ek|Ek]; [|lia]. exfalso.
      rewrite Ek in E. clear Hfl. generalize dependent (inject_Z k).
      intros q Hq E. Lqa.lra. }
    destruct (Z.even (Qfloor y)); lia.
  - lia.
  - assert (Hlt : Qfloor y < k).
    { destruct (Z.eq_dec (Qfloor y) k) as [Ek|Ek]; [|lia]. exfalso.
      rewrite Ek in E. clear Hfl. generalize dependent (inject_Z k).
      intros q Hq E. Lqa.lra. }
    lia.
Qed.

Lemma round2_percentage (x : Q) :
  (0 <= x)%Q -> (x <= 100)%Q -> (0 <= round2 x)%Q /\ (round2 x <= 100)%Q.
Proof.
  intros H0 H100. unfold round2.
  destruct (round_half_even_bounds (x * 100) 10000) as [Hr0 Hr1].
  - Lqa.lra.
  - change (inject_Z 10000) with 10000%Q. Lqa.lra.
  - rewrite Zle_Qle in Hr0, Hr1.
    change (inject_Z 0) with 0%Q in Hr0.
    change (inject_Z 10000) with 10000%Q in Hr1.
    split.
    + apply Qle_shift_div_l; [reflexivity | Lqa.lra].
    + apply Qle_shift_div_r; [reflexivity | Lqa.lra].
Qed.

Lemma ratio_percentage (c t : nat) :
  (c <= t)%nat -> (0 < t)%nat ->
  (0 <= inject_Z (Z.of_nat c) / inject_Z (Z.of_nat t) * 100)%Q /\
  (inject_Z (Z.of_nat c) / inject_Z (Z.of_nat t) * 100 <= 100)%Q.
Proof.
  intros Hct Ht.
  assert (Hc0 : (0 <= inject_Z (Z.of_nat c))%Q).
  { change 0%Q with (inject_Z 0). rewrite <- Zle_Qle. lia. }
  assert (Hcle : (inject_Z (Z.of_nat c) <= inject_Z (Z.of_nat t))%Q).
  { rewrite <- Zle_Qle. lia. }
  assert (Ht0 : (0 < inject_Z (Z.of_nat t))%Q).
  { change 0%Q with (inject_Z 0). rewrite <- Zlt_Qlt. lia. }
  assert (H0 : (0 <= inject_Z (Z.of_nat c) / inject_Z (Z.of_nat t))%Q).
  { apply Qle_shift_div_l; [exact Ht0 | Lqa.lra]. }
  assert (H1 : (inject_Z (Z.of_nat c) / inject_Z (Z.of_nat t) <= 1)%Q).
  { apply Qle_shift_div_r; [exact Ht0 | Lqa.lra]. }
  split; Lqa.lra.
Qed.



End StatisticsFacts.

(** ** [MessageHandler] *)

Module BusFacts.
Import App AppFacts AppInvariants AppAssignment AppQueriesFacts Bus.

(** The routing key and body of an event as the broker receives it at
    [now]. *)
Definition sent (e : outbound) (now : Z) : string * Z * outbound :=
  (("delivery." ++ event_type e)%string, now, e).

Lemma publish_event_reachable e now w h :
  transport_faults h = [] ->
  publish_event e now (w, h) =
  (Ok tt, (w, Handler true [] (published h ++ [sent e now]))).
Proof.
  destruct h as [c fs p]. simpl. intros ->.
  destruct c; reflexivity.
Qed.

Lemma publish_event_unreachable e now w h fs :
  channel h = false -> transport_faults h = true :: fs ->
  publish_event e now (w, h) = (Ok tt, (w, Handler false fs (published h))).
Proof.
  destruct h as [c fs0 p]. simpl. intros -> ->. reflexivity.
Qed.

(** [publish_event] returns, leaves the database alone and hands the
    broker one event or none. *)
Lemma publish_event_outcome e now s :
  exists h',
    publish_event e now s = (Ok tt, (fst s, h')) /\
    (published h' = published (snd s) \/
     published h' = published (snd s) ++ [sent e now]).
Proof.
  destruct s as [w [c fs p]].
  destruct c.
  - destruct fs as [|[] fs]; eexists; (split; [reflexivity|]); simpl; auto.
  - destruct fs as [|[] [|[] [|[] [|[] [|[] [|[] fs]]]]]];
      eexists; (split; [reflexivity|]); simpl; auto.
Qed.

Lemma service_state {A} (m : program A) s :
  snd (snd (service m s)) = snd s /\
  fst (snd (service m s)) = snd (m (fst s)) /\
  fst (service m s) = fst (m (fst s)).
Proof. unfold service. destruct (m (fst s)); auto. Qed.

Lemma find_first_by_id_of_member (ds : list Delivery.t) d :
  In d ds -> exists d0, find_first (delivery_by_id (Delivery._id d)) ds = Some d0.
Proof.
  intros Hin.
  destruct (find_first (delivery_by_id (Delivery._id d)) ds) as [d0|] eqn:E;
    [now exists d0|].
  apply (find_first_None _ _ d E) in Hin. unfold delivery_by_id in Hin.
  now apply bool_decide_eq_false in Hin.
Qed.

(** X1.  The event [payment_successful] moves the delivery found for the
    order to the status "confirmed", from whatever status it has; that
    status is not a value of [DeliveryStatus].  No driver is touched and
    nothing is published. *)
Theorem payment_successful_writes_confirmed :
  forall (order_id : option string) (new_id : oid) (now : Z)
         (ds : list Delivery.t) (drs : list Driver.t) (h : handler)
         (d : Delivery.t),
    find_first (fun x => bool_decide (Delivery.order_id x = order_id)) ds
      = Some d ->
    exists (w' : world) (d' : Delivery.t),
      handle_message (payment_successful order_id) new_id now
        (World ds drs [], h) = (Ok tt, (w', h)) /\
      stored (Delivery._id d) w' = Some d' /\
      Delivery.status d' = "confirmed" /\
      ~ In (Delivery.status d') DeliveryStatus /\
      drivers w' = drs.
Proof.
  intros order_id new_id now ds drs h d Hd.
  pose proof (find_first_Some _ _ _ Hd) as [_ Hin].
  destruct (find_first_by_id_of_member ds d Hin) as (d0 & Hd0).
  pose proof (update_delivery_run ds drs (Delivery._id d) d0
                (DeliveryUpdate.only_status "confirmed") now Hd0) as Hrun.
  pose proof (stored_after_update ds drs (Delivery._id d) d0
                (DeliveryUpdate.only_status "confirmed") now Hd0) as Hst.
  unfold handle_message, handle_payment_successful,
    App.handle_payment_successful, get_delivery_by_order, service.
  unfold_store. unfold try_except at 1, bind at 1, store_call at 1.
  cbn [fst snd faults deliveries drivers]. rewrite Hd.
  unfold bind at 1. unfold str. rewrite Hrun in *. cbn [fst snd] in *.
  eexists _, _. split; [reflexivity|]. split; [exact Hst|].
  split; [reflexivity|]. split; [|reflexivity].
  simpl. intros H. repeat destruct H as [H|H]; try discriminate H; exact H.
Qed.

(** A run of X1: the delivered delivery of order 1 becomes "confirmed". *)
Lemma payment_successful_writes_confirmed_witness :
  exists (w' : world) (d' : Delivery.t),
    handle_message (payment_successful (Some "order-1")) 9%N 4000
      (World (deliveries two_deliveries) (drivers two_deliveries) [],
       Handler false [] []) = (Ok tt, (w', Handler false [] [])) /\
    stored 7%N w' = Some d' /\
    Delivery.status d' = "confirmed" /\
    ~ In (Delivery.status d') DeliveryStatus /\
    drivers w' = drivers two_deliveries.
Proof.
  destruct (find_first
              (fun x => bool_decide (Delivery.order_id x = Some "order-1"))
              (deliveries two_deliveries)) as [d|] eqn:E;
    [|vm_compute in E; discriminate E].
  assert (Hid : Delivery._id d = 7%N)
    by (vm_compute in E; injection E as <-; reflexivity).
  rewrite <- Hid.
  exact (payment_successful_writes_confirmed (Some "order-1") 9%N 4000
           (deliveries two_deliveries) (drivers two_deliveries)
           (Handler false [] []) d E).
Defined.

(** X16.  The event [order_confirmed], on a store that does not fail and
    with the broker in reach: the delivery is stored and one event
    [delivery_created] is published, with the identifier, order, status
    and estimate of the delivery stored. *)
Theorem order_confirmed_announces_the_delivery :
  forall (order : DeliveryData.t) (new_id : oid) (now : Z)
         (ds : list Delivery.t) (drs : list Driver.t) (h : handler),
    stored new_id (World ds drs []) = None ->
    transport_faults h = [] ->
    exists (w' : world) (h' : handler) (d' : Delivery.t),
      handle_message (order_confirmed order) new_id now (World ds drs [], h)
        = (Ok tt, (w', h')) /\
      stored new_id w' = Some d' /\
      Delivery.order_id d' = DeliveryData.order_id order /\
      published h' =
        published h ++
        [("delivery.delivery_created", now,
          delivery_created (str new_id) (Delivery.order_id d')
            (Delivery.status d') (Delivery.estimated_delivery_time d'))].
Proof.
  intros order new_id now ds drs h Hnew Hh. unfold stored in Hnew.
  simpl in Hnew.
  unfold handle_message, handle_order_confirmed.
  unfold try_except at 1, bind at 1, service. cbn [fst snd].
  rewrite (create_delivery_run ds drs order new_id now Hnew).
  rewrite (publish_event_reachable _ _ _ _ Hh).
  eexists _, _, _. split; [reflexivity|]. unfold stored. simpl.
  rewrite find_first_app, Hnew. simpl. unfold delivery_by_id at 1.
  assert (Hid : forall found,
             Delivery._id (new_delivery found order new_id now) = new_id)
    by (intros [x|]; reflexivity).
  simpl. rewrite Hid, bool_decide_eq_true_2 by reflexivity.
  split; [reflexivity|]. simpl.
  split; [now destruct (find_first Driver.available drs)|].
  reflexivity.
Qed.

(** A run of X16: order 3 arrives when no driver is free. *)
Lemma order_confirmed_announces_the_delivery_witness :
  exists (w' : world) (h' : handler) (d' : Delivery.t),
    handle_message (order_confirmed (an_order "order-3")) 9%N 4000
      (World (deliveries two_deliveries) [] [], Handler false [] [])
      = (Ok tt, (w', h')) /\
    stored 9%N w' = Some d' /\
    Delivery.order_id d' = Some "order-3" /\
    published h' =
      [] ++
      [("delivery.delivery_created", 4000,
        delivery_created (str 9%N) (Delivery.order_id d')
          (Delivery.status d') (Delivery.estimated_delivery_time d'))].
Proof.
  apply (order_confirmed_announces_the_delivery (an_order "order-3") 9%N 4000
           (deliveries two_deliveries) [] (Handler false [] [])).
  - vm_compute. reflexivity.
  - reflexivity.
Defined.

Lemma update_delivery_store_down t s now ds drs fs :
  String.eqb s "delivered" = false ->
  update_delivery t (DeliveryUpdate.only_status s) now
    (World ds drs (true :: true :: true :: fs)) =
  (Ok None,
   World ds drs
     (match t with
      | Hex _ => if completes s then fs else true :: fs
      | Malformed _ => true :: true :: true :: fs
      end)).
Proof.
  intros Hs.
  unfold update_delivery, handle_status_change, add_tracking_event,
    get_delivery, completes. simpl. rewrite Hs. simpl.
  destruct t as [o|text]; destruct (String.eqb s "cancelled");
    unfold_store; run; reflexivity.
Qed.

(** X17.  The event [order_cancelled] is announced whether or not the
    cancellation was written: once a delivery is found for the order and
    with the broker in reach, [delivery_cancelled] is published for it
    whatever [update_delivery] did; when the store fails throughout the
    update, deliveries and drivers are as they were and the event is
    published all the same. *)
Theorem cancellation_is_announced_even_if_not_written :
  forall (order_id : option string) (new_id : oid) (now : Z)
         (w w1 : world) (h : handler) (d : Delivery.t),
    get_delivery_by_order order_id w = (Ok (Some d), w1) ->
    transport_faults h = [] ->
    exists w' : world,
      handle_message (order_cancelled order_id) new_id now (w, h) =
        (Ok tt,
         (w', Handler true []
                (published h ++
                 [("delivery.delivery_cancelled", now,
                   delivery_cancelled (str (Delivery._id d)) order_id
                     "Order cancelled")]))) /\
      (forall fs, faults w1 = true :: true :: true :: fs ->
                  deliveries w' = deliveries w /\ drivers w' = drivers w).
Proof.
  intros order_id new_id now w w1 h d Hget Hh.
  unfold handle_message, handle_order_cancelled.
  unfold try_except at 1, bind at 1, service at 1. cbn [fst snd].
  rewrite Hget. unfold bind at 1, service at 1. cbn [fst snd].
  destruct (update_delivery (str (Delivery._id d))
              (DeliveryUpdate.only_status "cancelled") now w1)
    as [r w'] eqn:Hupd.
  pose proof (update_delivery_returns w1 (str (Delivery._id d))
                (DeliveryUpdate.only_status "cancelled") now) as Hret.
  rewrite Hupd in Hret. simpl in Hret.
  exists w'.
  assert (Hr : exists x, r = Ok x).
  { destruct Hret as [x Hx]. now exists x. }
  destruct Hr as [x ->].
  rewrite (publish_event_reachable _ _ _ _ Hh). split; [reflexivity|].
  intros fs Hfs.
  unfold get_delivery_by_order, deliveries_find_one in Hget.
  apply store_call_Ok in Hget. destruct Hget as (fs1 & [= _ <-]).
  simpl in Hfs. subst fs1.
  rewrite update_delivery_store_down in Hupd by reflexivity.
  injection Hupd as _ <-. now split.
Qed.

(** A run of X17: the store answers the search for the delivery of order 2
    and fails from then on. *)
Lemma cancellation_is_announced_even_if_not_written_witness :
  exists w' : world,
    handle_message (order_cancelled (Some "order-2")) 9%N 4000
      (World (deliveries two_deliveries) (drivers two_deliveries)
         [false; true; true; true], Handler false [] []) =
      (Ok tt,
       (w', Handler true []
              ([] ++
               [("delivery.delivery_cancelled", 4000,
                 delivery_cancelled (str 8%N) (Some "order-2")
                   "Order cancelled")]))) /\
    (forall fs, [true; true; true] = true :: true :: true :: fs ->
                deliveries w' = deliveries two_deliveries /\
                drivers w' = drivers two_deliveries).
Proof.
  destruct (find_first
              (fun x => bool_decide (Delivery.order_id x = Some "order-2"))
              (deliveries two_deliveries)) as [d|] eqn:E;
    [|vm_compute in E; discriminate E].
  assert (Hid : Delivery._id d = 8%N)
    by (vm_compute in E; injection E as <-; reflexivity).
  rewrite <- Hid.
  apply (cancellation_is_announced_even_if_not_written (Some "order-2") 9%N
           4000
           (World (deliveries two_deliveries) (drivers two_deliveries)
              [false; true; true; true])
           (World (deliveries two_deliveries) (drivers two_deliveries)
              [true; true; true])
           (Handler false [] []) d).
  - unfold get_delivery_by_order, deliveries_find_one, store_call.
    cbn [faults deliveries drivers]. now rewrite E.
  - reflexivity.
Defined.

(** X18.  With the broker out of reach the announcement of a new delivery
    is lost without a trace: [create_delivery] has stored the delivery,
    nothing is published, and the handler returns as if all went well. *)
Theorem unreachable_broker_loses_the_announcement :
  forall (order : DeliveryData.t) (new_id : oid) (now : Z) (w w' : world)
         (d : Delivery.t) (h : handler) (fs : list bool),
    create_delivery order new_id now w = (Ok d, w') ->
    channel h = false ->
    transport_faults h = true :: fs ->
    handle_message (order_confirmed order) new_id now (w, h) =
    (Ok tt, (w', Handler false fs (published h))).
Proof.
  intros order new_id now w w' d h fs Hrun Hc Hfs.
  unfold handle_message, handle_order_confirmed.
  unfold try_except at 1, bind at 1, service. cbn [fst snd].
  rewrite Hrun. now rewrite (publish_event_unreachable _ _ _ _ fs Hc Hfs).
Qed.

(** A run of X18. *)
Lemma unreachable_broker_loses_the_announcement_witness :
  handle_message (order_confirmed (an_order "order-1")) 7%N 1000
    (two_drivers, Handler false [true] []) =
  (Ok tt,
   (serve two_drivers (Create (an_order "order-1") 7%N 1000),
    Handler false [] [])).
Proof.
  apply (unreachable_broker_loses_the_announcement (an_order "order-1") 7%N
           1000 two_drivers _
           (new_delivery
              (Some (Driver.Build 2%N "Bob" "555-0102" None "available" true
                       None None))
              (an_order "order-1") 7%N 1000)
           (Handler false [true] []) []).
  - vm_compute. reflexivity.
  - reflexivity.
  - reflexivity.
Defined.

(** X19.  [handle_message] never raises, whatever the store and the
    transport do, and publishes at most one event per message: none for
    [payment_successful], and none, with nothing else changed either, for
    an event type it does not know. *)
Theorem handle_message_always_returns :
  forall (m : message) (new_id : oid) (now : Z) (s : system),
    exists (s' : system) (more : list (string * Z * outbound)),
      handle_message m new_id now s = (Ok tt, s') /\
      published (snd s') = published (snd s) ++ more /\
      (length more <= 1)%nat /\
      match m with
      | payment_successful _ => more = []
      | unrecognized _ => more = [] /\ s' = s
      | _ => True
      end.
Proof.
  intros m new_id now s.
  assert (Hnone : forall s' : system,
             snd s' = snd s ->
             exists more : list (string * Z * outbound),
               published (snd s') = published (snd s) ++ more /\
               (length more <= 1)%nat /\ more = []).
  { intros s' ->. exists []. rewrite app_nil_r. simpl. auto. }
  assert (Hpub : forall e (s1 : system),
             snd s1 = snd s ->
             exists (s' : system) (more : list (string * Z * outbound)),
               publish_event e now s1 = (Ok tt, s') /\
               published (snd s') = published (snd s) ++ more /\
               (length more <= 1)%nat).
  { intros e s1 Hs1. destruct (publish_event_outcome e now s1) as (h' & -> & Hp).
    rewrite Hs1 in Hp. eexists. destruct Hp as [Hp|Hp].
    - exists []. split; [reflexivity|]. simpl. rewrite app_nil_r. auto.
    - exists [sent e now]. split; [reflexivity|]. simpl. auto. }
  destruct m as [order | order_id | order_id | et];
    unfold handle_message, try_except.
  - unfold handle_order_confirmed, bind.
    pose proof (service_state (create_delivery order new_id now) s)
      as (Hs & _ & _).
    destruct (service (create_delivery order new_id now) s) as [[d|e] s1].
    + destruct (Hpub (delivery_created (str (Delivery._id d))
                        (Delivery.order_id d) (Delivery.status d)
                        (Delivery.estimated_delivery_time d)) s1 Hs)
        as (s' & more & -> & Hp & Hl).
      now exists s', more.
    + destruct (Hnone s1 Hs) as (more & Hp & Hl & _).
      now exists s1, more.
  - unfold handle_payment_successful.
    pose proof (service_state (App.handle_payment_successful order_id now) s)
      as (Hs & _ & _).
    destruct (service (App.handle_payment_successful order_id now) s)
      as [[[]|e] s1]; destruct (Hnone s1 Hs) as (more & Hp & Hl & Hm);
      now exists s1, more.
  - unfold handle_order_cancelled, bind.
    pose proof (service_state (get_delivery_by_order order_id) s)
      as (Hs & _ & _).
    destruct (service (get_delivery_by_order order_id) s) as [[[d|]|e] s1];
      try (destruct (Hnone s1 Hs) as (more & Hp & Hl & _);
           now exists s1, more).
    pose proof (service_state
                  (update_delivery (str (Delivery._id d))
                     (DeliveryUpdate.only_status "cancelled") now) s1)
      as (Hs1 & _ & _).
    destruct (service _ s1) as [[r|e] s2]; simpl in Hs, Hs1; rewrite Hs in Hs1.
    + destruct (Hpub (delivery_cancelled (str (Delivery._id d)) order_id
                        "Order cancelled") s2 Hs1)
        as (s' & more & -> & Hp & Hl).
      now exists s', more.
    + destruct (Hnone s2 Hs1) as (more & Hp & Hl & _).
      now exists s2, more.
  - exists s, []. simpl. rewrite app_nil_r. auto.
Qed.

End BusFacts.

(** ** The endpoints of [src/main.py] *)

Module ApiQueriesFacts.
Import Api ApiFacts ApiQueries.

#[local] Arguments send_delivery_update : simpl never.

(** The document [create_delivery] inserts. *)
Lemma create_delivery_inserts w delivery new_id now :
  exists d' : Delivery.t,
    deliveries (snd (create_delivery delivery new_id now w)) =
      deliveries w ++ [d'] /\
    Delivery._id d' = Some new_id /\
    Delivery.order_id d' = Delivery.order_id delivery /\
    Delivery.tracking_number d' = Delivery.tracking_number delivery /\
    match nearest_of (coordinates (Delivery.pickup_address delivery))
            (candidates w) with
    | Some drv =>
        Delivery.status d' = "assigned" /\
        Delivery.driver_id d' = Some (str (Driver._id drv))
    | None =>
        Delivery.status d' = Delivery.status delivery /\
        Delivery.driver_id d' = Delivery.driver_id delivery
    end.
Proof.
  destruct w as [drs ds conns subs cl wr].
  unfold create_delivery, find_nearest_driver.
  unfold try_except, bind, get, put, set_deliveries, set_drivers, ret, raise.
  simpl.
  destruct (nearest_of _ _) as [drv|]; simpl;
    match goal with
    | |- context [send_delivery_update ?k ?m ?w0] =>
        pose proof (send_delivery_update_db k m w0) as Hs;
        destruct (send_delivery_update k m w0) as [[[]|[]] w1];
        unfold db in Hs; simpl in Hs; injection Hs as _ Hs; simpl;
        rewrite Hs
    end; eexists; (split; [reflexivity|]); simpl; auto.
Qed.

(** X20.  A delivery [create_delivery] was asked for is stored whatever
    the endpoint answered, and [get_delivery] on the identifier the store
    gave it returns it, serialised: [id] is the text of the identifier,
    [_id] is gone, order and tracking number are those of the request.
    [get_delivery_by_order] returns the same when no earlier delivery is
    stored for the order. *)
Theorem created_delivery_can_be_fetched :
  forall (w : world) (delivery : Delivery.t) (new_id : oid) (now : Z),
    find_first (delivery_by_id new_id) (deliveries w) = None ->
    let w' := snd (create_delivery delivery new_id now w) in
    exists d : Delivery.t,
      get_delivery (str new_id) w' = (Ok (Some d), w') /\
      Delivery.id d = Some (str new_id) /\
      Delivery._id d = None /\
      Delivery.order_id d = Delivery.order_id delivery /\
      Delivery.tracking_number d = Delivery.tracking_number delivery /\
      (find_first
         (fun x => String.eqb (Delivery.order_id x)
                     (Delivery.order_id delivery)) (deliveries w) = None ->
       get_delivery_by_order (Delivery.order_id delivery) w' =
         (Ok (Some d), w')).
Proof.
  intros w delivery new_id now Hnew w'.
  destruct (create_delivery_inserts w delivery new_id now)
    as (d' & Hds & Hid & Hord & Htn & _).
  fold w' in Hds.
  unfold get_delivery, get_delivery_by_order, try_except, bind, get, ret,
    raise. simpl.
  rewrite Hds, !find_first_app, Hnew. simpl.
  unfold delivery_by_id at 1. rewrite Hid.
  rewrite bool_decide_eq_true_2 by reflexivity. simpl. rewrite Hid.
  eexists. split; [reflexivity|]. simpl.
  repeat (split; [first [reflexivity | assumption]|]).
  intros ->.
  replace (Delivery.order_id d' =? Delivery.order_id delivery)%string
    with true by (symmetry; rewrite Hord; apply String.eqb_refl).
  unfold ret. now rewrite Hid.
Qed.

(** An address at the origin. *)
Definition origin : DeliveryAddress :=
  mkDeliveryAddress "1 Main St" "Springfield" "00000" (mkLocation 0 0).

(** The request body for an order, as the model fills its defaults. *)
Definition a_delivery (order_id : string) (driver_id : option id_text)
  : Delivery.t :=
  Delivery.Build None None order_id driver_id origin origin "pending" None
    None None "tracking-1" 1000 1000.

(** An empty database with no connection. *)
Definition no_one : world := World [] [] [] ∅ [] [].

(** A run of X20. *)
Lemma created_delivery_can_be_fetched_witness :
  exists d : Delivery.t,
    get_delivery (str 7%N)
      (snd (create_delivery (a_delivery "order-1" None) 7%N 1000 no_one)) =
      (Ok (Some d),
       snd (create_delivery (a_delivery "order-1" None) 7%N 1000 no_one)) /\
    Delivery.id d = Some (str 7%N) /\
    Delivery._id d = None /\
    Delivery.order_id d = "order-1" /\
    Delivery.tracking_number d = "tracking-1" /\
    (find_first (fun x => String.eqb (Delivery.order_id x) "order-1") [] =
       None ->
     get_delivery_by_order "order-1"
       (snd (create_delivery (a_delivery "order-1" None) 7%N 1000 no_one)) =
       (Ok (Some d),
        snd (create_delivery (a_delivery "order-1" None) 7%N 1000 no_one))).
Proof.
  apply (created_delivery_can_be_fetched no_one (a_delivery "order-1" None)
           7%N 1000).
  reflexivity.
Defined.

(** X21.  An update for an identifier that names no stored delivery is
    refused and changes nothing, drivers and connections included: with
    the status 400 when the text is not an identifier, with 404 when it
    is. *)
Theorem refused_update_changes_nothing :
  forall (t : id_text) (upd : DeliveryUpdate.t) (now : Z) (w : world),
    (forall o, t = Hex o ->
               find_first (delivery_by_id o) (deliveries w) = None) ->
    update_delivery_status t upd now w =
    (Raise (HTTPException (if is_valid t then 404 else 400)), w).
Proof.
  intros t upd now w Hnone. destruct t as [o|text]; [|reflexivity].
  specialize (Hnone o eq_refl).
  destruct w as [drs ds conns subs cl wr]. simpl in Hnone.
  assert (Hm : matched_count (delivery_by_id o) ds = 0%nat)
    by (unfold matched_count; now rewrite Hnone).
  unfold update_delivery_status. simpl.
  destruct (String.eqb (DeliveryUpdate.status upd) "picked_up");
    [|destruct (String.eqb (DeliveryUpdate.status upd) "delivered")];
    unfold try_except, bind, get, put, set_deliveries, set_drivers, ret,
      raise, ObjectId; simpl; rewrite ?Hnone; simpl; rewrite Hm; simpl;
    now rewrite update_first_absent.
Qed.

(** A run of X21. *)
Lemma refused_update_changes_nothing_witness :
  update_delivery_status (Hex 7%N)
    (DeliveryUpdate.Build "7" "delivered" None None) 2000 no_one =
  (Raise (HTTPException 404), no_one).
Proof.
  apply (refused_update_changes_nothing (Hex 7%N)
           (DeliveryUpdate.Build "7" "delivered" None None) 2000 no_one).
  reflexivity.
Defined.

(** X22.  A stored delivery whose [driver_id] is a text that is not an
    identifier cannot be marked "delivered": the look-up of its driver
    raises before the status is written, the endpoint answers with the
    status 500 and nothing has changed.  ([create_delivery] stores the
    [driver_id] of the request as it came when it finds no driver.) *)
Theorem unparsable_driver_blocks_delivery :
  forall (o : oid) (upd : DeliveryUpdate.t) (now : Z) (w : world)
         (d : Delivery.t) (text : string),
    find_first (delivery_by_id o) (deliveries w) = Some d ->
    Delivery.driver_id d = Some (Malformed text) ->
    text <> "" ->
    DeliveryUpdate.status upd = "delivered" ->
    update_delivery_status (Hex o) upd now w =
    (Raise (HTTPException 500), w).
Proof.
  intros o upd now w d text Hd Hk Htext Hs.
  destruct w as [drs ds conns subs cl wr]. simpl in Hd.
  unfold update_delivery_status. rewrite Hs. simpl.
  unfold try_except, bind, get, put, set_deliveries, set_drivers, ret,
    raise, ObjectId. simpl. rewrite Hd, Hk. simpl.
  destruct (String.eqb text "") eqn:E; [|reflexivity].
  apply String.eqb_eq in E. contradiction.
Qed.

(** A run of X22: the request named the driver "bob", no driver was
    available, and the delivery was stored with that text. *)
Lemma unparsable_driver_blocks_delivery_witness :
  update_delivery_status (Hex 7%N)
    (DeliveryUpdate.Build "7" "delivered" None None) 2000
    (snd (create_delivery (a_delivery "order-1" (Some (Malformed "bob")))
            7%N 1000 no_one)) =
  (Raise (HTTPException 500),
   snd (create_delivery (a_delivery "order-1" (Some (Malformed "bob")))
          7%N 1000 no_one)).
Proof.
  apply (unparsable_driver_blocks_delivery 7%N
           (DeliveryUpdate.Build "7" "delivered" None None) 2000
           (snd (create_delivery
                   (a_delivery "order-1" (Some (Malformed "bob"))) 7%N 1000
                   no_one))
           (Delivery.Build (Some 7%N) None "order-1" (Some (Malformed "bob"))
              origin origin "pending" None None None "tracking-1" 1000 1000)
           "bob").
  - reflexivity.
  - reflexivity.
  - discriminate.
  - reflexivity.
Defined.

(** *** What reaches the websockets *)

Lemma disconnect_wire c k w : wire (snd (disconnect c k w)) = wire w.
Proof.
  unfold disconnect, set_manager, bind, get, put. simpl.
  destruct k as [k|]; [|reflexivity].
  destruct (if nonempty k then delivery_subscribers w !! k else None) as [l|];
    [|reflexivity].
  destruct (list_in c l); reflexivity.
Qed.

Lemma send_not_serializable_wire k type w :
  wire (snd (send_delivery_update k (NotSerializable type) w)) = wire w.
Proof.
  unfold send_delivery_update, bind at 1, get. simpl.
  destruct (delivery_subscribers w !! k) as [[|c rest]|] eqn:Hk;
    [reflexivity | | reflexivity].
  simpl. unfold bind at 1, try_except, bind at 1. simpl.
  unfold bind, await_None, raise.
  pose proof (disconnect_wire c (Some k) w) as Hw.
  destruct (disconnect c (Some k) w) as [[[]|e] w']; exact Hw.
Qed.

(** X23.  No subscriber ever gets a text from an endpoint: the message
    [create_delivery] and [update_delivery_status] broadcast holds the
    delivery document, with its dates, which [json.dumps] refuses; so
    whatever the request and whoever has subscribed, nothing is sent. *)
Theorem subscribers_never_get_an_update :
  forall (w : world) (delivery : Delivery.t) (new_id : oid) (t : id_text)
         (upd : DeliveryUpdate.t) (now : Z),
    wire (snd (create_delivery delivery new_id now w)) = wire w /\
    wire (snd (update_delivery_status t upd now w)) = wire w.
Proof.
  intros w delivery new_id t upd now. split.
  - destruct w as [drs ds conns subs cl wr].
    unfold create_delivery, find_nearest_driver.
    unfold try_except, bind, get, put, set_deliveries, set_drivers, ret,
      raise. simpl.
    destruct (nearest_of _ _) as [drv|]; simpl;
      match goal with
      | |- context [send_delivery_update ?k (NotSerializable ?ty) ?w0] =>
          pose proof (send_not_serializable_wire k ty w0) as Hs;
          destruct (send_delivery_update k (NotSerializable ty) w0)
            as [[[]|[]] w1]
      end; exact Hs.
  - destruct w as [drs ds conns subs cl wr].
    destruct t as [o|text]; [|reflexivity].
    unfold update_delivery_status. simpl.
    set (s := DeliveryUpdate.status upd).
    destruct (find_first (delivery_by_id o) ds) as [d|] eqn:Hd.
    + assert (Hid : Delivery._id d = Some o).
      { apply find_first_Some in Hd. destruct Hd as [Hd _].
        now apply bool_decide_eq_true in Hd. }
      assert (Hm : matched_count (delivery_by_id o) ds = 1%nat)
        by (unfold matched_count; now rewrite Hd).
      assert (Hf : find_first (delivery_by_id o)
                     (update_first (delivery_by_id o) (set_status s now) ds) =
                   Some (set_status s now d)).
      { rewrite find_first_update_first by reflexivity. now rewrite Hd. }
      destruct (String.eqb s "picked_up") eqn:E1;
        [|destruct (String.eqb s "delivered") eqn:E2];
        unfold try_except, bind, get, put, set_deliveries, set_drivers, ret,
          raise, ObjectId; simpl; rewrite ?Hd; simpl;
        try (destruct (Delivery.driver_id d) as [[k|[|a text]]|] eqn:Ek;
             simpl);
        try reflexivity;
        rewrite Hm; simpl; rewrite Hf; simpl; rewrite Hid;
        unfold ret, raise; simpl;
        match goal with
        | |- context [send_delivery_update ?k (NotSerializable ?ty) ?w0] =>
            pose proof (send_not_serializable_wire k ty w0) as Hs;
            destruct (send_delivery_update k (NotSerializable ty) w0)
              as [[[]|[]] w1]
        end; exact Hs.
    + assert (Hm : matched_count (delivery_by_id o) ds = 0%nat)
        by (unfold matched_count; now rewrite Hd).
      destruct (String.eqb s "picked_up") eqn:E1;
        [|destruct (String.eqb s "delivered") eqn:E2];
        unfold try_except, bind, get, put, set_deliveries, set_drivers, ret,
          raise, ObjectId; simpl; rewrite ?Hd; simpl; rewrite Hm; reflexivity.
Qed.

(** *** [ConnectionManager] *)

Lemma list_in_snoc c l : list_in c (l ++ [c]) = true.
Proof. apply list_in_middle. Qed.

Lemma list_remove_snoc c l :
  list_in c l = false -> list_remove c (l ++ [c]) = l.
Proof.
  induction l as [|x l IH]; simpl.
  - now rewrite Nat.eqb_refl.
  - destruct (Nat.eqb c x); [discriminate|]. simpl. intros Hl. now rewrite IH.
Qed.

(** X24.  A websocket that connects for a delivery and disconnects again
    leaves the manager as it found it, but for the entry of the delivery,
    which stays (empty, if nobody else has subscribed); the database is
    not touched. *)
Theorem connect_then_disconnect :
  forall (websocket : WebSocket) (k : id_text) (w : world),
    nonempty k = true ->
    list_in websocket (active_connections w) = false ->
    list_in websocket (default [] (delivery_subscribers w !! k)) = false ->
    exists w1 w2 : world,
      connect websocket (Some k) w = (Ok tt, w1) /\
      disconnect websocket (Some k) w1 = (Ok tt, w2) /\
      delivery_subscribers w1 !! k =
        Some (default [] (delivery_subscribers w !! k) ++ [websocket]) /\
      active_connections w2 = active_connections w /\
      delivery_subscribers w2 =
        <[k := default [] (delivery_subscribers w !! k)]>
          (delivery_subscribers w) /\
      db w2 = db w /\ wire w2 = wire w.
Proof.
  intros c k [drs ds conns subs cl wr] Hk Hc Hs. simpl in *.
  unfold connect, disconnect, set_manager, bind, get, put. simpl.
  rewrite Hk. simpl.
  assert (Hl : (match subs !! k with
                | Some _ => subs
                | None => <[k:=[]]> subs
                end) !! k = Some (default [] (subs !! k))).
  { destruct (subs !! k) as [l|] eqn:E; simpl; [exact E|].
    apply lookup_insert_eq. }
  rewrite Hl. simpl.
  eexists _, _. split; [reflexivity|]. simpl.
  rewrite lookup_insert_eq, !list_in_snoc.
  rewrite !list_remove_snoc by assumption.
  split; [reflexivity|]. simpl.
  split; [reflexivity|]. split; [reflexivity|].
  split; [|split; reflexivity].
  rewrite insert_insert_eq.
  destruct (subs !! k) as [l|] eqn:E; simpl; [reflexivity|].
  now rewrite insert_insert_eq.
Qed.

(** A run of X24. *)
Lemma connect_then_disconnect_witness :
  exists w1 w2 : world,
    connect 1%nat (Some (Hex 7%N)) no_one = (Ok tt, w1) /\
    disconnect 1%nat (Some (Hex 7%N)) w1 = (Ok tt, w2) /\
    delivery_subscribers w1 !! Hex 7%N = Some ([] ++ [1%nat]) /\
    active_connections w2 = [] /\
    delivery_subscribers w2 = <[Hex 7%N := []]> ∅ /\
    db w2 = db no_one /\ wire w2 = [].
Proof.
  apply (connect_then_disconnect 1%nat (Hex 7%N) no_one); reflexivity.
Defined.

(** *** Drivers *)

Lemma firstn_short {A} (n : nat) (l : list A) :
  (length l <= n)%nat -> firstn n l = l.
Proof. intros Hl. now apply firstn_all2. Qed.

Lemma filter_length_le {A} (p : A -> bool) (l : list A) :
  (length (List.filter p l) <= length l)%nat.
Proof.
  induction l as [|x l IH]; simpl; [lia|]. destruct (p x); simpl; lia.
Qed.

(** X25.  [get_drivers] never lists more than 100 drivers: it lists the
    first 100 of the drivers asked for (all of them, or the available
    ones), or all of these when there are fewer.  A driver [create_driver]
    has stored is listed under the identifier the store gave it, as long
    as fewer than 100 drivers are stored before it and, when only
    available drivers are asked for, the driver is available. *)
Theorem created_driver_is_listed :
  (forall (available_only : bool) (w : world),
      exists l : list driver_out,
        get_drivers available_only w = (Ok l, w) /\
        length l =
          Nat.min 100
            (length (if available_only
                     then List.filter Driver.is_available (drivers w)
                     else drivers w)) /\
        (available_only = true ->
         Forall (fun x => is_available x = true) l) /\
        Forall (fun x => exists d, In d (drivers w) /\ x = driver_reply d) l) /\
  (forall (driver : Driver.t) (new_id : oid) (available_only : bool)
          (w : world),
      (length (drivers w) < 100)%nat ->
      (available_only = true -> Driver.is_available driver = true) ->
      exists (out : driver_out) (w' : world) (l : list driver_out),
        create_driver driver new_id w = (Ok ("Driver created", out), w') /\
        id out = str new_id /\
        name out = Driver.name driver /\
        get_drivers available_only w' = (Ok l, w') /\
        In out l).
Proof.
  split.
  - intros b w. unfold get_drivers, try_except, bind, get, ret. simpl.
    eexists. split; [reflexivity|].
    split; [now rewrite length_map, length_firstn|].
    set (found := if b then List.filter Driver.is_available (drivers w)
                  else drivers w).
    assert (Hsub : forall d, In d (firstn 100 found) -> In d found).
    { intros d Hd. rewrite <- (firstn_skipn 100 found).
      apply in_or_app. now left. }
    split.
    + intros ->. apply List.Forall_forall. intros x Hx.
      apply in_map_iff in Hx. destruct Hx as (d & <- & Hd).
      apply Hsub in Hd. unfold found in Hd. apply filter_In in Hd.
      simpl. now destruct Hd.
    + apply List.Forall_forall. intros x Hx.
      apply in_map_iff in Hx. destruct Hx as (d & <- & Hd).
      apply Hsub in Hd. exists d. split; [|reflexivity].
      unfold found in Hd. destruct b; [|exact Hd].
      apply filter_In in Hd. now destruct Hd.
  - intros driver new_id b [drs ds conns subs cl wr] Hlen Hav.
    simpl in Hlen.
    unfold create_driver, get_drivers, try_except, bind, get, put,
      set_drivers, ret. simpl.
    eexists _, _, _. split; [reflexivity|]. split; [reflexivity|].
    split; [reflexivity|]. split; [reflexivity|].
    apply in_map_iff. eexists. split; [reflexivity|]. cbn [drivers].
    rewrite firstn_short.
    + destruct b; [|apply in_or_app; right; now left].
      rewrite List.filter_app. apply in_or_app. right. simpl.
      rewrite (Hav eq_refl). now left.
    + destruct b.
      * etransitivity; [apply filter_length_le|].
        rewrite length_app. simpl. lia.
      * rewrite length_app. simpl. lia.
Qed.

(** A driver at the origin. *)
Definition a_driver (name : string) (is_available : bool) : Driver.t :=
  Driver.Build 0%N name "555-0100" "bike" (mkLocation 0 0) is_available 4.5.

(** A run of X25. *)
Lemma created_driver_is_listed_witness :
  exists (out : driver_out) (w' : world) (l : list driver_out),
    create_driver (a_driver "Ada" true) 3%N no_one =
      (Ok ("Driver created", out), w') /\
    id out = str 3%N /\
    name out = "Ada" /\
    get_drivers true w' = (Ok l, w') /\
    In out l.
Proof.
  apply (proj2 created_driver_is_listed (a_driver "Ada" true) 3%N true
           no_one).
  - simpl. lia.
  - reflexivity.
Defined.

(** X26.  The driver the matcher finds is one [get_drivers] lists when
    asked for the available drivers: available, and among the first 100
    of them. *)
Theorem matched_driver_is_listed :
  forall (pickup_location : Location) (w w1 : world) (k : id_text),
    find_nearest_driver pickup_location w = (Ok (Some k), w1) ->
    exists l : list driver_out,
      get_drivers true w = (Ok l, w) /\
      (length l <= 100)%nat /\
      exists x : driver_out,
        In x l /\ id x = k /\ is_available x = true.
Proof.
  intros pickup w w1 k Hrun.
  unfold find_nearest_driver, bind, get, ret in Hrun. simpl in Hrun.
  injection Hrun as Hk _.
  unfold get_drivers, try_except, bind, get, ret. simpl.
  eexists. split; [reflexivity|].
  split; [rewrite length_map, length_firstn; lia|].
  fold (candidates w).
  destruct (nearest_of_cases pickup (candidates w))
    as [[_ Hn] | (d & pre & post & Hn & Hl & _)];
    rewrite Hn in Hk; [discriminate|].
  injection Hk as <-. exists (driver_reply d).
  split; [|split; [reflexivity|]].
  - apply in_map. rewrite Hl. apply in_or_app. right. now left.
  - assert (Hin : In d (candidates w))
      by (rewrite Hl; apply in_or_app; right; now left).
    unfold candidates in Hin.
    assert (Hin' : In d (List.filter Driver.is_available (drivers w))).
    { rewrite <- (firstn_skipn 100). apply in_or_app. now left. }
    apply filter_In in Hin'. simpl. now destruct Hin'.
Qed.

(** A run of X26: one driver, who is available. *)
Lemma matched_driver_is_listed_witness :
  exists l : list driver_out,
    get_drivers true
      (World [a_driver "Ada" true] [] [] ∅ [] []) =
      (Ok l, World [a_driver "Ada" true] [] [] ∅ [] []) /\
    (length l <= 100)%nat /\
    exists x : driver_out,
      In x l /\ id x = str 0%N /\ is_available x = true.
Proof.
  apply (matched_driver_is_listed (mkLocation 0 0)
           (World [a_driver "Ada" true] [] [] ∅ [] [])
           (World [a_driver "Ada" true] [] [] ∅ [] []) (str 0%N)).
  reflexivity.
Defined.

(** *** Tracking *)

(** X27.  [track_delivery] changes nothing.  It answers with the status
    404 when no delivery has the tracking number, with 500 when the
    delivery found names its driver by a text that is not an identifier,
    and otherwise with the delivery, serialised, and the name, telephone,
    vehicle and position of its driver when that driver is stored. *)
Theorem track_delivery_outcome :
  forall (tracking_number : string) (w : world),
    match find_first
            (fun d => String.eqb (Delivery.tracking_number d) tracking_number)
            (deliveries w) with
    | None =>
        track_delivery tracking_number w = (Raise (HTTPException 404), w)
    | Some d =>
        match Delivery._id d, Delivery.driver_id d with
        | None, Some (Malformed (String _ _)) | None, _ => True
        | Some o, Some (Malformed (String _ _)) =>
            track_delivery tracking_number w = (Raise (HTTPException 500), w)
        | Some o, driver_id =>
            exists r : Delivery.t,
              track_delivery tracking_number w =
                (Ok (Some r,
                     match driver_id with
                     | Some (Hex k) =>
                         option_map
                           (fun drv =>
                              DriverInfo (Driver.name drv) (Driver.phone drv)
                                (Driver.vehicle_type drv)
                                (Driver.current_location drv))
                           (find_first (driver_by_id k) (drivers w))
                     | _ => None
                     end), w) /\
              Delivery.id r = Some (str o) /\
              Delivery.status r = Delivery.status d /\
              Delivery.estimated_delivery_time r =
                Delivery.estimated_delivery_time d
        end
    end.
Proof.
  intros tn w. unfold track_delivery, try_except, bind, get, ret, raise.
  simpl.
  destruct (find_first _ (deliveries w)) as [d|]; [|reflexivity].
  destruct (Delivery._id d) as [o|] eqn:Hid;
    destruct (Delivery.driver_id d) as [[k|[|a text]]|] eqn:Hk; simpl;
    try exact I; try reflexivity;
    rewrite ?Hid; simpl; eexists; split; try reflexivity; simpl; auto.
Qed.

(** *** The estimate *)

Local Open Scope R_scope.

Lemma distance_sym a b : distance a b = distance b a.
Proof. unfold distance. f_equal. ring. Qed.

Lemma int_IZR (z : Z) : (0 <= z)%Z -> int (IZR z) = z.
Proof.
  intros Hz. rewrite int_nonneg by now apply IZR_le.
  symmetry. apply Int_part_spec. lra.
Qed.

Lemma distance_of_valid a b :
  valid_location a -> valid_location b -> distance a b <= 402.5.
Proof.
  intros [Ha1 Ha2] [Hb1 Hb2]. unfold distance.
  rewrite <- (sqrt_square 402.5) by lra.
  apply sqrt_le_1_alt. nra.
Qed.



Local Close Scope R_scope.

End ApiQueriesFacts.

(** ** The database name *)

Module ConfigFacts.
Import Config.

(** [c in s] *)
Fixpoint occurs (c : ascii) (s : string) : bool :=
  match s with
  | EmptyString => false
  | String x rest => Ascii.eqb x c || occurs c rest
  end.

Lemma occurs_append c a b :
  occurs c (a ++ b)%string = occurs c a || occurs c b.
Proof.
  induction a as [|x a IH]; simpl; [reflexivity|].
  now rewrite IH, orb_assoc.
Qed.

Lemma split_not_nil sep s : split sep s <> [].
Proof.
  destruct s as [|c s]; simpl; [discriminate|].
  destruct (Ascii.eqb c sep); [discriminate|].
  destruct (split sep s); discriminate.
Qed.

(** No piece holds the separator, and no piece holds a character the
    text does not. *)
Lemma split_pieces sep c s :
  (c = sep \/ occurs c s = false) ->
  Forall (fun piece => occurs c piece = false) (split sep s).
Proof.
  induction s as [|x s IH]; simpl; intros Hc.
  - constructor; [reflexivity | constructor].
  - destruct (Ascii.eqb x sep) eqn:Ex.
    + constructor; [reflexivity|]. apply IH.
      destruct Hc as [Hc|Hc]; [now left | right].
      apply orb_false_iff in Hc. now destruct Hc.
    + assert (Hxc : Ascii.eqb x c = false /\
                    (c = sep \/ occurs c s = false)).
      { destruct Hc as [->|Hc]; [split; [exact Ex | now left]|].
        apply orb_false_iff in Hc. destruct Hc as [H1 H2]. auto. }
      destruct Hxc as [Hxc Hrest]. specialize (IH Hrest).
      destruct (split sep s) as [|piece pieces]; constructor.
      * simpl. now rewrite Hxc.
      * constructor.
      * simpl. rewrite Hxc. simpl. now inversion IH.
      * now inversion IH.
Qed.

Lemma split_free sep s : occurs sep s = false -> split sep s = [s].
Proof.
  induction s as [|x s IH]; simpl; [reflexivity|].
  intros Hs. apply orb_false_iff in Hs. destruct Hs as [Hx Hs].
  rewrite Hx, (IH Hs). reflexivity.
Qed.

Lemma split_append sep a b :
  split sep (a ++ String sep b)%string = split sep a ++ split sep b.
Proof.
  induction a as [|x a IH]; simpl.
  - now rewrite Ascii.eqb_refl.
  - destruct (Ascii.eqb x sep); [now rewrite IH|].
    rewrite IH. pose proof (split_not_nil sep a) as Hne.
    destruct (split sep a) as [|piece pieces]; [now destruct Hne|].
    reflexivity.
Qed.

Lemma last_piece_app l1 l2 :
  l2 <> [] -> last_piece (l1 ++ l2) = last_piece l2.
Proof.
  intros Hne. unfold last_piece. induction l1 as [|x l1 IH]; [reflexivity|].
  simpl. destruct (l1 ++ l2) eqn:E; [|exact IH].
  apply app_eq_nil in E. now destruct E.
Qed.

Lemma last_piece_In l : l <> [] -> In (last_piece l) l.
Proof.
  unfold last_piece. induction l as [|x l IH]; [now intros []|].
  intros _. destruct l as [|y l]; [now left|].
  right. apply IH. discriminate.
Qed.

Lemma first_piece_In l : l <> [] -> In (first_piece l) l.
Proof. destruct l; [now intros [] | now left]. Qed.

(** X29.  Whatever the URL, the database name [Database.connect] takes
    from it is not empty and holds neither '/' nor '?'. *)
Theorem db_name_is_a_name :
  forall mongodb_url : string,
    db_name mongodb_url <> "" /\
    occurs "/" (db_name mongodb_url) = false /\
    occurs "?" (db_name mongodb_url) = false.
Proof.
  intros url. unfold db_name.
  set (tail := last_piece (split "/" url)).
  set (name := first_piece (split "?" tail)).
  assert (Htail : occurs "/" tail = false).
  { pose proof (split_pieces "/" "/" url (or_introl eq_refl)) as Hall.
    rewrite List.Forall_forall in Hall. apply Hall.
    apply last_piece_In, split_not_nil. }
  assert (Hin : In name (split "?" tail))
    by apply first_piece_In, split_not_nil.
  assert (H1 : occurs "/" name = false).
  { pose proof (split_pieces "?" "/" tail (or_intror Htail)) as Hall.
    rewrite List.Forall_forall in Hall. now apply Hall. }
  assert (H2 : occurs "?" name = false).
  { pose proof (split_pieces "?" "?" tail (or_introl eq_refl)) as Hall.
    rewrite List.Forall_forall in Hall. now apply Hall. }
  destruct (String.eqb name "") eqn:E.
  - split; [discriminate|]. split; reflexivity.
  - apply String.eqb_neq in E. auto.
Qed.

(** X30.  The name is what stands between the last '/' of the URL and the
    first '?' after it, and "delivery_service" when nothing stands there:
    so a URL that ends with its host and port, with no path, gives host
    and port as the name, not the default. *)
Theorem db_name_is_the_last_segment :
  forall base name options : string,
    occurs "/" name = false ->
    occurs "?" name = false ->
    occurs "/" options = false ->
    let expected := if String.eqb name "" then "delivery_service" else name in
    db_name (base ++ "/" ++ name) = expected /\
    db_name (base ++ "/" ++ name ++ "?" ++ options) = expected.
Proof.
  intros base name options Hn1 Hn2 Ho expected. unfold db_name. split.
  - change (base ++ "/" ++ name)%string
      with (base ++ String "/" name)%string.
    rewrite split_append, last_piece_app by apply split_not_nil.
    rewrite (split_free "/" name Hn1).
    change (last_piece [name]) with name.
    rewrite (split_free "?" name Hn2). reflexivity.
  - change (base ++ "/" ++ name ++ "?" ++ options)%string
      with (base ++ String "/" (name ++ String "?" options))%string.
    rewrite split_append, last_piece_app by apply split_not_nil.
    rewrite (split_free "/" (name ++ String "?" options)).
    + change (last_piece [(name ++ String "?" options)%string])
        with (name ++ String "?" options)%string.
      rewrite split_append, (split_free "?" name Hn2). reflexivity.
    + rewrite occurs_append. simpl. now rewrite Hn1, Ho.
Qed.

(** A run of X30: a URL with host and port and no path. *)
Lemma db_name_is_the_last_segment_witness :
  db_name ("mongodb:/" ++ "/" ++ "localhost:27017") = "localhost:27017" /\
  db_name ("mongodb:/" ++ "/" ++ "localhost:27017" ++ "?" ++ "w=1") =
    "localhost:27017".
Proof.
  apply (db_name_is_the_last_segment "mongodb:/" "localhost:27017" "w=1");
    reflexivity.
Defined.

End ConfigFacts.
